(** * Equipment-diagnosis document pipeline: a shallow embedding

    The development follows three source files of the repair assistant:
    - [diy/lib/rag-service.ts]                         ([Module RAG]),
    - the document crawler service (second half of
      [diy/components/ListenFixAssistant.tsx])         ([Module Crawler]),
    - [diy/app/api/gemini/listen-and-fix/route.ts]     ([Module Route]).

    JavaScript strings are sequences of UTF-16 code units, numbers are IEEE-754
    binary64 values (Rocq's primitive floats), integers that the code only
    counts or indexes with are in [Z].  External services (search, fetch,
    embedding, generation, the clock) are oracles over an abstract world. *)

From Stdlib Require Import ZArith NArith List Ascii String Bool Lia Floats.
From Stdlib Require Import Reals Lra Sorted.
From stdpp Require Import base option list gmap.

Set Default Proof Using "Type".
(* Decimal literals denote the nearest binary64 value, as in JavaScript. *)
Set Warnings "-inexact-float".
Local Open Scope Z_scope.

(* ===================================================================== *)
(** ** JavaScript strings *)
(* ===================================================================== *)

(** A string is the list of its UTF-16 code units. *)
Abbreviation jsstring := (list N).

(** String literals of the source (all of them ASCII). *)
Definition js (s : string) : jsstring :=
  List.map N_of_ascii (list_ascii_of_string s).

Definition jslen {A} (l : list A) : Z := Z.of_nat (length l).

(** The line feed, written [\n] in the source. *)
Definition LF : N := 10%N.
Definition SP : N := 32%N.

(** [WhiteSpace] and [LineTerminator] of ECMAScript: what [\s] matches and
    what [trim] strips. *)
Definition is_ws (c : N) : bool :=
  ((9 <=? c) && (c <=? 13) || (c =? 32) || (c =? 160) || (c =? 5760)
   || (8192 <=? c) && (c <=? 8202) || (c =? 8232) || (c =? 8233)
   || (c =? 8239) || (c =? 8287) || (c =? 12288) || (c =? 65279))%N.

Fixpoint trimStart (s : jsstring) : jsstring :=
  match s with
  | c :: s' => if is_ws c then trimStart s' else s
  | [] => []
  end.

Definition trimEnd (s : jsstring) : jsstring :=
  reverse (trimStart (reverse s)).

(** [String.prototype.trim]. *)
Definition trim (s : jsstring) : jsstring := trimEnd (trimStart s).

(** Relative index of [slice]: a negative index counts from the end. *)
Definition rel_index (len i : Z) : Z :=
  if i <? 0 then Z.max (len + i) 0 else Z.min i len.

(** [String.prototype.slice(from, to)] and [Array.prototype.slice(from, to)]. *)
Definition slice {A} (l : list A) (from to : Z) : list A :=
  let len := jslen l in
  let k := rel_index len from in
  take (Z.to_nat (rel_index len to - k)) (drop (Z.to_nat k) l).

(** [slice(from)], up to the end. *)
Definition slice_from {A} (l : list A) (from : Z) : list A :=
  slice l from (jslen l).

Fixpoint starts_with (pat s : jsstring) : bool :=
  match pat, s with
  | [], _ => true
  | p :: pat', c :: s' => (p =? c)%N && starts_with pat' s'
  | _ :: _, [] => false
  end.

(** Largest [j <= k] at which [pat] occurs in [s], or [-1]. *)
Fixpoint lastIndexOf_upto (pat s : jsstring) (k : nat) : Z :=
  if starts_with pat (drop k s) then Z.of_nat k
  else match k with
       | O => -1
       | S k' => lastIndexOf_upto pat s k'
       end.

(** [String.prototype.lastIndexOf(pat, pos)]: the search starts at [pos]
    clamped to the string. *)
Definition lastIndexOf (s pat : jsstring) (pos : Z) : Z :=
  lastIndexOf_upto pat s (Z.to_nat (Z.min (Z.max pos 0) (jslen s))).

(** First occurrence of [pat] in [s]: [Some (before, after)]. *)
Fixpoint split_at_first (pat s : jsstring) : option (jsstring * jsstring) :=
  if starts_with pat s then Some ([], drop (length pat) s)
  else match s with
       | [] => None
       | c :: s' =>
           match split_at_first pat s' with
           | Some (pre, post) => Some (c :: pre, post)
           | None => None
           end
       end.

(** [String.prototype.includes]. *)
Definition includes (s pat : jsstring) : bool :=
  match split_at_first pat s with Some _ => true | None => false end.

(** [Array.prototype.join]. *)
Fixpoint join (sep : jsstring) (l : list jsstring) : jsstring :=
  match l with
  | [] => []
  | [x] => x
  | x :: l' => x ++ sep ++ join sep l'
  end.

(** Digits of a non-negative integer in a radix up to 36, as
    [Number.prototype.toString(radix)] prints them. *)
Definition digit_char (d : Z) : N :=
  if d <? 10 then Z.to_N (48 + d) else Z.to_N (97 + (d - 10)).

Fixpoint to_digits (fuel : nat) (radix n : Z) (acc : jsstring) : jsstring :=
  match fuel with
  | O => acc
  | S f =>
      let acc' := digit_char (n mod radix) :: acc in
      if n / radix =? 0 then acc' else to_digits f radix (n / radix) acc'
  end.

(** [n.toString(radix)] for an integer [n]; a number has at most as many
    digits as it has bits. *)
Definition nat_toString (radix n : Z) : jsstring :=
  to_digits (S (Z.to_nat (Z.log2 n))) radix n [].

Definition int_toString (radix n : Z) : jsstring :=
  if n <? 0 then 45%N :: nat_toString radix (Z.abs n) else nat_toString radix n.

(** Template-literal interpolation of an integer: [`${n}`]. *)
Definition int_to_js (n : Z) : jsstring := int_toString 10 n.

(** [replace(/\s+/g, ' ')]: every maximal run of white space becomes one
    space. [inws] tells that the previous unit was white space. *)
Fixpoint collapse_ws_from (inws : bool) (s : jsstring) : jsstring :=
  match s with
  | [] => []
  | c :: s' =>
      if is_ws c then
        if inws then collapse_ws_from true s' else SP :: collapse_ws_from true s'
      else c :: collapse_ws_from false s'
  end.

Definition collapse_ws (s : jsstring) : jsstring := collapse_ws_from false s.

(** [replace(/\s+/g, '-')]. *)
Fixpoint dash_ws_from (inws : bool) (s : jsstring) : jsstring :=
  match s with
  | [] => []
  | c :: s' =>
      if is_ws c then
        if inws then dash_ws_from true s' else 45%N :: dash_ws_from true s'
      else c :: dash_ws_from false s'
  end.

(** [split(/\s+/)]: the pieces between maximal runs of white space; [cur] is
    the piece being read, reversed. *)
Fixpoint split_ws_from (inws : bool) (cur : jsstring) (s : jsstring)
  : list jsstring :=
  match s with
  | [] => [reverse cur]
  | c :: s' =>
      if is_ws c then
        if inws then split_ws_from true cur s'
        else reverse cur :: split_ws_from true [] s'
      else split_ws_from false (c :: cur) s'
  end.

Definition split_ws (s : jsstring) : list jsstring := split_ws_from false [] s.

(** [split(/\n\n+/)]: the pieces between maximal runs of two or more line
    feeds; [pend] counts the line feeds just read, which belong to the piece
    when the run stops at one. *)
Fixpoint split_paragraphs_from (pend : nat) (cur : jsstring) (s : jsstring)
  : list jsstring :=
  match s with
  | [] =>
      if (2 <=? pend)%nat then [reverse cur; []]
      else [reverse (replicate pend LF ++ cur)]
  | c :: s' =>
      if (c =? LF)%N then split_paragraphs_from (S pend) cur s'
      else if (2 <=? pend)%nat then reverse cur :: split_paragraphs_from 0 [c] s'
      else split_paragraphs_from 0 (c :: replicate pend LF ++ cur) s'
  end.

Definition split_paragraphs (s : jsstring) : list jsstring :=
  split_paragraphs_from 0 [] s.

(** The replacement text of [String.prototype.replace] with a string
    pattern: [$$], [$&], [$`] and [$'] are expanded, everything else is
    literal (there are no capture groups). *)
Fixpoint expand_replacement (matched before after repl : jsstring) : jsstring :=
  match repl with
  | [] => []
  | d :: r =>
      match r with
      | c :: r' =>
          if (d =? 36)%N && (c =? 36)%N then
            36%N :: expand_replacement matched before after r'
          else if (d =? 36)%N && (c =? 38)%N then
            matched ++ expand_replacement matched before after r'
          else if (d =? 36)%N && (c =? 96)%N then
            before ++ expand_replacement matched before after r'
          else if (d =? 36)%N && (c =? 39)%N then
            after ++ expand_replacement matched before after r'
          else d :: expand_replacement matched before after r
      | [] => [d]
      end
  end.

(** [s.replace(pat, repl)] with a string pattern: the first occurrence. *)
Definition replace (s pat repl : jsstring) : jsstring :=
  match split_at_first pat s with
  | Some (pre, post) => pre ++ expand_replacement pat pre post repl ++ post
  | None => s
  end.

(** [[...new Set(l)]]: first occurrences, in order. *)
Definition dedupe (l : list jsstring) : list jsstring :=
  foldl (fun acc q => if bool_decide (q ∈ acc) then acc else acc ++ [q]) [] l.

(** [ToInt32]. *)
Definition to_int32 (z : Z) : Z := (z + 2 ^ 31) mod 2 ^ 32 - 2 ^ 31.

(* ===================================================================== *)
(** ** Regular expressions *)
(* ===================================================================== *)

(** The regular-expression literals of the source that are not plain
    white-space patterns are matched by a backtracking matcher with the
    ECMAScript priorities: alternatives left to right, greedy repetition
    longest first, lazy repetition shortest first, an iteration that
    consumes nothing is rejected. *)
Module Regex.

Inductive regex :=
| Eps
| Chr (p : N -> bool)
| Seq (r1 r2 : regex)
| Alt (r1 r2 : regex)
| Star (r : regex)
| LazyStar (r : regex)
| Group (r : regex)
| WordB.

(** Position reached and span of the capture group, if it took part. *)
Definition result := (nat * option (nat * nat))%type.

Definition is_word (c : option N) : bool :=
  match c with
  | Some c => ((48 <=? c) && (c <=? 57) || (65 <=? c) && (c <=? 90)
               || (97 <=? c) && (c <=? 122) || (c =? 95))%N
  | None => false
  end.

Definition before (inp : jsstring) (i : nat) : option N :=
  match i with O => None | S j => inp !! j end.

Fixpoint m (fuel : nat) (inp : jsstring) (r : regex) (i : nat)
    (cap : option (nat * nat)) (k : nat -> option (nat * nat) -> option result)
    {struct fuel} : option result :=
  (fix go (r : regex) (i : nat) (cap : option (nat * nat))
       (k : nat -> option (nat * nat) -> option result) {struct r}
     : option result :=
     match r with
     | Eps => k i cap
     | Chr p =>
         match inp !! i with
         | Some c => if p c then k (S i) cap else None
         | None => None
         end
     | Seq r1 r2 => go r1 i cap (fun i' cap' => go r2 i' cap' k)
     | Alt r1 r2 =>
         match go r1 i cap k with
         | Some x => Some x
         | None => go r2 i cap k
         end
     | Star r1 =>
         match
           go r1 i cap (fun i' cap' =>
             if (i <? i')%nat then
               match fuel with
               | S fuel' => m fuel' inp (Star r1) i' cap' k
               | O => None
               end
             else None)
         with
         | Some x => Some x
         | None => k i cap
         end
     | LazyStar r1 =>
         match k i cap with
         | Some x => Some x
         | None =>
             go r1 i cap (fun i' cap' =>
               if (i <? i')%nat then
                 match fuel with
                 | S fuel' => m fuel' inp (LazyStar r1) i' cap' k
                 | O => None
                 end
               else None)
         end
     | Group r1 => go r1 i cap (fun i' _ => k i' (Some (i, i')))
     | WordB =>
         if xorb (is_word (before inp i)) (is_word (inp !! i)) then k i cap
         else None
     end) r i cap k.

(** A match starting exactly at [i]. *)
Definition match_at (r : regex) (inp : jsstring) (i : nat) : option result :=
  m (length inp) inp r i None (fun i' cap => Some (i', cap)).

(** The leftmost match starting at [i] or later: start and result. *)
Fixpoint search_from (fuel : nat) (r : regex) (inp : jsstring) (i : nat)
  : option (nat * result) :=
  match match_at r inp i with
  | Some x => Some (i, x)
  | None =>
      match fuel with
      | O => None
      | S fuel' => search_from fuel' r inp (S i)
      end
  end.

Definition search (r : regex) (inp : jsstring) (i : nat)
  : option (nat * result) :=
  search_from (length inp - i) r inp i.

(** [r.test(inp)]. *)
Definition test (r : regex) (inp : jsstring) : bool :=
  match search r inp 0 with Some _ => true | None => false end.

(** First capture group of [inp.match(r)]. *)
Definition match_group (r : regex) (inp : jsstring) : option jsstring :=
  match search r inp 0 with
  | Some (_, (_, Some (a, b))) => Some (take (b - a) (drop a inp))
  | _ => None
  end.

(** [inp.replace(r, repl)] for a global [r] and a replacement without
    [$]: every match, left to right, from position [i] on. *)
Fixpoint replace_all_from (fuel : nat) (r : regex) (repl inp : jsstring)
    (i : nat) : jsstring :=
  match fuel with
  | O => drop i inp
  | S fuel' =>
      if (length inp <? i)%nat then []
      else
        match search r inp i with
        | None => drop i inp
        | Some (a, (b, _)) =>
            take (a - i) (drop i inp) ++ repl ++
            (if (a <? b)%nat then replace_all_from fuel' r repl inp b
             else take 1 (drop b inp) ++ replace_all_from fuel' r repl inp (S b))
        end
  end.

Definition replace_all (r : regex) (repl inp : jsstring) : jsstring :=
  replace_all_from (S (S (length inp))) r repl inp 0.

(** Building blocks of the literals. *)
Definition upper (c : N) : N :=
  if ((97 <=? c) && (c <=? 122))%N then (c - 32)%N else c.
Definition chr (c : N) : regex := Chr (fun x => (x =? c)%N).
(** A letter under the [i] flag. *)
Definition chr_i (c : N) : regex := Chr (fun x => (upper x =? upper c)%N).
Definition not_chr (c : N) : regex := Chr (fun x => negb (x =? c)%N).
Definition any : regex := Chr (fun _ => true).
Definition digit : regex := Chr (fun x => ((48 <=? x) && (x <=? 57))%N).
Definition space : regex := Chr is_ws.
Definition lit (s : jsstring) : regex := foldr (fun c r => Seq (chr c) r) Eps s.
Definition lit_i (s : jsstring) : regex :=
  foldr (fun c r => Seq (chr_i c) r) Eps s.
Definition plus (r : regex) : regex := Seq r (Star r).
Fixpoint at_least (n : nat) (r : regex) : regex :=
  match n with O => Star r | S n' => Seq r (at_least n' r) end.
Fixpoint seq (l : list regex) : regex :=
  match l with [] => Eps | [r] => r | r :: l' => Seq r (seq l') end.

End Regex.

(* ===================================================================== *)
(** ** Numbers and sorting *)
(* ===================================================================== *)

(** The arithmetic the two cosine-similarity functions use.  The program
    runs them on binary64 numbers ([float_arith]); the same text read over
    the real numbers gives what they compute up to rounding. *)
Class Arith (T : Type) := {
  n_zero : T;
  n_add : T -> T -> T;
  n_mul : T -> T -> T;
  n_div : T -> T -> T;
  n_sqrt : T -> T;
  n_is_zero : T -> bool          (* [x === 0] *)
}.

#[global] Instance float_arith : Arith float := {|
  n_zero := 0%float;
  n_add := PrimFloat.add;
  n_mul := PrimFloat.mul;
  n_div := PrimFloat.div;
  n_sqrt := PrimFloat.sqrt;
  n_is_zero x := (x =? 0)%float
|}.

(** The three sums of the loop [for (i = 0; i < a.length; i++)] of both
    cosine-similarity functions, for vectors of the same length. *)
Definition dot_and_norms {T} `{Arith T} (a b : list T) : T * T * T :=
  foldl (fun '(dotProduct, normA, normB) '(x, y) =>
           (n_add dotProduct (n_mul x y),
            n_add normA (n_mul x x),
            n_add normB (n_mul y y)))
        (n_zero, n_zero, n_zero) (zip a b).

(** The sum of squares the loop accumulates for one vector. *)
Definition norm2 {T} `{Arith T} (v : list T) : T :=
  foldl (fun acc x => n_add acc (n_mul x x)) n_zero v.


(** [Math.max(x, y)]. *)
Definition Math_max (x y : float) : float :=
  if is_nan x || is_nan y then nan
  else if (x <? y)%float then y
  else if (y <? x)%float then x
  else if get_sign x then y else x.

(** [x || d] for a number: [d] replaces [0] and [NaN]. *)
Definition num_or (x d : float) : float :=
  if (x =? 0)%float || is_nan x then d else x.

(** [Array.prototype.sort(compare)], a stable sort: [before y x] tells that
    the comparison function puts [y] strictly before [x] (it returns a
    negative number for [(y, x)]).  An element stays in front of the later
    ones unless one of them comes strictly before it. *)
Fixpoint sort_insert {A} (before : A -> A -> bool) (x : A) (l : list A) : list A :=
  match l with
  | [] => [x]
  | y :: l' => if before y x then y :: sort_insert before x l' else x :: l
  end.

Definition sort_by {A} (before : A -> A -> bool) (l : list A) : list A :=
  foldr (sort_insert before) [] l.

(** Outcome of a function that may throw. *)
Inductive outcome (A : Type) :=
| Ok (a : A)
| Throw (message : jsstring).
Arguments Ok {A} a.
Arguments Throw {A} message.

(* ===================================================================== *)
(** ** [rag-service.ts] *)
(* ===================================================================== *)

Module RAG.

(** [RAGConfig], every field present ([Required<RAGConfig>]). *)
Record RAGConfig := {
  chunkSize : Z;
  chunkOverlap : Z;
  embeddingModel : jsstring;
  embeddingDimensions : Z;
  topK : Z;
  minScore : float
}.

Definition DEFAULT_CONFIG : RAGConfig := {|
  chunkSize := 1000;
  chunkOverlap := 200;
  embeddingModel := js "text-embedding-004";
  embeddingDimensions := 768;
  topK := 5;
  minScore := 0.5%float
|}.

(** Values of a metadata record ([string | number | boolean]); the numbers
    the chunker writes are integers. *)
Inductive MetaValue :=
| MStr (s : jsstring)
| MNum (n : Z)
| MBool (b : bool).

Record Document := {
  doc_id : jsstring;
  doc_content : jsstring;
  doc_metadata : gmap jsstring MetaValue
}.

Record ChunkedDocument := {
  id : jsstring;
  documentId : jsstring;
  content : jsstring;
  embedding : option (list float);
  metadata : gmap jsstring MetaValue
}.

(** The break point chosen by one iteration of the loop of [chunkDocument]:
    [start + chunkSize], moved back to a sentence or paragraph end that
    lies in the second half of the window. *)
Definition chunk_end (cfg : RAGConfig) (text : jsstring) (start : Z) : Z :=
  let e := Z.min (start + chunkSize cfg) (jslen text) in
  if e <? jslen text then
    let sentenceEnd := lastIndexOf text (js ".") e in
    if 2 * sentenceEnd >? 2 * start + chunkSize cfg then sentenceEnd + 1
    else
      let paragraphEnd := lastIndexOf text [LF; LF] e in
      if 2 * paragraphEnd >? 2 * start + chunkSize cfg then paragraphEnd + 2
      else e
  else e.

Definition make_chunk (document : Document) (chunkIndex start e : Z)
  : ChunkedDocument := {|
  id := doc_id document ++ js "_chunk_" ++ int_to_js chunkIndex;
  documentId := doc_id document;
  content := trim (slice (doc_content document) start e);
  embedding := None;
  metadata :=
    <[js "endChar" := MNum e]>
      (<[js "startChar" := MNum start]>
         (<[js "chunkIndex" := MNum chunkIndex]> (doc_metadata document)))
|}.

(** The [while (start < content.length)] loop of [chunkDocument], run for
    at most [fuel] iterations; [None] when the loop is still running after
    that many. *)
Fixpoint chunk_loop (fuel : nat) (cfg : RAGConfig) (document : Document)
    (start chunkIndex : Z) (chunks : list ChunkedDocument)
  : option (list ChunkedDocument) :=
  match fuel with
  | O => None
  | S fuel' =>
      if start <? jslen (doc_content document) then
        let e := chunk_end cfg (doc_content document) start in
        chunk_loop fuel' cfg document (e - chunkOverlap cfg) (chunkIndex + 1)
          (chunks ++ [make_chunk document chunkIndex start e])
      else Some chunks
  end.

(** [RAGService.chunkDocument], with the iteration bound made explicit. *)
Definition chunkDocument (fuel : nat) (cfg : RAGConfig) (document : Document)
  : option (list ChunkedDocument) :=
  chunk_loop fuel cfg document 0 0 [].

Record SearchResult := {
  document : ChunkedDocument;
  score : float
}.

(** [cosineSimilarity]: throws on vectors of different lengths, divides
    without looking at the denominator. *)
Definition cosineSimilarity {T} `{Arith T} (a b : list T) : outcome T :=
  if bool_decide (length a = length b) then
    let '(dotProduct, normA, normB) := dot_and_norms a b in
    Ok (n_div dotProduct (n_mul (n_sqrt normA) (n_sqrt normB)))
  else Throw (js "Vectors must have same length").

(** The [for] loop of [searchChunks]. *)
Fixpoint score_chunks (cfg : RAGConfig) (queryEmbedding : list float)
    (chunks : list ChunkedDocument) (results : list SearchResult)
  : outcome (list SearchResult) :=
  match chunks with
  | [] => Ok results
  | chunk :: chunks' =>
      match embedding chunk with
      | None => score_chunks cfg queryEmbedding chunks' results
      | Some e =>
          match cosineSimilarity queryEmbedding e with
          | Throw msg => Throw msg
          | Ok sc =>
              score_chunks cfg queryEmbedding chunks'
                (if (minScore cfg <=? sc)%float
                 then results ++ [{| document := chunk; score := sc |}]
                 else results)
          end
      end
  end.

(** The comparison [(a, b) => b.score - a.score] is negative: [a] comes
    strictly before [b]. *)
Definition by_score_desc (a b : SearchResult) : bool :=
  (score b - score a <? 0)%float.

(** [searchChunks]. *)
Definition searchChunks (cfg : RAGConfig) (queryEmbedding : list float)
    (chunks : list ChunkedDocument) : outcome (list SearchResult) :=
  match score_chunks cfg queryEmbedding chunks [] with
  | Ok results => Ok (slice (sort_by by_score_desc results) 0 (topK cfg))
  | Throw msg => Throw msg
  end.

End RAG.

(* ===================================================================== *)
(** ** The document crawler service: types, tables and pure functions *)
(* ===================================================================== *)

(** Lookup in a constant object literal used as a table (own keys). *)
Fixpoint table_get {V} (t : list (jsstring * V)) (key : jsstring) : option V :=
  match t with
  | [] => None
  | (k, v) :: t' => if bool_decide (k = key) then Some v else table_get t' key
  end.

(** [x || ''] for an optional string. *)
Definition or_empty (x : option jsstring) : jsstring := default [] x.

(** Truthiness of an optional string: present and non-empty. *)
Definition truthy (x : option jsstring) : bool :=
  match x with Some (_ :: _) => true | _ => false end.

Module Crawler.

Inductive ContentType :=
| article | manual | forum | video_transcript | parts_catalog.

Record CrawlTarget := {
  ct_url : jsstring;
  ct_title : jsstring;
  ct_snippet : jsstring;
  ct_source : jsstring;
  relevanceScore : float
}.

Record DocMetadata := {
  dm_source : jsstring;
  wordCount : Z;
  hasImages : bool;
  hasPartNumbers : bool;
  hasTorqueSpecs : bool
}.

Record CrawledDocument := {
  cd_url : jsstring;
  cd_title : jsstring;
  cd_content : jsstring;
  contentType : ContentType;
  extractedAt : jsstring;
  cd_metadata : DocMetadata
}.

Record ChunkMetadata := {
  cm_title : jsstring;
  cm_source : jsstring;
  cm_section : option jsstring
}.

Record DocumentChunk := {
  id : jsstring;
  documentUrl : jsstring;
  content : jsstring;
  chunkIndex : Z;
  embedding : option (list float);
  metadata : ChunkMetadata
}.

Record IngestionResult := {
  success : bool;
  documentsFound : Z;
  documentsCrawled : Z;
  chunksCreated : Z;
  storeId : option jsstring;
  errors : list jsstring;
  processingTime : Z
}.

Record EquipmentQuery := {
  type : jsstring;
  make : option jsstring;
  model : option jsstring;
  year : option jsstring;
  symptom : option jsstring;
  diagnosis : option jsstring
}.

Record TrustedSource := {
  domain : jsstring;
  weight : float;
  ts_type : ContentType
}.

Definition trusted (d : string) (w : float) (t : ContentType) : TrustedSource :=
  {| domain := js d; weight := w; ts_type := t |}.

Definition TRUSTED_SOURCES : list (jsstring * list TrustedSource) := [
  (js "vehicles", [
     trusted "repairpal.com" 0.9 article;
     trusted "yourmechanic.com" 0.85 article;
     trusted "carcomplaints.com" 0.8 forum;
     trusted "autoblog.com" 0.75 article;
     trusted "nhtsa.gov" 0.95 manual;
     trusted "2carpros.com" 0.7 forum;
     trusted "justanswer.com" 0.6 forum;
     trusted "fixya.com" 0.6 forum ]);
  (js "appliances", [
     trusted "repairclinic.com" 0.95 manual;
     trusted "partselect.com" 0.9 manual;
     trusted "applianceassistant.com" 0.85 article;
     trusted "fixya.com" 0.7 forum;
     trusted "appliancepartspros.com" 0.85 parts_catalog ]);
  (js "hvac", [
     trusted "hvac-talk.com" 0.8 forum;
     trusted "achrn.com" 0.85 article;
     trusted "grainger.com" 0.75 parts_catalog;
     trusted "supplyhouse.com" 0.8 parts_catalog ]);
  (js "general", [
     trusted "ifixit.com" 0.95 manual;
     trusted "familyhandyman.com" 0.85 article;
     trusted "thisoldhouse.com" 0.8 article;
     trusted "homedepot.com" 0.7 article;
     trusted "lowes.com" 0.7 article ])
]%float.

Definition general_templates : list jsstring := [
  js "{type} {symptom} repair guide";
  js "how to fix {type} {diagnosis}";
  js "{make} {model} troubleshooting";
  js "DIY {type} repair {symptom}" ].

Definition SEARCH_TEMPLATES : list (jsstring * list jsstring) := [
  (js "vehicles", [
     js "{year} {make} {model} {symptom} repair guide";
     js "{make} {model} {diagnosis} how to fix";
     js "{year} {make} {model} service manual {diagnosis}";
     js "{make} {model} TSB {symptom}";
     js "{make} {model} common problems {symptom}" ]);
  (js "appliances", [
     js "{make} {model} {symptom} repair";
     js "{make} {model} troubleshooting guide";
     js "{make} {model} service manual PDF";
     js "{make} {model} error codes {symptom}";
     js "how to fix {make} {model} {diagnosis}" ]);
  (js "hvac", [
     js "{make} {model} {symptom} troubleshooting";
     js "{type} {symptom} repair guide";
     js "{make} furnace error codes";
     js "HVAC {diagnosis} fix DIY" ]);
  (js "general", general_templates)
].

(** [SEARCH_TEMPLATES[t] || SEARCH_TEMPLATES.general]. *)
Definition templates_for (t : jsstring) : list jsstring :=
  default general_templates (table_get SEARCH_TEMPLATES t).

(** The body of the loop of [generateSearchQueries]: one template with the
    placeholders filled, white space collapsed and trimmed. *)
Definition fill_template (query : EquipmentQuery) (template : jsstring)
  : jsstring :=
  let q := replace template (js "{type}") (type query) in
  let q := replace q (js "{make}") (or_empty (make query)) in
  let q := replace q (js "{model}") (or_empty (model query)) in
  let q := replace q (js "{year}") (or_empty (year query)) in
  let q := replace q (js "{symptom}") (or_empty (symptom query)) in
  let q := replace q (js "{diagnosis}") (or_empty (diagnosis query)) in
  trim (collapse_ws q).

Definition generateSearchQueries (query : EquipmentQuery) : list jsstring :=
  let queries :=
    filter (fun q => 10 < jslen q)
           (fill_template query <$> templates_for (type query)) in
  dedupe queries.

(** [adjustScoreBySource]. *)
Definition adjustScoreBySource (target : CrawlTarget) (equipmentType : jsstring)
  : float :=
  let sources :=
    default [] (table_get TRUSTED_SOURCES equipmentType) ++
    default [] (table_get TRUSTED_SOURCES (js "general")) in
  match List.find (fun s => includes (ct_source target) (domain s)) sources with
  | Some source => (relevanceScore target * weight source + 0.3)%float
  | None => (relevanceScore target * 0.7)%float
  end.

(** [classifyContent]. *)
Definition classifyContent (source text : jsstring) : ContentType :=
  if includes source (js "ifixit") || includes source (js "repairclinic")
  then manual
  else if includes source (js "forum") || includes source (js "talk")
          || includes text (js "posted by")
  then forum
  else if includes source (js "parts") || includes source (js "catalog")
  then parts_catalog
  else if includes text (js "transcript") || includes source (js "youtube")
  then video_transcript
  else article.

Import Regex.

(** [/<tag[^>]*>[\s\S]*?<\/tag>/gi]. *)
Definition element_re (tag : string) : regex :=
  seq [lit_i (js "<" ++ js tag); Star (not_chr 62); chr 62; LazyStar any;
       lit_i (js "</" ++ js tag ++ js ">")].

Definition comment_re : regex := seq [lit (js "<!--"); LazyStar any; lit (js "-->")].
Definition tag_re : regex := seq [chr 60; plus (not_chr 62); chr 62].

(** [extractTextFromHtml]. *)
Definition extractTextFromHtml (html : jsstring) : jsstring :=
  let text := replace_all (element_re "script") [] html in
  let text := replace_all (element_re "style") [] text in
  let text := replace_all (element_re "nav") [] text in
  let text := replace_all (element_re "footer") [] text in
  let text := replace_all (element_re "header") [] text in
  let text := replace_all (element_re "aside") [] text in
  let text := replace_all comment_re [] text in
  let text := replace_all tag_re [SP] text in
  let text := replace_all (lit (js "&nbsp;")) [SP] text in
  let text := replace_all (lit (js "&amp;")) (js "&") text in
  let text := replace_all (lit (js "&lt;")) (js "<") text in
  let text := replace_all (lit (js "&gt;")) (js ">") text in
  let text := replace_all (lit (js "&quot;")) [34%N] text in
  let text := replace_all (lit (js "&#39;")) (js "'") text in
  trim (collapse_ws text).

(** [/<title[^>]*>([^<]+)<\/title>/i]. *)
Definition title_re : regex :=
  seq [lit_i (js "<title"); Star (not_chr 62); chr 62;
       Group (plus (not_chr 60)); lit_i (js "</title>")].

Definition extractTitle (html : jsstring) : jsstring :=
  match match_group title_re html with
  | Some t => trim t
  | None => js "Untitled"
  end.

Definition upper_letter : regex := Chr (fun x => ((65 <=? x) && (x <=? 90))%N).
Definition upper_or_digit : regex :=
  Chr (fun x => ((65 <=? x) && (x <=? 90) || (48 <=? x) && (x <=? 57))%N).

(** [/\b[A-Z]{2,}\d{4,}\b|\b\d{5,}-[A-Z\d]+\b/]. *)
Definition part_number_re : regex :=
  Alt (seq [WordB; at_least 2 upper_letter; at_least 4 digit; WordB])
      (seq [WordB; at_least 5 digit; chr 45; plus upper_or_digit; WordB]).

(** [/\b\d+\s*(ft-lb|nm|lb-ft|newton|torque)\b/i]. *)
Definition torque_re : regex :=
  seq [WordB; plus digit; Star space;
       Group (Alt (lit_i (js "ft-lb")) (Alt (lit_i (js "nm"))
              (Alt (lit_i (js "lb-ft")) (Alt (lit_i (js "newton"))
              (lit_i (js "torque"))))));
       WordB].

(** [/<img\s/i]. *)
Definition img_re : regex := Seq (lit_i (js "<img")) space.

(** [hashString]: a 32-bit rolling hash of the code units, printed in
    base 36 without its sign. *)
Definition hash_step (hash : Z) (char : N) : Z :=
  to_int32 (to_int32 (Z.shiftl hash 5) - hash + Z.of_N char).

Definition hashString (str : jsstring) : jsstring :=
  int_toString 36 (Z.abs (foldl hash_step 0 str)).

(** The state of the loop of [chunkDocument]. *)
Record chunker := {
  chunks : list DocumentChunk;
  currentChunk : jsstring;
  next_index : Z
}.

Definition new_chunk (doc : CrawledDocument) (text : jsstring) (index : Z)
  : DocumentChunk := {|
  id := hashString (cd_url doc) ++ js "-" ++ int_to_js index;
  documentUrl := cd_url doc;
  content := trim text;
  chunkIndex := index;
  embedding := None;
  metadata := {| cm_title := cd_title doc;
                 cm_source := dm_source (cd_metadata doc);
                 cm_section := None |}
|}.

Definition chunkSize : Z := 1000.
Definition overlap : Z := 200.

(** One paragraph of the [for] loop. *)
Definition chunk_step (doc : CrawledDocument) (st : chunker) (para : jsstring)
  : chunker :=
  if (chunkSize <? jslen (currentChunk st) + jslen para)
     && (0 <? jslen (currentChunk st))
  then
    let words := split_ws (currentChunk st) in
    let overlapWords := slice_from words (- (overlap / 5)) in
    {| chunks := chunks st ++ [new_chunk doc (currentChunk st) (next_index st)];
       currentChunk := join [SP] overlapWords ++ [LF; LF] ++ para;
       next_index := next_index st + 1 |}
  else
    {| chunks := chunks st;
       currentChunk :=
         currentChunk st ++
         (match currentChunk st with [] => [] | _ => [LF; LF] end) ++ para;
       next_index := next_index st |}.

(** [chunkDocument]. *)
Definition chunkDocument (doc : CrawledDocument) : list DocumentChunk :=
  let paragraphs := split_paragraphs (cd_content doc) in
  let st := foldl (chunk_step doc)
              {| chunks := []; currentChunk := []; next_index := 0 |}
              paragraphs in
  if 50 <? jslen (trim (currentChunk st))
  then chunks st ++ [new_chunk doc (currentChunk st) (next_index st)]
  else chunks st.

(** [cosineSimilarity]: [0] for vectors of different lengths, for empty
    vectors and when the denominator is [0]. *)
Definition cosineSimilarity {T} `{Arith T} (a b : list T) : T :=
  if negb (bool_decide (length a = length b)) || bool_decide (length a = 0%nat)
  then n_zero
  else
    let '(dotProduct, normA, normB) := dot_and_norms a b in
    let denominator := n_mul (n_sqrt normA) (n_sqrt normB) in
    if n_is_zero denominator then n_zero else n_div dotProduct denominator.

(** An entry of the array [queryDocuments] returns. *)
Record QueryResult := {
  qr_content : jsstring;
  qr_source : jsstring;
  qr_score : float
}.

Record Scored := {
  sc_chunk : DocumentChunk;
  sc_score : float
}.

(** [(a, b) => b.score - a.score] is negative. *)
Definition by_score_desc (a b : Scored) : bool :=
  (sc_score b - sc_score a <? 0)%float.

(** The part of [queryDocuments] after the query has been embedded. *)
Definition rank_chunks (queryEmbedding : list float)
    (chunks : list DocumentChunk) (topK : Z) : list QueryResult :=
  let scored :=
    (fun chunk =>
       {| sc_chunk := chunk;
          sc_score := cosineSimilarity queryEmbedding
                        (default [] (embedding chunk)) |})
    <$> chunks in
  (fun s => {| qr_content := content (sc_chunk s);
               qr_source := documentUrl (sc_chunk s);
               qr_score := sc_score s |})
  <$> slice (sort_by by_score_desc scored) 0 topK.

End Crawler.

(* ===================================================================== *)
(** ** The outside world *)
(* ===================================================================== *)

(** Types of the request handled by [route.ts]. *)
Record MediaCapture := {
  media_type : jsstring;
  media_data : jsstring;
  mimeType : jsstring
}.

Record EquipmentInfo := {
  eq_type : jsstring;
  eq_category : option jsstring;
  eq_make : option jsstring;
  eq_model : option jsstring;
  eq_year : option jsstring;
  additionalInfo : option jsstring
}.

Record UserPreferences := {
  skillLevel : jsstring;
  hasBasicTools : bool;
  budgetRange : option jsstring;
  preferOEM : bool
}.

Record Location := {
  zipCode : option jsstring;
  city : option jsstring;
  state : option jsstring
}.

Record RequestBody := {
  media : list MediaCapture;
  description : option jsstring;
  equipment : EquipmentInfo;
  preferences : option UserPreferences;
  location : option Location
}.

(** The diagnosis the model answers with, under the response schema of
    [performDiagnosis] (all six fields are required there). *)
Record Diagnosis := {
  primaryDiagnosis : jsstring;
  confidence : float;
  severity : jsstring;
  symptoms : list jsstring;
  possibleCauses : list jsstring;
  requiresExpertReview : bool
}.

Record PartSource := {
  storeName : jsstring;
  storeType : jsstring;
  price : option float;
  website : option jsstring
}.

(** A required part as the guide generator answers it. *)
Record RawPart := {
  rp_name : jsstring;
  rp_partNumber : option jsstring;
  rp_description : jsstring;
  estimatedPriceLow : option float;
  estimatedPriceHigh : option float;
  rp_priority : jsstring
}.

Record Part := {
  part_name : jsstring;
  partNumber : option jsstring;
  part_description : jsstring;
  estimatedPrice : float * float;
  whereToFind : list PartSource;
  priority : jsstring
}.

(** The parsed answer of the guide generator: the fields the route only
    passes on are kept as the text they came in. *)
Record ParsedGuide := {
  guide_json : jsstring;
  pg_requiredParts : option (list RawPart)
}.

Record Reference := {
  ref_title : jsstring;
  ref_source : jsstring;
  ref_url : option jsstring
}.

Record Guide := {
  guide_fields : jsstring;
  requiredParts : list Part;
  guide_diagnosis : option Diagnosis;
  confidenceScore : option float;
  disclaimers : list jsstring;
  references : list Reference
}.

Inductive TaskType := RETRIEVAL_DOCUMENT | RETRIEVAL_QUERY.

(** One embedding request, as [generateEmbeddings] and
    [generateQueryEmbedding] build it. *)
Record EmbedRequest := {
  er_model : jsstring;
  er_text : jsstring;
  taskType : TaskType;
  outputDimensionality : Z
}.

(** A [generateContent] request, by the function that sends it and the
    values it interpolates into its prompt (the fixed wording of the
    prompts is left out). *)
Inductive GenerateRequest :=
| SearchUrls (query : jsstring)
| CleanContent (title truncatedText : jsstring)
| CustomRAGAnswer (model context query : jsstring)
| Diagnose (m : list MediaCapture) (d : option jsstring) (e : EquipmentInfo)
    (p : option UserPreferences)
| TechnicalDocs (searchQuery : jsstring)
| RepairGuide (d : Diagnosis) (technicalContext : jsstring) (e : EquipmentInfo)
    (p : UserPreferences)
| PartSources (query : jsstring).

Record GroundingChunk := {
  web_uri : option jsstring;
  web_title : option jsstring
}.

Record GroundingSupport := {
  groundingChunkIndices : list Z;
  confidenceScores : option (list float)
}.

(** What the code reads of the first candidate of a [generateContent]
    answer. *)
Record Candidate := {
  text : option jsstring;
  groundingChunks : list GroundingChunk;
  groundingSupports : list GroundingSupport
}.

(** Result of a [fetch] of a JSON endpoint: the promise rejects (or the body
    is not JSON), or there is a response. *)
Inductive Fetched (B : Type) :=
| Rejected (timeout : bool)
| Response (ok : bool) (status : Z) (content_type : option jsstring) (body : B).
Arguments Rejected {B} timeout.
Arguments Response {B} ok status content_type body.

(** The services the program calls, over an abstract world [W]. *)
Record Services (W : Type) := {
  batchEmbedContents :
    jsstring -> list EmbedRequest -> W -> Fetched (option (list (list float))) * W;
  embedContent :
    jsstring -> EmbedRequest -> W -> Fetched (option (list float)) * W;
  generateContent : GenerateRequest -> W -> Fetched Candidate * W;
  fetch_page : jsstring -> W -> Fetched jsstring * W;
  Date_now : W -> Z * W;
  toISOString : Z -> jsstring;
  toLowerCase : jsstring -> jsstring;
  (** [new URL(uri).hostname], [None] when the constructor throws. *)
  hostname : jsstring -> option jsstring;
  (** [JSON.parse] of the three structured answers, [None] when it throws. *)
  parse_diagnosis : jsstring -> option Diagnosis;
  parse_guide : jsstring -> option ParsedGuide;
  parse_sources : jsstring -> option (option (list PartSource))
}.
Arguments batchEmbedContents {W}.
Arguments embedContent {W}.
Arguments generateContent {W}.
Arguments fetch_page {W}.
Arguments Date_now {W}.
Arguments toISOString {W}.
Arguments toLowerCase {W}.
Arguments hostname {W}.
Arguments parse_diagnosis {W}.
Arguments parse_guide {W}.
Arguments parse_sources {W}.

(** What the program did to the outside, in order; [Ingest] marks an entry
    into [ingestForEquipment]. *)
Inductive Call :=
| CBatchEmbed (model : jsstring) (requests : list EmbedRequest)
| CEmbed (model : jsstring) (request : EmbedRequest)
| CGenerate (request : GenerateRequest)
| CFetch (url : jsstring)
| Ingest (query : Crawler.EquipmentQuery).

(** The state the program runs in: the world, the two maps of the shared
    [DocumentCrawlerService] instance, and the calls made so far. *)
Record State (W : Type) := {
  world : W;
  documentStore : gmap jsstring (list Crawler.DocumentChunk);
  crawlCache : gmap jsstring Crawler.CrawledDocument;
  calls : list Call
}.
Arguments world {W}.
Arguments documentStore {W}.
Arguments crawlCache {W}.
Arguments calls {W}.

Section Monad.
Context {W : Type}.

(** A computation: it returns or throws, and leaves a state. *)
Definition M (A : Type) : Type := State W -> outcome A * State W.

#[export] Instance M_ret : MRet M := fun A a st => (Ok a, st).
#[export] Instance M_bind : MBind M := fun A B f c st =>
  match c st with
  | (Ok a, st') => f a st'
  | (Throw e, st') => (Throw e, st')
  end.

Definition throw {A} (message : jsstring) : M A := fun st => (Throw message, st).

(** [try { c } catch (e) { h e }]. *)
Definition try_catch {A} (c : M A) (h : jsstring -> M A) : M A := fun st =>
  match c st with
  | (Ok a, st') => (Ok a, st')
  | (Throw e, st') => h e st'
  end.

(** A call of a service, recorded. *)
Definition call {A} (c : Call) (f : W -> A * W) : M A := fun st =>
  let '(a, w) := f (world st) in
  (Ok a, {| world := w; documentStore := documentStore st;
            crawlCache := crawlCache st; calls := calls st ++ [c] |}).

(** Reading the clock is not recorded. *)
Definition clock (f : W -> Z * W) : M Z := fun st =>
  let '(t, w) := f (world st) in
  (Ok t, {| world := w; documentStore := documentStore st;
            crawlCache := crawlCache st; calls := calls st |}).

Definition get_store : M (gmap jsstring (list Crawler.DocumentChunk)) :=
  fun st => (Ok (documentStore st), st).
Definition get_cache : M (gmap jsstring Crawler.CrawledDocument) :=
  fun st => (Ok (crawlCache st), st).

(** [this.documentStore.set(k, v)]. *)
Definition store_set (k : jsstring) (v : list Crawler.DocumentChunk) : M unit :=
  fun st => (Ok tt, {| world := world st;
                       documentStore := <[k := v]> (documentStore st);
                       crawlCache := crawlCache st; calls := calls st |}).

(** [this.crawlCache.set(k, v)]. *)
Definition cache_set (k : jsstring) (v : Crawler.CrawledDocument) : M unit :=
  fun st => (Ok tt, {| world := world st;
                       documentStore := documentStore st;
                       crawlCache := <[k := v]> (crawlCache st);
                       calls := calls st |}).

(** [for (const x of l) { f x }], threading an accumulator. *)
Fixpoint for_each {A B} (f : B -> A -> M B) (l : list A) (acc : B) : M B :=
  match l with
  | [] => mret acc
  | x :: l' => acc' ← f acc x; for_each f l' acc'
  end.

End Monad.
Arguments M : clear implicits.

(* ===================================================================== *)
(** ** The services: [RAGService] and [DocumentCrawlerService] *)
(* ===================================================================== *)

(** Consecutive slices of [n] elements: [l.slice(i, i + n)] for
    [i = 0, n, 2n, ...] below the length. *)
Fixpoint batches_of {A} (fuel n : nat) (l : list A) : list (list A) :=
  match fuel, l with
  | S fuel', _ :: _ => take n l :: batches_of fuel' n (drop n l)
  | _, _ => []
  end.

Section Program.
Context {W : Type} (svc : Services W).
Import Crawler.

Definition mark (c : Call) : M W unit := fun st =>
  (Ok tt, {| world := world st; documentStore := documentStore st;
             crawlCache := crawlCache st; calls := calls st ++ [c] |}).

(** *** [rag-service.ts], the calls to the embedding service *)

Definition embed_request (cfg : RAG.RAGConfig) (t : TaskType) (txt : jsstring)
  : EmbedRequest := {|
  er_model := js "models/" ++ RAG.embeddingModel cfg;
  er_text := txt;
  taskType := t;
  outputDimensionality := RAG.embeddingDimensions cfg
|}.

(** [RAGService.generateEmbeddings]. *)
Definition generateEmbeddings (cfg : RAG.RAGConfig) (texts : list jsstring)
  : M W (list (list float)) :=
  let requests := embed_request cfg RETRIEVAL_DOCUMENT <$> texts in
  r ← call (CBatchEmbed (RAG.embeddingModel cfg) requests)
           (batchEmbedContents svc (RAG.embeddingModel cfg) requests);
  match r with
  | Rejected _ => throw (js "fetch failed")
  | Response ok status _ body =>
      if negb ok then
        throw (js "Failed to generate embeddings: " ++ int_to_js status)
      else
        match body with
        | None => throw (js "Unexpected embedding response format")
        | Some embeddings => mret embeddings
        end
  end.

(** [RAGService.generateQueryEmbedding]. *)
Definition generateQueryEmbedding (cfg : RAG.RAGConfig) (query : jsstring)
  : M W (list float) :=
  let request := embed_request cfg RETRIEVAL_QUERY query in
  r ← call (CEmbed (RAG.embeddingModel cfg) request)
           (embedContent svc (RAG.embeddingModel cfg) request);
  match r with
  | Rejected _ => throw (js "fetch failed")
  | Response ok _ _ body =>
      if negb ok then throw (js "Failed to generate query embedding")
      else
        match body with
        | None => throw (js "Cannot read properties of undefined")
        | Some values => mret values
        end
  end.

(** [RAGService.queryWithCustomRAG]: answer and sources. *)
Definition queryWithCustomRAG (cfg : RAG.RAGConfig) (query : jsstring)
    (chunks : list RAG.ChunkedDocument) (model : option jsstring)
  : M W (jsstring * list RAG.SearchResult) :=
  queryEmbedding ← generateQueryEmbedding cfg query;
  match RAG.searchChunks cfg queryEmbedding chunks with
  | Throw msg => throw msg
  | Ok [] => mret (js "No relevant information found in the documents.", [])
  | Ok results =>
      let context :=
        join [LF; LF]
          (imap (fun i r => js "[Source " ++ int_to_js (Z.of_nat i + 1)
                            ++ js "]" ++ [LF]
                            ++ RAG.content (RAG.document r)) results) in
      let request :=
        CustomRAGAnswer
          (if truthy model then or_empty model else js "gemini-2.5-flash")
          context query in
      r ← call (CGenerate request) (generateContent svc request);
      match r with
      | Rejected _ => throw (js "fetch failed")
      | Response ok _ _ candidate =>
          if negb ok then throw (js "Query failed")
          else mret (or_empty (text candidate), results)
      end
  end.

(** *** The document crawler service *)

(** The [ragService] of the crawler is built with the default
    configuration. *)
Definition crawler_config : RAG.RAGConfig := RAG.DEFAULT_CONFIG.

(** The first loop of [searchForUrls]: one target per grounding chunk with
    a well-formed URI. *)
Definition targets_of_chunks (l : list GroundingChunk) : list CrawlTarget :=
  foldl (fun targets chunk =>
           if truthy (web_uri chunk) then
             match hostname svc (or_empty (web_uri chunk)) with
             | Some host =>
                 targets ++ [{| ct_url := or_empty (web_uri chunk);
                                ct_title := or_empty (web_title chunk);
                                ct_snippet := [];
                                ct_source := host;
                                relevanceScore := 0.5 |}]
             | None => targets
             end
           else targets)
        [] l.

Definition raise_score (s : float) (t : CrawlTarget) : CrawlTarget :=
  {| ct_url := ct_url t; ct_title := ct_title t; ct_snippet := ct_snippet t;
     ct_source := ct_source t;
     relevanceScore := Math_max (relevanceScore t) s |}.

(** The second loop: confidence scores of the grounding supports. *)
Definition apply_support (targets : list CrawlTarget) (support : GroundingSupport)
  : list CrawlTarget :=
  match confidenceScores support with
  | None => targets
  | Some scores =>
      foldl (fun targets '(i, idx) =>
               if 0 <=? idx then
                 alter (raise_score
                          (num_or (default nan (scores !! i)) 0.5))
                       (Z.to_nat idx) targets
               else targets)
            targets
            (imap (fun i idx => (i, idx)) (groundingChunkIndices support))
  end.

(** [searchForUrls]. *)
Definition searchForUrls (query : jsstring) : M W (list CrawlTarget) :=
  r ← call (CGenerate (SearchUrls query)) (generateContent svc (SearchUrls query));
  match r with
  | Rejected _ => mret []
  | Response ok _ _ candidate =>
      if negb ok then mret []
      else
        mret (foldl apply_support
                    (targets_of_chunks (groundingChunks candidate))
                    (groundingSupports candidate))
  end.

Definition with_score (t : CrawlTarget) (s : float) : CrawlTarget :=
  {| ct_url := ct_url t; ct_title := ct_title t; ct_snippet := ct_snippet t;
     ct_source := ct_source t; relevanceScore := s |}.

(** The targets of [findRelevantUrls] before sorting: first occurrence of
    each URL, with the score adjusted by source. *)
Definition collect_targets (equipmentType : jsstring)
    (results : list (list CrawlTarget)) : list CrawlTarget :=
  snd (foldl (fun '(seenUrls, allTargets) target =>
                if bool_decide (ct_url target ∈ (seenUrls : gset jsstring))
                then (seenUrls, allTargets)
                else ({[ ct_url target ]} ∪ seenUrls,
                      allTargets ++
                      [with_score target
                         (adjustScoreBySource target equipmentType)]))
             (∅, []) (concat results)).

Definition by_relevance_desc (a b : CrawlTarget) : bool :=
  (relevanceScore b - relevanceScore a <? 0)%float.

(** [findRelevantUrls]. The queries are sent three at a time; the results
    are read in the order of the queries. *)
Definition findRelevantUrls (queries : list jsstring) (equipmentType : jsstring)
  : M W (list CrawlTarget) :=
  results ← for_each (fun acc q => ts ← searchForUrls q; mret (acc ++ [ts]))
                     queries [];
  mret (slice (sort_by by_relevance_desc (collect_targets equipmentType results))
              0 15).

(** [cleanContentWithGemini]. *)
Definition cleanContentWithGemini (rawText title : jsstring)
  : M W (option jsstring) :=
  let truncatedText := slice rawText 0 30000 in
  r ← call (CGenerate (CleanContent title truncatedText))
           (generateContent svc (CleanContent title truncatedText));
  match r with
  | Rejected _ => mret None
  | Response ok _ _ candidate =>
      if negb ok then mret None
      else
        let content := or_empty (text candidate) in
        if includes content (js "NOT_RELEVANT") then mret None
        else mret (Some content)
  end.

(** [crawlUrl]. *)
Definition crawlUrl (target : CrawlTarget) : M W (option CrawledDocument) :=
  cache ← get_cache;
  match cache !! ct_url target with
  | Some doc => mret (Some doc)
  | None =>
      r ← call (CFetch (ct_url target)) (fetch_page svc (ct_url target));
      match r with
      | Rejected _ => mret None
      | Response ok _ content_type html =>
          if negb ok then mret None
          else if negb (includes (or_empty content_type) (js "text/html"))
                  && negb (includes (or_empty content_type) (js "text/plain"))
          then mret None
          else if jslen html <? 500 then mret None
          else
            let rawText := extractTextFromHtml html in
            if jslen rawText <? 200 then mret None
            else
              cleanedContent ← cleanContentWithGemini rawText (ct_title target);
              let content :=
                if truthy cleanedContent then or_empty cleanedContent
                else slice rawText 0 15000 in
              now ← clock (Date_now svc);
              let doc := {|
                cd_url := ct_url target;
                cd_title := match ct_title target with
                            | [] => extractTitle html
                            | t => t
                            end;
                cd_content := content;
                contentType := classifyContent (ct_source target) content;
                extractedAt := toISOString svc now;
                cd_metadata := {|
                  dm_source := ct_source target;
                  wordCount := jslen (split_ws content);
                  hasImages := Regex.test img_re html;
                  hasPartNumbers := Regex.test part_number_re content;
                  hasTorqueSpecs := Regex.test torque_re content |}
              |} in
              _ ← cache_set (ct_url target) doc;
              mret (Some doc)
      end
  end.

Definition with_embedding (c : DocumentChunk) (e : option (list float))
  : DocumentChunk :=
  {| id := id c; documentUrl := documentUrl c; content := content c;
     chunkIndex := chunkIndex c; embedding := e; metadata := metadata c |}.

(** [embedAndStore]. *)
Definition embedAndStore (chunks : list DocumentChunk) (storeId : jsstring)
  : M W unit :=
  embeddedChunks ←
    for_each (fun embeddedChunks batch =>
                embeddings ← generateEmbeddings crawler_config
                               (content <$> batch);
                mret (embeddedChunks ++
                      imap (fun j c => with_embedding c (embeddings !! j)) batch))
             (batches_of (length chunks) 10 chunks) [];
  store_set storeId embeddedChunks.

(** [queryDocuments]. *)
Definition queryDocuments (storeId query : jsstring) (topK : Z)
  : M W (list QueryResult) :=
  store ← get_store;
  match store !! storeId with
  | None | Some [] => mret []
  | Some chunks =>
      embeddings ← generateEmbeddings crawler_config [query];
      match embeddings with
      | [] => throw (js "Cannot read properties of undefined")
      | queryEmbedding :: _ => mret (rank_chunks queryEmbedding chunks topK)
      end
  end.

(** [getContextForDiagnosis]. *)
Definition getContextForDiagnosis (storeId diagnosis : jsstring) : M W jsstring :=
  results ← queryDocuments storeId diagnosis 10;
  match results with
  | [] => mret []
  | _ =>
      let contextParts :=
        imap (fun i r => js "[Source " ++ int_to_js (Z.of_nat i + 1) ++ js ": "
                         ++ qr_source r ++ js "]" ++ [LF] ++ qr_content r)
             results in
      mret (js "TECHNICAL DOCUMENTATION:" ++ [LF; LF]
            ++ join ([LF; LF] ++ js "---" ++ [LF; LF]) contextParts)
  end.

(** [hasDocuments]. *)
Definition hasDocuments (storeId : jsstring) : M W bool :=
  store ← get_store;
  mret (match store !! storeId with
        | Some (_ :: _) => true
        | _ => false
        end).

(** [generateStoreId]. *)
Definition generateStoreId (query : EquipmentQuery) : M W jsstring :=
  let parts :=
    dash_ws_from false
      (toLowerCase svc
         (join (js "-")
            (filter (fun x => x <> [])
               [type query; or_empty (make query); or_empty (model query);
                or_empty (year query)]))) in
  now ← clock (Date_now svc);
  mret (js "equipment-" ++ parts ++ js "-" ++ int_to_js now).

Definition failed (errors : list jsstring) (processingTime : Z)
  : IngestionResult :=
  {| success := false; documentsFound := 0; documentsCrawled := 0;
     chunksCreated := 0; storeId := None; errors := errors;
     processingTime := processingTime |}.

(** The body of [ingestForEquipment]. The pages are fetched concurrently
    in the source; here one after the other. *)
Definition ingest_steps (query : EquipmentQuery) : M W IngestionResult :=
  startTime ← clock (Date_now svc);
  try_catch
    (let searchQueries := generateSearchQueries query in
     targets ← findRelevantUrls searchQueries (type query);
     match targets with
     | [] =>
         now ← clock (Date_now svc);
         mret (failed [js "No relevant documents found"] (now - startTime))
     | _ =>
         '(crawledDocs, errors) ←
           for_each (fun '(crawledDocs, errors) target =>
                       try_catch
                         (doc ← crawlUrl target;
                          mret (match doc with
                                | Some d => (crawledDocs ++ [d], errors)
                                | None => (crawledDocs, errors)
                                end))
                         (fun err =>
                            mret (crawledDocs,
                                  errors ++ [js "Failed to crawl "
                                             ++ ct_url target ++ js ": " ++ err])))
                    (slice targets 0 10) ([], []);
         let allChunks := concat (chunkDocument <$> crawledDocs) in
         storeId ← generateStoreId query;
         _ ← embedAndStore allChunks storeId;
         now ← clock (Date_now svc);
         mret {| success := true;
                 documentsFound := jslen targets;
                 documentsCrawled := jslen crawledDocs;
                 chunksCreated := jslen allChunks;
                 storeId := Some storeId;
                 errors := errors;
                 processingTime := now - startTime |}
     end)
    (fun message =>
       now ← clock (Date_now svc);
       mret (failed [message] (now - startTime))).

(** [ingestForEquipment], with its entry recorded. *)
Definition ingestForEquipment (query : EquipmentQuery) : M W IngestionResult :=
  _ ← mark (Ingest query);
  ingest_steps query.

End Program.

(* ===================================================================== *)
(** ** [app/api/gemini/listen-and-fix/route.ts] *)
(* ===================================================================== *)

Module Route.
Section Route.
Context {W : Type} (svc : Services W).
Import Crawler.

Inductive HttpResponse :=
| Json500 (error : jsstring)
| Json200 (guide : Guide) (documentsIngested chunksCreated processingTime : Z).

(** [performDiagnosis]. *)
Definition performDiagnosis (body : RequestBody) : M W Diagnosis :=
  let request := Diagnose (media body) (description body) (equipment body)
                          (preferences body) in
  r ← call (CGenerate request) (generateContent svc request);
  match r with
  | Rejected _ => throw (js "fetch failed")
  | Response ok _ _ candidate =>
      if negb ok then throw (js "Diagnosis failed")
      else if truthy (text candidate) then
        match parse_diagnosis svc (or_empty (text candidate)) with
        | Some d => mret d
        | None => throw (js "Unexpected token in JSON")
        end
      else throw (js "No diagnosis result")
  end.

(** [searchTechnicalDocs]. *)
Definition searchTechnicalDocs (e : EquipmentInfo) (d : Diagnosis) : M W jsstring :=
  let searchQuery :=
    join [SP]
      (filter (fun x => x <> [])
         [or_empty (eq_make e); or_empty (eq_model e); or_empty (eq_year e);
          primaryDiagnosis d; js "repair guide"; js "how to fix"]) in
  r ← call (CGenerate (TechnicalDocs searchQuery))
           (generateContent svc (TechnicalDocs searchQuery));
  match r with
  | Rejected _ => throw (js "fetch failed")
  | Response ok _ _ candidate =>
      if negb ok then mret [] else mret (or_empty (text candidate))
  end.

Definition default_preferences : UserPreferences :=
  {| skillLevel := js "intermediate"; hasBasicTools := true;
     budgetRange := None; preferOEM := false |}.

Definition part_of_raw (p : RawPart) : Part :=
  {| part_name := rp_name p;
     partNumber := rp_partNumber p;
     part_description := rp_description p;
     estimatedPrice := (num_or (default nan (estimatedPriceLow p)) 0,
                        num_or (default nan (estimatedPriceHigh p)) 0);
     whereToFind := [];
     priority := rp_priority p |}.

(** [generateRepairGuide]: the parsed guide with its parts transformed. *)
Definition generateRepairGuide (d : Diagnosis) (technicalContext : jsstring)
    (e : EquipmentInfo) (p : UserPreferences) : M W (jsstring * list Part) :=
  let request := RepairGuide d technicalContext e p in
  r ← call (CGenerate request) (generateContent svc request);
  match r with
  | Rejected _ => throw (js "fetch failed")
  | Response ok _ _ candidate =>
      if negb ok then throw (js "Guide generation failed")
      else if truthy (text candidate) then
        match parse_guide svc (or_empty (text candidate)) with
        | Some g =>
            match pg_requiredParts g with
            | Some parts => mret (guide_json g, part_of_raw <$> parts)
            | None => throw (js "Cannot read properties of undefined")
            end
        | None => throw (js "Unexpected token in JSON")
        end
      else throw (js "No guide generated")
  end.

Definition source (name type : string) (site : string) : PartSource :=
  {| storeName := js name; storeType := js type; price := None;
     website := Some (js site) |}.

(** [getDefaultSources]. *)
Definition getDefaultSources (equipmentType : jsstring) : list PartSource :=
  let other := [source "Amazon" "online" "https://www.amazon.com";
                source "Home Depot" "local" "https://www.homedepot.com"] in
  let hardware := [source "Home Depot" "local" "https://www.homedepot.com";
                   source "Lowe's" "local" "https://www.lowes.com"] in
  default other
    (table_get
       [(js "vehicle",
         [source "AutoZone" "local" "https://www.autozone.com";
          source "O'Reilly Auto Parts" "local" "https://www.oreillyauto.com";
          source "RockAuto" "online" "https://www.rockauto.com"]);
        (js "appliance",
         [source "RepairClinic" "online" "https://www.repairclinic.com";
          source "PartSelect" "online" "https://www.partselect.com"]);
        (js "hvac",
         [source "Grainger" "online" "https://www.grainger.com";
          source "SupplyHouse" "online" "https://www.supplyhouse.com"]);
        (js "plumbing", hardware);
        (js "electrical", hardware);
        (js "other", other)]
       equipmentType).

(** [searchPartSources]. *)
Definition searchPartSources (part : Part) (e : EquipmentInfo)
    (location : jsstring) : M W (list PartSource) :=
  let query :=
    js "buy " ++ part_name part ++ [SP] ++ or_empty (partNumber part) ++ [SP]
    ++ or_empty (eq_make e) ++ [SP] ++ or_empty (eq_model e)
    ++ js " near " ++ location in
  r ← call (CGenerate (PartSources query))
           (generateContent svc (PartSources query));
  match r with
  | Rejected _ => throw (js "fetch failed")
  | Response ok _ _ candidate =>
      if negb ok then mret (getDefaultSources (eq_type e))
      else
        match text candidate with
        | Some (c :: t) =>
            match parse_sources svc (c :: t) with
            | Some (Some sources) => mret sources
            | _ => mret (getDefaultSources (eq_type e))
            end
        | _ => mret []
        end
  end.

Definition with_sources (p : Part) (l : list PartSource) : Part :=
  {| part_name := part_name p; partNumber := partNumber p;
     part_description := part_description p;
     estimatedPrice := estimatedPrice p; whereToFind := l;
     priority := priority p |}.

(** [findParts]. *)
Definition findParts (parts : list Part) (e : EquipmentInfo)
    (location : option Location) : M W (list Part) :=
  match parts with
  | [] => mret []
  | _ =>
      let locationStr :=
        match location with
        | Some l =>
            if truthy (zipCode l) then or_empty (zipCode l)
            else if truthy (city l) then or_empty (city l)
            else js "United States"
        | None => js "United States"
        end in
      updatedParts ←
        for_each (fun acc part =>
                    sources ← try_catch (searchPartSources part e locationStr)
                                (fun _ => mret (getDefaultSources (eq_type e)));
                    mret (acc ++ [with_sources part sources]))
                 (slice parts 0 5) [];
      mret (updatedParts ++
            ((fun part => with_sources part (getDefaultSources (eq_type e)))
             <$> slice_from parts 5))
  end.

(** [getDisclaimers]. *)
Definition getDisclaimers (equipmentType : jsstring) : list jsstring :=
  [js "This guide is for informational purposes only.";
   js "Always prioritize safety. If unsure, consult a professional.";
   js "Disconnect power/fuel sources before beginning any repair.";
   js "Use appropriate personal protective equipment (PPE).";
   js "AI-generated content may contain errors. Verify critical information."]
  ++ default []
       (table_get
          [(js "vehicle",
            [js "Working on vehicles can be dangerous. Always use jack stands.";
             js "Some repairs may void your warranty.";
             js "Automotive fluids are hazardous. Dispose of properly."]);
           (js "appliance",
            [js "Always unplug appliances before servicing.";
             js "Gas appliances should only be serviced by qualified technicians."]);
           (js "hvac",
            [js "HVAC systems involve high voltage and refrigerants.";
             js "Refrigerant handling requires EPA certification."]);
           (js "electrical",
            [js "Electrical work is dangerous and may require permits.";
             js "Always turn off circuit breakers before working."]);
           (js "plumbing",
            [js "Know your main water shutoff location.";
             js "Gas line work requires licensed professionals."])]
          equipmentType).

(** The query of the first ingestion pass. *)
Definition crawlQuery (body : RequestBody) : EquipmentQuery :=
  {| type := eq_type (equipment body);
     make := eq_make (equipment body);
     model := eq_model (equipment body);
     year := eq_year (equipment body);
     symptom := (fun d => slice d 0 100) <$> description body;
     diagnosis := None |}.

(** The query of the targeted pass:
    [{...crawlQuery, diagnosis: ..., symptom: ...}]. *)
Definition targetedQuery (body : RequestBody) (d : Diagnosis) : EquipmentQuery :=
  {| type := type (crawlQuery body);
     make := make (crawlQuery body);
     model := model (crawlQuery body);
     year := year (crawlQuery body);
     symptom := Some (join (js ", ") (symptoms d));
     diagnosis := Some (primaryDiagnosis d) |}.

(** Steps 1 to 3b of [POST]: first ingestion and diagnosis, then the
    targeted ingestion when the first one was thin.  The result is the
    diagnosis, the first [crawlResult] and the final [storeId].  (The
    source starts the first ingestion, awaits the diagnosis, then awaits
    the ingestion.) *)
Definition ingest_and_diagnose (body : RequestBody)
  : M W (Diagnosis * IngestionResult * option jsstring) :=
  crawlResult ← ingestForEquipment svc (crawlQuery body);
  d ← performDiagnosis body;
  if (chunksCreated crawlResult <? 5)
     && negb (bool_decide (primaryDiagnosis d = []))
  then
    targetedCrawl ← ingestForEquipment svc (targetedQuery body d);
    mret (d, crawlResult,
          if chunksCreated crawlResult <? chunksCreated targetedCrawl
          then storeId targetedCrawl else storeId crawlResult)
  else mret (d, crawlResult, storeId crawlResult).

(** Steps 4 and 4b: retrieval from the current store, supplemented by a
    web search when it yields less than 500 characters. *)
Definition technical_context (body : RequestBody) (d : Diagnosis)
    (storeId : option jsstring) : M W jsstring :=
  has ← (if truthy storeId then hasDocuments (or_empty storeId) else mret false);
  technicalContext ←
    (if has : bool then
       getContextForDiagnosis svc (or_empty storeId)
         (primaryDiagnosis d ++ [SP] ++ join [SP] (symptoms d)
          ++ js " repair guide")
     else mret []);
  if jslen technicalContext <? 500 then
    searchContext ← searchTechnicalDocs (equipment body) d;
    match technicalContext with
    | [] => mret searchContext
    | _ => mret (technicalContext ++ [LF; LF] ++ js "---" ++ [LF; LF]
                 ++ js "ADDITIONAL WEB SEARCH RESULTS:" ++ [LF] ++ searchContext)
    end
  else mret technicalContext.

(** Steps 4 to 6 of [POST] and its answer. *)
Definition respond (body : RequestBody) (d : Diagnosis)
    (crawlResult : IngestionResult) (storeId : option jsstring)
  : M W HttpResponse :=
  technicalContext ← technical_context body d storeId;
  '(fields, parts) ←
    generateRepairGuide d technicalContext (equipment body)
      (default default_preferences (preferences body));
  partsWithSources ← findParts parts (equipment body) (location body);
  mret (Json200
          {| guide_fields := fields;
             requiredParts := partsWithSources;
             guide_diagnosis := Some d;
             confidenceScore := Some (confidence d);
             disclaimers := getDisclaimers (eq_type (equipment body));
             references :=
               if 0 <? documentsCrawled crawlResult then
                 [{| ref_title := js "Technical Documentation";
                     ref_source := int_to_js (documentsCrawled crawlResult)
                                   ++ js " documents ingested";
                     ref_url := None |}]
               else [] |}
          (documentsCrawled crawlResult) (chunksCreated crawlResult)
          (processingTime crawlResult)).

(** [POST], with [GEMINI_API_KEY] read from the environment. *)
Definition POST (GEMINI_API_KEY : option jsstring) (body : RequestBody)
  : M W HttpResponse :=
  if negb (truthy GEMINI_API_KEY) then
    mret (Json500 (js "GEMINI_API_KEY not configured"))
  else
    try_catch
      ('(d, crawlResult, storeId) ← ingest_and_diagnose body;
       respond body d crawlResult storeId)
      (fun message => mret (Json500 message)).

End Route.
End Route.

(* ===================================================================== *)
(** ** Vocabulary of the statements and sample data *)
(* ===================================================================== *)

Section Vocabulary.
Import Crawler.

(** What the claim compares of two chunks: id, ordinal and text. *)
Definition chunk_key (c : DocumentChunk) : jsstring * Z * jsstring :=
  (id c, chunkIndex c, content c).

(** The chunk at position [i] carries the ordinal [i], the id built from
    the hash of the document URL and [i], and the document URL. *)
Definition well_numbered (doc : CrawledDocument) (l : list DocumentChunk) : Prop :=
  forall (i : nat) (c : DocumentChunk),
    l !! i = Some c ->
    id c = hashString (cd_url doc) ++ js "-" ++ int_to_js (Z.of_nat i) /\
    chunkIndex c = Z.of_nat i /\
    documentUrl c = cd_url doc.

(** Two runs of the loop on documents with the same URL, started from
    states that agree on keys, buffer and counter. *)
Definition agree (st1 st2 : chunker) : Prop :=
  chunk_key <$> chunks st1 = chunk_key <$> chunks st2 /\
  currentChunk st1 = currentChunk st2 /\
  next_index st1 = next_index st2.


(** The dot product the loop accumulates. *)
Definition dot {T} `{Arith T} (a b : list T) : T :=
  foldl (fun acc '(x, y) => n_add acc (n_mul x y)) n_zero (zip a b).


(** Every call is a batch of document-mode embedding requests. *)
Definition document_mode (c : Call) : Prop :=
  match c with
  | CBatchEmbed _ requests => Forall (fun r => taskType r = RETRIEVAL_DOCUMENT) requests
  | _ => False
  end.

(** [c] takes every state to an [R]-related one, whether it returns or
    throws. *)
Definition keeps {W} (R : State W -> State W -> Prop) {A} (c : M W A) : Prop :=
  forall st, R st (c st).2.


(** The crawl cache is what it was. *)
Definition same_cache {W} (st st' : State W) : Prop :=
  crawlCache st' = crawlCache st.

Definition not_ingest (c : Call) : Prop := forall q, c <> Ingest q.

(** Calls were added, none of them an entry into [ingestForEquipment]. *)
Definition quiet {W} (st st' : State W) : Prop :=
  exists tr, calls st' = calls st ++ tr /\ Forall not_ingest tr.

(** The queries of the ingestion runs a trace records, in order. *)
Fixpoint ingestions (tr : list Call) : list EquipmentQuery :=
  match tr with
  | [] => []
  | Ingest q :: tr' => q :: ingestions tr'
  | _ :: tr' => ingestions tr'
  end.


End Vocabulary.

Definition one_letter_doc : RAG.Document :=
  {| RAG.doc_id := js "d"; RAG.doc_content := js "a"; RAG.doc_metadata := ∅ |}.

(** A service that embeds every text as the unit vector [(1, 0)] and
    answers nothing else. *)
Definition unit_vector_service : Services unit := {|
  batchEmbedContents _ requests w :=
    (Response true 200 None (Some ((fun _ => [1; 0]%float) <$> requests)), w);
  embedContent _ _ w := (Response true 200 None (Some [1; 0]%float), w);
  generateContent _ w := (Rejected false, w);
  fetch_page _ w := (Rejected false, w);
  Date_now w := (0, w);
  toISOString _ := [];
  toLowerCase s := s;
  hostname _ := None;
  parse_diagnosis _ := None;
  parse_guide _ := None;
  parse_sources _ := None
|}.

Definition sample_chunk (name : string) (e : option (list float))
  : Crawler.DocumentChunk := {|
  Crawler.id := js name;
  Crawler.documentUrl := js "https://example.com/a";
  Crawler.content := js name;
  Crawler.chunkIndex := 0;
  Crawler.embedding := e;
  Crawler.metadata := {| Crawler.cm_title := []; Crawler.cm_source := [];
                         Crawler.cm_section := None |}
|}.

(** A state whose store [s] holds one chunk, embedded as [(0, 1)]. *)
Definition one_chunk_state : State unit := {|
  world := tt;
  documentStore := {[ js "s" := [sample_chunk "old" (Some [0; 1]%float)] ]};
  crawlCache := ∅;
  calls := []
|}.

Definition honda_query : Crawler.EquipmentQuery := {|
  Crawler.type := js "vehicle";
  Crawler.make := Some (js "Honda");
  Crawler.model := Some (js "Accord");
  Crawler.year := Some (js "2019");
  Crawler.symptom := Some (js "clicking noise when turning right");
  Crawler.diagnosis := None
|}.


Definition two_paragraphs (title : string) : Crawler.CrawledDocument := {|
  Crawler.cd_url := js "https://example.com/a";
  Crawler.cd_title := js title;
  Crawler.cd_content := replicate 600 97%N ++ [LF; LF] ++ replicate 600 98%N;
  Crawler.contentType := Crawler.article;
  Crawler.extractedAt := js title;
  Crawler.cd_metadata := {| Crawler.dm_source := js "example.com";
                            Crawler.wordCount := 2;
                            Crawler.hasImages := false;
                            Crawler.hasPartNumbers := false;
                            Crawler.hasTorqueSpecs := false |}
|}.


(** A service whose pages are all the same short page, served with status
    200 as HTML. *)
Definition short_page_service : Services unit := {|
  batchEmbedContents _ requests w :=
    (Response true 200 None (Some ((fun _ => [1; 0]%float) <$> requests)), w);
  embedContent _ _ w := (Response true 200 None (Some [1; 0]%float), w);
  generateContent _ w := (Rejected false, w);
  fetch_page _ w :=
    (Response true 200 (Some (js "text/html; charset=utf-8"))
       (js "<html><body><p>Not much here.</p></body></html>"), w);
  Date_now w := (0, w);
  toISOString _ := [];
  toLowerCase s := s;
  hostname _ := None;
  parse_diagnosis _ := None;
  parse_guide _ := None;
  parse_sources _ := None
|}.

Definition example_target : Crawler.CrawlTarget := {|
  Crawler.ct_url := js "https://example.com/a";
  Crawler.ct_title := js "A";
  Crawler.ct_snippet := [];
  Crawler.ct_source := js "example.com";
  Crawler.relevanceScore := 0.5
|}.

Definition empty_state : State unit :=
  {| world := tt; documentStore := ∅; crawlCache := ∅; calls := [] |}.

(** A page long enough to be kept. *)
Definition long_page : jsstring :=
  js "<html><head><title>CV joint replacement</title><style>p { color: red }</style></head><body><nav>Home</nav>"
  ++ concat (replicate 12
       (js "<p>Remove the axle nut and torque it to 181 ft-lb when refitting the CV joint.</p>"))
  ++ js "</body></html>".

(** A service whose search finds one page of a trusted source, which is
    served in full; distillation is unavailable. *)
Definition library_service : Services unit := {|
  batchEmbedContents _ requests w :=
    (Response true 200 None (Some ((fun _ => [1; 0]%float) <$> requests)), w);
  embedContent _ _ w := (Response true 200 None (Some [1; 0]%float), w);
  generateContent request w :=
    match request with
    | SearchUrls _ =>
        (Response true 200 None
           {| text := None;
              groundingChunks :=
                [{| web_uri := Some (js "https://www.ifixit.com/Guide/cv");
                    web_title := Some (js "CV joint") |}];
              groundingSupports :=
                [{| groundingChunkIndices := [0];
                    confidenceScores := Some [0.9%float] |}] |}, w)
    | _ => (Rejected false, w)
    end;
  fetch_page _ w := (Response true 200 (Some (js "text/html")) long_page, w);
  Date_now w := (1700000000000, w);
  toISOString _ := js "2023-11-14T22:13:20.000Z";
  toLowerCase s := s;
  hostname _ := Some (js "www.ifixit.com");
  parse_diagnosis _ := None;
  parse_guide _ := None;
  parse_sources _ := None
|}.

Definition cv_joint : Diagnosis := {|
  primaryDiagnosis := js "worn CV joint";
  confidence := 0.8;
  severity := js "medium";
  symptoms := [js "clicking"; js "vibration"];
  possibleCauses := [js "torn boot"];
  requiresExpertReview := false
|}.

(** A service that diagnoses a worn CV joint, summarises a web search, and
    finds no page to crawl. *)
Definition diagnosing_service : Services unit := {|
  batchEmbedContents _ requests w :=
    (Response true 200 None (Some ((fun _ => [1; 0]%float) <$> requests)), w);
  embedContent _ _ w := (Response true 200 None (Some [1; 0]%float), w);
  generateContent request w :=
    match request with
    | Diagnose _ _ _ _ =>
        (Response true 200 None
           {| text := Some (js "{...}"); groundingChunks := [];
              groundingSupports := [] |}, w)
    | TechnicalDocs _ =>
        (Response true 200 None
           {| text := Some (js "Replace the outer CV joint."); groundingChunks := [];
              groundingSupports := [] |}, w)
    | _ => (Rejected false, w)
    end;
  fetch_page _ w := (Rejected false, w);
  Date_now w := (0, w);
  toISOString _ := [];
  toLowerCase s := s;
  hostname _ := None;
  parse_diagnosis _ := Some cv_joint;
  parse_guide _ := None;
  parse_sources _ := None
|}.

Definition honda_request : RequestBody := {|
  media := [];
  description := Some (js "clicking noise when turning right");
  equipment := {| eq_type := js "vehicle"; eq_category := None;
                  eq_make := Some (js "Honda"); eq_model := Some (js "Accord");
                  eq_year := Some (js "2019"); additionalInfo := None |};
  preferences := None;
  location := None
|}.

(* ===================================================================== *)
(** ** [rag-service.ts]: construction of the service, [processDocuments] *)
(* ===================================================================== *)

(** A [RAGConfig] as a caller passes it: a field is there or left out. *)
Record ConfigOverrides := {
  o_chunkSize : option Z;
  o_chunkOverlap : option Z;
  o_embeddingModel : option jsstring;
  o_embeddingDimensions : option Z;
  o_topK : option Z;
  o_minScore : option float
}.

(** [{ ...DEFAULT_CONFIG, ...config }]. *)
Definition spread_config (config : ConfigOverrides) : RAG.RAGConfig := {|
  RAG.chunkSize := default (RAG.chunkSize RAG.DEFAULT_CONFIG) (o_chunkSize config);
  RAG.chunkOverlap :=
    default (RAG.chunkOverlap RAG.DEFAULT_CONFIG) (o_chunkOverlap config);
  RAG.embeddingModel :=
    default (RAG.embeddingModel RAG.DEFAULT_CONFIG) (o_embeddingModel config);
  RAG.embeddingDimensions :=
    default (RAG.embeddingDimensions RAG.DEFAULT_CONFIG)
            (o_embeddingDimensions config);
  RAG.topK := default (RAG.topK RAG.DEFAULT_CONFIG) (o_topK config);
  RAG.minScore := default (RAG.minScore RAG.DEFAULT_CONFIG) (o_minScore config)
|}.

(** The fields of a [RAGService] that differ between instances. *)
Record RAGService := {
  rs_apiKey : jsstring;
  rs_config : RAG.RAGConfig
}.

(** [new RAGService(apiKey, config)]; [config] defaults to [{}]. *)
Definition new_RAGService (apiKey : jsstring) (config : option ConfigOverrides)
  : RAGService :=
  {| rs_apiKey := apiKey;
     rs_config :=
       match config with
       | Some c => spread_config c
       | None => RAG.DEFAULT_CONFIG
       end |}.

(** [getRAGService]: [env] is [process.env.GEMINI_API_KEY] and
    [ragServiceInstance] the module variable of that name, whose new value
    is returned beside the result. *)
Definition getRAGService (env apiKey : option jsstring)
    (config : option ConfigOverrides) (ragServiceInstance : option RAGService)
  : outcome RAGService * option RAGService :=
  let key := if truthy apiKey then apiKey else env in
  if negb (truthy key) then (Throw (js "GEMINI_API_KEY required"), ragServiceInstance)
  else
    match ragServiceInstance with
    | None =>
        let created := new_RAGService (or_empty key) config in
        (Ok created, Some created)
    | Some instance => (Ok instance, Some instance)
    end.

Section ProcessDocuments.
Context {W : Type} (svc : Services W).

Definition with_vector (c : RAG.ChunkedDocument) (e : option (list float))
  : RAG.ChunkedDocument :=
  {| RAG.id := RAG.id c; RAG.documentId := RAG.documentId c;
     RAG.content := RAG.content c; RAG.embedding := e;
     RAG.metadata := RAG.metadata c |}.

(** The inner loop of [processDocuments]: the chunks of one document are
    embedded a hundred at a time. *)
Definition embed_chunks (cfg : RAG.RAGConfig) (chunks : list RAG.ChunkedDocument)
  : M W (list RAG.ChunkedDocument) :=
  for_each (fun embedded batch =>
              embeddings ← generateEmbeddings svc cfg (RAG.content <$> batch);
              mret (embedded ++
                    imap (fun idx chunk => with_vector chunk (embeddings !! idx))
                         batch))
           (batches_of (length chunks) 100 chunks) [].

(** [RAGService.processDocuments]; [None] when [chunkDocument] is still
    running after [fuel] iterations on some document. *)
Definition processDocuments (fuel : nat) (cfg : RAG.RAGConfig)
    (documents : list RAG.Document) : M W (option (list RAG.ChunkedDocument)) :=
  for_each (fun allChunks doc =>
              match allChunks with
              | None => mret None
              | Some allChunks =>
                  match RAG.chunkDocument fuel cfg doc with
                  | None => mret None
                  | Some chunks =>
                      embedded ← embed_chunks cfg chunks;
                      mret (Some (allChunks ++ embedded))
                  end
              end)
           documents (Some []).

End ProcessDocuments.

(* ===================================================================== *)
(** ** Vocabulary of the further statements, more sample data *)
(* ===================================================================== *)

(** Every white-space unit of [s] is a space followed by a unit that is not
    white space. *)
Fixpoint single_spaced (s : jsstring) : bool :=
  match s with
  | [] => true
  | c :: s' =>
      (if is_ws c then
         (c =? SP)%N && match s' with d :: _ => negb (is_ws d) | [] => false end
       else true)
      && single_spaced s'
  end.

(** Words separated by single spaces: no white space in front or at the
    end, no white space but the space, no two spaces in a row. *)
Definition tidy (s : jsstring) : bool :=
  match s with c :: _ => negb (is_ws c) | [] => true end && single_spaced s.

(** White space occurs as single spaces only (perhaps at the ends). *)
Definition loose (s : jsstring) : Prop :=
  forall i c, s !! i = Some c -> is_ws c = true ->
              c = SP /\ forall d, s !! S i = Some d -> is_ws d = false.

(** The first unit, if any, is not white space. *)
Definition head_clear (s : jsstring) : Prop :=
  forall c, s !! 0%nat = Some c -> is_ws c = false.

(** No two line feeds in a row. *)
Fixpoint blank_free (s : jsstring) : bool :=
  match s with
  | c :: s' =>
      match s' with
      | d :: _ => negb ((c =? LF)%N && (d =? LF)%N) && blank_free s'
      | [] => true
      end
  | [] => true
  end.

(** The value of a digit as [toString] prints it. *)
Definition digit_value (c : N) : Z :=
  if (c <? 58)%N then Z.of_N c - 48 else Z.of_N c - 87.

(** Reading a number back from its digits. *)
Definition parse_digits (radix : Z) (s : jsstring) : Z :=
  foldl (fun v c => v * radix + digit_value c) 0 s.

(** A decimal digit; a digit or a lower-case letter. *)
Definition is_decimal (c : N) : bool := ((48 <=? c) && (c <=? 57))%N.
Definition is_base36 (c : N) : bool :=
  ((48 <=? c) && (c <=? 57) || (97 <=? c) && (c <=? 122))%N.

(** The unit test a pattern must pass first, when it has one. *)
Fixpoint leading_unit (r : Regex.regex) : option (N -> bool) :=
  match r with
  | Regex.Chr p => Some p
  | Regex.Seq r1 _ => leading_unit r1
  | _ => None
  end.



(** The request [generateEmbeddings] sends for a batch of texts. *)
Definition batch_call (cfg : RAG.RAGConfig) (texts : list jsstring) : Call :=
  CBatchEmbed (RAG.embeddingModel cfg)
    (embed_request cfg RETRIEVAL_DOCUMENT <$> texts).


(** The calls a crawl that misses the cache adds: the fetch of the page,
    then at most one distillation request carrying at most 30000 code
    units of it. *)
Definition crawl_trace (target : Crawler.CrawlTarget) (tr : list Call) : Prop :=
  tr = [CFetch (Crawler.ct_url target)] \/
  exists text, jslen text <= 30000 /\
    tr = [CFetch (Crawler.ct_url target);
          CGenerate (CleanContent (Crawler.ct_title target) text)].



(** What an [IngestionResult] says about itself and about the store. *)
Definition ingest_shape {W} (st st' : State W) (r : Crawler.IngestionResult)
  : Prop :=
  if Crawler.success r then
    Crawler.errors r = [] /\
    1 <= Crawler.documentsFound r <= 15 /\
    0 <= Crawler.documentsCrawled r <= Z.min 10 (Crawler.documentsFound r) /\
    exists sid l,
      Crawler.storeId r = Some sid /\
      starts_with (js "equipment-") sid = true /\
      documentStore st' = <[sid := l]> (documentStore st) /\
      jslen l = Crawler.chunksCreated r
  else
    Crawler.storeId r = None /\
    Crawler.documentsFound r = 0 /\ Crawler.documentsCrawled r = 0 /\
    Crawler.chunksCreated r = 0 /\
    length (Crawler.errors r) = 1%nat /\
    documentStore st' = documentStore st.

(** A request of [searchPartSources]. *)
Definition is_part_search (c : Call) : Prop :=
  exists query, c = CGenerate (PartSources query).

(** What identifies a candidate: URL, title and source. *)
Definition identity (t : Crawler.CrawlTarget) : jsstring * jsstring * jsstring :=
  (Crawler.ct_url t, Crawler.ct_title t, Crawler.ct_source t).

(** The candidate a grounding chunk gives: none without a URI or when the
    URI is not a well-formed URL. *)
Definition candidate_of_chunk {W} (svc : Services W) (chunk : GroundingChunk)
  : option (jsstring * jsstring * jsstring) :=
  if truthy (web_uri chunk) then
    match hostname svc (or_empty (web_uri chunk)) with
    | Some host => Some (or_empty (web_uri chunk), or_empty (web_title chunk), host)
    | None => None
    end
  else None.

(** The equipment types a request may name ([EquipmentInfo] of
    [route.ts]). *)
Definition declared_types : list jsstring :=
  [js "vehicle"; js "appliance"; js "hvac"; js "plumbing"; js "electrical";
   js "other"].

(** A page of one paragraph of [n] letters at [url]. *)
Definition one_paragraph (url : string) (n : nat) : Crawler.CrawledDocument := {|
  Crawler.cd_url := js url;
  Crawler.cd_title := js "One paragraph";
  Crawler.cd_content := replicate n 97%N;
  Crawler.contentType := Crawler.article;
  Crawler.extractedAt := [];
  Crawler.cd_metadata := {| Crawler.dm_source := js "example.com";
                            Crawler.wordCount := 1;
                            Crawler.hasImages := false;
                            Crawler.hasPartNumbers := false;
                            Crawler.hasTorqueSpecs := false |}
|}.


Definition embedded_chunk (name : string) (e : list float) : RAG.ChunkedDocument :=
  {| RAG.id := js name; RAG.documentId := js "d"; RAG.content := js name;
     RAG.embedding := Some e; RAG.metadata := ∅ |}.

(** A world that is its own clock: every reading advances it by one
    millisecond.  Nothing else answers. *)
Definition ticking_service : Services Z := {|
  batchEmbedContents _ _ w := (Rejected false, w);
  embedContent _ _ w := (Rejected false, w);
  generateContent _ w := (Rejected false, w);
  fetch_page _ w := (Rejected false, w);
  Date_now w := (w, w + 1);
  toISOString _ := [];
  toLowerCase s := s;
  hostname _ := None;
  parse_diagnosis _ := None;
  parse_guide _ := None;
  parse_sources _ := None
|}.

Definition state_at (t : Z) : State Z :=
  {| world := t; documentStore := ∅; crawlCache := ∅; calls := [] |}.

Definition cv_joint_kit : RawPart := {|
  rp_name := js "Outer CV joint";
  rp_partNumber := None;
  rp_description := js "Replacement joint with boot kit";
  estimatedPriceLow := Some 40%float;
  estimatedPriceHigh := Some 90%float;
  rp_priority := js "required"
|}.

(** A service that diagnoses, summarises a web search and writes a guide
    with one part; it finds no page to crawl and no part source. *)
Definition complete_service : Services unit := {|
  batchEmbedContents _ requests w :=
    (Response true 200 None (Some ((fun _ => [1; 0]%float) <$> requests)), w);
  embedContent _ _ w := (Response true 200 None (Some [1; 0]%float), w);
  generateContent request w :=
    match request with
    | Diagnose _ _ _ _ =>
        (Response true 200 None
           {| text := Some (js "{...}"); groundingChunks := [];
              groundingSupports := [] |}, w)
    | TechnicalDocs _ =>
        (Response true 200 None
           {| text := Some (js "Replace the outer CV joint."); groundingChunks := [];
              groundingSupports := [] |}, w)
    | RepairGuide _ _ _ _ =>
        (Response true 200 None
           {| text := Some (js "{guide}"); groundingChunks := [];
              groundingSupports := [] |}, w)
    | _ => (Rejected false, w)
    end;
  fetch_page _ w := (Rejected false, w);
  Date_now w := (0, w);
  toISOString _ := [];
  toLowerCase s := s;
  hostname _ := None;
  parse_diagnosis _ := Some cv_joint;
  parse_guide _ := Some {| guide_json := js "{guide}";
                           pg_requiredParts := Some [cv_joint_kit] |};
  parse_sources _ := None
|}.

(* ===================================================================== *)
(** ** Properties *)
(* ===================================================================== *)

Section StringFacts.

Lemma lastIndexOf_upto_le (pat s : jsstring) (k : nat) :
  lastIndexOf_upto pat s k <= Z.of_nat k.
Proof.
  induction k as [|k IH]; simpl.
  - destruct (starts_with pat (drop 0 s)); lia.
  - destruct (starts_with pat (drop (S k) s)); lia.
Qed.

Lemma starts_with_length (pat s : jsstring) :
  starts_with pat s = true -> (length pat <= length s)%nat.
Proof.
  revert s; induction pat as [|p pat IH]; intros [|c s]; simpl; try lia;
    try discriminate.
  intros [_ H]%andb_prop. apply IH in H. lia.
Qed.

(** An occurrence found by [lastIndexOf] lies inside the string. *)
Lemma lastIndexOf_upto_fits (pat s : jsstring) (k : nat) :
  (k <= length s)%nat ->
  lastIndexOf_upto pat s k + jslen pat <= jslen s \/
  lastIndexOf_upto pat s k = -1.
Proof.
  unfold jslen.
  induction k as [|k IH]; simpl; intros Hk.
  - destruct (starts_with pat (drop 0 s)) eqn:E; [left|right; reflexivity].
    apply starts_with_length in E. rewrite length_drop in E. lia.
  - destruct (starts_with pat (drop (S k) s)) eqn:E; [left|apply IH; lia].
    apply starts_with_length in E. rewrite length_drop in E. lia.
Qed.

Lemma lastIndexOf_le (s pat : jsstring) (pos : Z) :
  0 <= pos -> lastIndexOf s pat pos <= pos.
Proof.
  intros Hpos. unfold lastIndexOf.
  etransitivity; [apply lastIndexOf_upto_le|]. lia.
Qed.

Lemma lastIndexOf_fits (s pat : jsstring) (pos : Z) :
  lastIndexOf s pat pos + jslen pat <= jslen s \/ lastIndexOf s pat pos = -1.
Proof.
  unfold lastIndexOf. apply lastIndexOf_upto_fits. unfold jslen. lia.
Qed.

End StringFacts.

Section RAGChunker.
Import RAG.

(** The break point never lies past the end of the text. *)
Lemma chunk_end_le_length (cfg : RAGConfig) (text : jsstring) (start : Z) :
  text <> [] -> chunk_end cfg text start <= jslen text.
Proof.
  intros Hne. unfold chunk_end.
  assert (Hlen : 1 <= jslen text) by (destruct text; [done|unfold jslen; simpl; lia]).
  set (e := Z.min (start + chunkSize cfg) (jslen text)).
  destruct (e <? jslen text) eqn:He; [|lia].
  apply Z.ltb_lt in He.
  destruct (2 * lastIndexOf text (js ".") e >? _).
  - destruct (lastIndexOf_fits text (js ".") e) as [H|H];
      [change (jslen (js ".")) with 1 in H; lia | lia].
  - destruct (2 * lastIndexOf text [LF; LF] e >? _); [|lia].
    destruct (lastIndexOf_fits text [LF; LF] e) as [H|H];
      [change (jslen [LF; LF]) with 2 in H; lia | lia].
Qed.

(** Once [start] is below the length of a non-empty text it stays there:
    the next [start] is [end - chunkOverlap], and [end] never exceeds the
    length. *)
Lemma chunk_loop_diverges (cfg : RAGConfig) (document : Document) :
  doc_content document <> [] -> 0 < chunkOverlap cfg ->
  forall (fuel : nat) (start chunkIndex : Z) (chunks : list ChunkedDocument),
    start < jslen (doc_content document) ->
    chunk_loop fuel cfg document start chunkIndex chunks = None.
Proof.
  intros Hne Hov fuel.
  induction fuel as [|fuel IH]; intros start chunkIndex chunks Hlt; simpl.
  - reflexivity.
  - destruct (start <? _) eqn:E; [|apply Z.ltb_ge in E; lia].
    apply IH.
    pose proof (chunk_end_le_length cfg (doc_content document) start Hne).
    lia.
Qed.

(** C10 (violated by the code). [RAGService.chunkDocument] does not return
    for any document with non-empty content when the overlap is positive
    (the default is 200): when the last window reaches the end of the
    text, [start = end - overlap] is again below the length, so the loop
    condition never becomes false. No number of iterations suffices. *)
Theorem chunkDocument_never_returns
    (cfg : RAGConfig) (document : Document) (fuel : nat) :
  doc_content document <> [] -> 0 < chunkOverlap cfg ->
  chunkDocument fuel cfg document = None.
Proof.
  intros Hne Hov. unfold chunkDocument.
  apply chunk_loop_diverges; try assumption.
  destruct (doc_content document); [done|unfold jslen; simpl; lia].
Qed.

Lemma chunkDocument_never_returns_witness :
  doc_content one_letter_doc <> [] /\ 0 < chunkOverlap DEFAULT_CONFIG /\
  chunkDocument 1000 DEFAULT_CONFIG one_letter_doc = None.
Proof.
  assert (H1 : doc_content one_letter_doc <> []) by (simpl; discriminate).
  assert (H2 : 0 < chunkOverlap DEFAULT_CONFIG) by (simpl; lia).
  exact (conj H1 (conj H2
    (chunkDocument_never_returns DEFAULT_CONFIG one_letter_doc 1000 H1 H2))).
Defined.

(** On the one-letter document the first window ends at 1, the next start
    is -199, and from there the window ends at 1 again. *)
Example one_letter_loop :
  chunk_end DEFAULT_CONFIG (js "a") 0 = 1 /\
  chunk_end DEFAULT_CONFIG (js "a") (1 - chunkOverlap DEFAULT_CONFIG) = 1 /\
  1 - chunkOverlap DEFAULT_CONFIG < jslen (js "a").
Proof. repeat split; vm_compute; reflexivity. Qed.

(** The only document on which the loop exits is the empty one. *)
Lemma chunkDocument_empty (cfg : RAGConfig) (document : Document) (fuel : nat) :
  doc_content document = [] ->
  chunkDocument (S fuel) cfg document = Some [].
Proof. intros H. unfold chunkDocument. simpl. rewrite H. reflexivity. Qed.

End RAGChunker.

Section CrawlerChunker.
Import Crawler.

Lemma well_numbered_snoc (doc : CrawledDocument) (l : list DocumentChunk)
    (txt : jsstring) :
  well_numbered doc l ->
  well_numbered doc (l ++ [new_chunk doc txt (jslen l)]).
Proof.
  intros Hl i c Hi.
  apply lookup_app_Some in Hi as [Hi | [Hge Hi]].
  - exact (Hl i c Hi).
  - apply list_lookup_singleton_Some in Hi as [Hz <-].
    assert (i = length l) as -> by lia.
    repeat split.
Qed.

(** The loop keeps the chunks numbered and [chunkIndex] equal to their
    count. *)
Lemma chunk_step_numbered (doc : CrawledDocument) (st : chunker) (para : jsstring) :
  well_numbered doc (chunks st) /\ next_index st = jslen (chunks st) ->
  well_numbered doc (chunks (chunk_step doc st para)) /\
  next_index (chunk_step doc st para) = jslen (chunks (chunk_step doc st para)).
Proof.
  intros [Hn Hi]. unfold chunk_step.
  destruct (_ && _); simpl; [|split; assumption].
  rewrite Hi. split; [apply well_numbered_snoc, Hn|].
  unfold jslen. rewrite length_app. simpl. lia.
Qed.

Lemma chunk_loop_numbered (doc : CrawledDocument) (paragraphs : list jsstring)
    (st : chunker) :
  well_numbered doc (chunks st) /\ next_index st = jslen (chunks st) ->
  well_numbered doc (chunks (foldl (chunk_step doc) st paragraphs)) /\
  next_index (foldl (chunk_step doc) st paragraphs)
  = jslen (chunks (foldl (chunk_step doc) st paragraphs)).
Proof.
  revert st. induction paragraphs as [|para paragraphs IH]; intros st H; simpl.
  - exact H.
  - apply IH, chunk_step_numbered, H.
Qed.

Lemma chunkDocument_numbered (doc : CrawledDocument) :
  well_numbered doc (chunkDocument doc).
Proof.
  unfold chunkDocument.
  destruct (chunk_loop_numbered doc (split_paragraphs (cd_content doc))
              {| chunks := []; currentChunk := []; next_index := 0 |})
    as [Hn Hi].
  { split; [intros i c Hi; simpl in Hi; discriminate | reflexivity]. }
  destruct (50 <? _); [|exact Hn].
  rewrite Hi. apply well_numbered_snoc, Hn.
Qed.

Lemma chunk_step_agree (doc1 doc2 : CrawledDocument) (st1 st2 : chunker)
    (para : jsstring) :
  cd_url doc1 = cd_url doc2 -> agree st1 st2 ->
  agree (chunk_step doc1 st1 para) (chunk_step doc2 st2 para).
Proof.
  intros Hurl (Hk & Hc & Hi). unfold chunk_step. rewrite Hc.
  destruct (_ && _); unfold agree; simpl.
  - rewrite !fmap_app, Hk, Hi. simpl.
    unfold chunk_key, new_chunk; simpl. rewrite Hurl. repeat split.
  - repeat split; assumption.
Qed.

Lemma chunk_loop_agree (doc1 doc2 : CrawledDocument) (paragraphs : list jsstring)
    (st1 st2 : chunker) :
  cd_url doc1 = cd_url doc2 -> agree st1 st2 ->
  agree (foldl (chunk_step doc1) st1 paragraphs)
        (foldl (chunk_step doc2) st2 paragraphs).
Proof.
  intros Hurl. revert st1 st2.
  induction paragraphs as [|para paragraphs IH]; intros st1 st2 H; simpl.
  - exact H.
  - apply IH, chunk_step_agree; assumption.
Qed.

(** C5. Chunking is a function of the document's URL and content alone:
    two chunkings of documents that agree on these (in particular of the
    same document) yield the same ids, ordinals and texts, in the same
    order; and the chunk at position [i] has ordinal [i] and the id
    [hashString(url) + "-" + i]. *)
Theorem chunkDocument_deterministic (doc1 doc2 : CrawledDocument) :
  cd_url doc1 = cd_url doc2 ->
  cd_content doc1 = cd_content doc2 ->
  chunk_key <$> chunkDocument doc1 = chunk_key <$> chunkDocument doc2 /\
  forall (i : nat) (c : DocumentChunk),
    chunkDocument doc1 !! i = Some c ->
    id c = hashString (cd_url doc1) ++ js "-" ++ int_to_js (Z.of_nat i) /\
    chunkIndex c = Z.of_nat i /\
    documentUrl c = cd_url doc1.
Proof.
  intros Hurl Hcontent. split; [|apply chunkDocument_numbered].
  unfold chunkDocument. rewrite Hcontent.
  destruct (chunk_loop_agree doc1 doc2 (split_paragraphs (cd_content doc2))
              {| chunks := []; currentChunk := []; next_index := 0 |}
              {| chunks := []; currentChunk := []; next_index := 0 |} Hurl)
    as (Hk & Hc & Hi); [repeat split|].
  rewrite Hc. destruct (50 <? _); [|exact Hk].
  rewrite !fmap_app, Hk, Hi. simpl.
  unfold chunk_key, new_chunk; simpl. rewrite Hurl. reflexivity.
Qed.

End CrawlerChunker.

Section QuerySynthesizer.
Import Crawler.





Lemma starts_with_prefix (pat s : jsstring) :
  starts_with pat s = true <-> exists r, s = pat ++ r.
Proof.
  revert s. induction pat as [|p pat IH]; intros s; simpl.
  - split; [intros _; exists s; reflexivity | reflexivity].
  - destruct s as [|c s]; [split; [discriminate | intros [r Hr]; discriminate]|].
    rewrite andb_true_iff, N.eqb_eq, IH. split.
    + intros [-> [r ->]]. exists r. reflexivity.
    + intros [r Hr]. injection Hr as -> ->. split; [reflexivity | exists r; reflexivity].
Qed.












End QuerySynthesizer.

Section Cosine.

Lemma dot_and_norms_from {T} `{Arith T} (a b : list T) (d na nb : T) :
  length a = length b ->
  foldl (fun '(dotProduct, normA, normB) '(x, y) =>
           (n_add dotProduct (n_mul x y),
            n_add normA (n_mul x x),
            n_add normB (n_mul y y)))
        (d, na, nb) (zip a b)
  = (foldl (fun acc '(x, y) => n_add acc (n_mul x y)) d (zip a b),
     foldl (fun acc x => n_add acc (n_mul x x)) na a,
     foldl (fun acc x => n_add acc (n_mul x x)) nb b).
Proof.
  revert b d na nb. induction a as [|x a IH]; intros [|y b] d na nb Hlen;
    simpl in *; try discriminate; [reflexivity|].
  apply IH. congruence.
Qed.

(** The three accumulators are the dot product and the two sums of
    squares. *)
Lemma dot_and_norms_eq {T} `{Arith T} (a b : list T) :
  length a = length b -> dot_and_norms a b = (dot a b, norm2 a, norm2 b).
Proof. intros Hlen. apply dot_and_norms_from, Hlen. Qed.



(** *** Exact arithmetic *)




(** *** Binary64 *)

Lemma float_zero_cases (x : float) :
  (x =? 0)%float = true -> x = 0%float \/ x = (-0)%float.
Proof.
  rewrite FloatAxioms.eqb_spec. change (Prim2SF 0) with (S754_zero false).
  rewrite <- (SF2Prim_Prim2SF x) at 2 3.
  destruct (Prim2SF x) as [s|s| |s m e]; try destruct s; cbn; intros Hx;
    try discriminate; [right|left]; reflexivity.
Qed.

Lemma finite_spec (x : float) :
  is_finite x = true ->
  match Prim2SF x with
  | S754_zero _ | S754_finite _ _ _ => True
  | _ => False
  end.
Proof.
  unfold is_finite, is_nan, is_infinity.
  rewrite !FloatAxioms.eqb_spec, FloatAxioms.abs_spec.
  change (Prim2SF infinity) with (S754_infinity false).
  destruct (Prim2SF x) as [s|s| |s m e]; try destruct s; cbn; intros Hx;
    try discriminate; exact I.
Qed.

(** A finite number times a zero is a zero, on either side. *)
Lemma finite_mul_zero (x z : float) :
  is_finite x = true -> z = 0%float \/ z = (-0)%float ->
  (x * z =? 0)%float = true /\ (z * x =? 0)%float = true.
Proof.
  intros Hx%finite_spec Hz.
  rewrite !FloatAxioms.eqb_spec, !FloatAxioms.mul_spec.
  change (Prim2SF 0) with (S754_zero false).
  destruct Hz as [-> | ->];
    [change (Prim2SF 0) with (S754_zero false)
    |change (Prim2SF (-0)) with (S754_zero true)];
    destruct (Prim2SF x) as [s|s| |s m e]; try contradiction;
    split; reflexivity.
Qed.

Lemma sqrt_zero (z : float) :
  z = 0%float \/ z = (-0)%float ->
  PrimFloat.sqrt z = 0%float \/ PrimFloat.sqrt z = (-0)%float.
Proof. intros [-> | ->]; [left | right]; reflexivity. Qed.

(** [DocumentCrawlerService.cosineSimilarity] returns [0] on vectors of
    different lengths, on empty vectors, and when one vector has a zero sum
    of squares and the other a finite norm. *)
Lemma cosine_zero_guard (a b : list float) :
  length a <> length b \/ a = [] \/ b = [] \/
  ((norm2 b =? 0)%float = true /\ is_finite (PrimFloat.sqrt (norm2 a)) = true) \/
  ((norm2 a =? 0)%float = true /\ is_finite (PrimFloat.sqrt (norm2 b)) = true) ->
  Crawler.cosineSimilarity a b = 0%float.
Proof.
  intros Hcase. unfold Crawler.cosineSimilarity.
  case_bool_decide as Hlen; [|reflexivity].
  case_bool_decide as Hnil; [reflexivity|]. cbn [negb orb].
  destruct Hcase as [Hne | [-> | [-> | [[Hb Ha] | [Ha Hb]]]]];
    [contradiction | contradiction
    | destruct a; [contradiction | discriminate] | |].
  - rewrite dot_and_norms_eq by exact Hlen.
    replace (n_is_zero _) with true; [reflexivity|]. symmetry.
    exact (proj1 (finite_mul_zero _ _ Ha
                    (sqrt_zero _ (float_zero_cases _ Hb)))).
  - rewrite dot_and_norms_eq by exact Hlen.
    replace (n_is_zero _) with true; [reflexivity|]. symmetry.
    exact (proj2 (finite_mul_zero _ _ Hb
                    (sqrt_zero _ (float_zero_cases _ Ha)))).
Qed.


(** At extreme magnitudes binary64 leaves the tolerance: the squares
    underflow to zero or overflow to infinity. *)
Example cosine_self_extreme_magnitudes :
  Crawler.cosineSimilarity [1e-200]%float [1e-200]%float = 0%float /\
  is_nan (Crawler.cosineSimilarity [1e200]%float [1e200]%float) = true /\
  Crawler.cosineSimilarity [0.1; 0.7]%float [0.1; 0.7]%float
  = 1.0000000000000002%float.
Proof. repeat split; vm_compute; reflexivity. Qed.



End Cosine.

(* ===================================================================== *)
(** ** What a computation leaves alone *)
(* ===================================================================== *)

Section Keeps.
Context {W : Type} (R : State W -> State W -> Prop).
Hypothesis R_refl : forall st, R st st.
Hypothesis R_trans : forall st1 st2 st3, R st1 st2 -> R st2 st3 -> R st1 st3.

Lemma keeps_ret {A} (a : A) : keeps R (mret a).
Proof using R_refl. intros st. apply R_refl. Qed.

Lemma keeps_throw {A} (e : jsstring) : keeps R (throw (A := A) e).
Proof using R_refl. intros st. apply R_refl. Qed.

Lemma keeps_bind {A B} (c : M W A) (f : A -> M W B) :
  keeps R c -> (forall a, keeps R (f a)) -> keeps R (c ≫= f).
Proof using R_trans.
  intros Hc Hf st. unfold mbind, M_bind. specialize (Hc st).
  destruct (c st) as [[a|e] st1]; simpl in *; [|exact Hc].
  eapply R_trans; [exact Hc | apply Hf].
Qed.

Lemma keeps_try_catch {A} (c : M W A) (h : jsstring -> M W A) :
  keeps R c -> (forall e, keeps R (h e)) -> keeps R (try_catch c h).
Proof using R_trans.
  intros Hc Hh st. unfold try_catch. specialize (Hc st).
  destruct (c st) as [[a|e] st1]; simpl in *; [exact Hc|].
  eapply R_trans; [exact Hc | apply Hh].
Qed.

Lemma keeps_for_each {A B} (f : B -> A -> M W B) (l : list A) (acc : B) :
  (forall b a, keeps R (f b a)) -> keeps R (for_each f l acc).
Proof using R_refl R_trans.
  intros Hf. revert acc. induction l as [|x l IH]; intros acc; simpl.
  - apply keeps_ret.
  - apply keeps_bind; [apply Hf | intros b; apply IH].
Qed.

Lemma keeps_get_store : keeps R get_store.
Proof using R_refl. intros st. apply R_refl. Qed.

Lemma keeps_get_cache : keeps R get_cache.
Proof using R_refl. intros st. apply R_refl. Qed.

End Keeps.

(** Breaks a computation down to its service calls and state accesses. *)
Ltac keeps_step :=
  lazymatch goal with
  | |- keeps _ (mret _) => apply keeps_ret
  | |- keeps _ (throw _) => apply keeps_throw
  | |- keeps _ get_store => apply keeps_get_store
  | |- keeps _ get_cache => apply keeps_get_cache
  | |- keeps _ (mbind _ _) => apply keeps_bind; [| |intro]
  | |- keeps _ (try_catch _ _) => apply keeps_try_catch; [| |intro]
  | |- keeps _ (for_each _ _ _) => apply keeps_for_each; [| | intros ? ?]
  | |- keeps _ (match ?x with _ => _ end) => destruct x
  | |- keeps _ (let '(_, _) := ?x in _) => destruct x
  end.

Section Frames.
Context {W : Type} (svc : Services W) (R : State W -> State W -> Prop).
Hypothesis R_refl : forall st, R st st.
Hypothesis R_trans : forall st1 st2 st3, R st1 st2 -> R st2 st3 -> R st1 st3.
Hypothesis R_call : forall A (c : Call) (f : W -> A * W),
    (forall q, c <> Ingest q) -> keeps R (call c f).
Hypothesis R_clock : forall f, keeps R (clock f).

Ltac frame :=
  repeat first
    [ assumption
    | apply R_call; intros ?; discriminate
    | apply R_clock
    | keeps_step ].

Lemma keeps_generateEmbeddings cfg texts :
  keeps R (generateEmbeddings svc cfg texts).
Proof using All. unfold generateEmbeddings. frame. Qed.

Lemma keeps_generateQueryEmbedding cfg query :
  keeps R (generateQueryEmbedding svc cfg query).
Proof using All. unfold generateQueryEmbedding. frame. Qed.

Lemma keeps_searchForUrls query : keeps R (searchForUrls svc query).
Proof using All. unfold searchForUrls. frame. Qed.

Lemma keeps_findRelevantUrls queries equipmentType :
  keeps R (findRelevantUrls svc queries equipmentType).
Proof using All.
  unfold findRelevantUrls. frame. apply keeps_searchForUrls.
Qed.

Lemma keeps_cleanContentWithGemini rawText title :
  keeps R (cleanContentWithGemini svc rawText title).
Proof using All. unfold cleanContentWithGemini. frame. Qed.

Lemma keeps_generateStoreId query : keeps R (generateStoreId svc query).
Proof using All. unfold generateStoreId. frame. Qed.

Lemma keeps_queryDocuments storeId query topK :
  keeps R (queryDocuments svc storeId query topK).
Proof using All.
  unfold queryDocuments. frame; apply keeps_generateEmbeddings.
Qed.

Lemma keeps_getContextForDiagnosis storeId diagnosis :
  keeps R (getContextForDiagnosis svc storeId diagnosis).
Proof using All.
  unfold getContextForDiagnosis. frame. apply keeps_queryDocuments.
Qed.

Lemma keeps_hasDocuments storeId : keeps R (hasDocuments storeId).
Proof using All. unfold hasDocuments. frame. Qed.

Lemma keeps_performDiagnosis body : keeps R (Route.performDiagnosis svc body).
Proof using All. unfold Route.performDiagnosis. frame. Qed.

Lemma keeps_searchTechnicalDocs e d : keeps R (Route.searchTechnicalDocs svc e d).
Proof using All. unfold Route.searchTechnicalDocs. frame. Qed.

Lemma keeps_technical_context body d storeId :
  keeps R (Route.technical_context svc body d storeId).
Proof using All.
  unfold Route.technical_context. frame;
    first [apply keeps_hasDocuments | apply keeps_getContextForDiagnosis
          | apply keeps_searchTechnicalDocs].
Qed.

(** With the cache writes allowed as well: the crawler. *)
Lemma keeps_crawlUrl target :
  (forall k v, keeps R (cache_set k v)) -> keeps R (crawlUrl svc target).
Proof using All.
  intros R_cache. unfold crawlUrl. frame;
    first [apply keeps_cleanContentWithGemini | apply R_cache].
Qed.

(** With the store writes allowed as well: the indexer. *)
Lemma keeps_embedAndStore chunks storeId :
  (forall k v, keeps R (store_set k v)) -> keeps R (embedAndStore svc chunks storeId).
Proof using All.
  intros R_store. unfold embedAndStore. frame;
    first [apply keeps_generateEmbeddings | apply R_store].
Qed.

Lemma keeps_ingest_steps query :
  (forall k v, keeps R (cache_set k v)) ->
  (forall k v, keeps R (store_set k v)) ->
  keeps R (ingest_steps svc query).
Proof using All.
  intros R_cache R_store. unfold ingest_steps. frame;
    try (lazymatch goal with
         | |- context [let '(_, _) := ?b in _] => destruct b
         end; cbv beta iota; frame);
    first [ apply keeps_findRelevantUrls
          | apply keeps_crawlUrl; exact R_cache
          | apply keeps_generateStoreId
          | apply keeps_embedAndStore; exact R_store ].
Qed.

Lemma keeps_generateRepairGuide d technicalContext e p :
  keeps R (Route.generateRepairGuide svc d technicalContext e p).
Proof using All. unfold Route.generateRepairGuide. frame. Qed.

Lemma keeps_searchPartSources part e location :
  keeps R (Route.searchPartSources svc part e location).
Proof using All. unfold Route.searchPartSources. frame. Qed.

Lemma keeps_findParts parts e location :
  keeps R (Route.findParts svc parts e location).
Proof using All.
  unfold Route.findParts. frame. apply keeps_searchPartSources.
Qed.

Lemma keeps_respond body d crawlResult storeId :
  keeps R (Route.respond svc body d crawlResult storeId).
Proof using All.
  unfold Route.respond. frame;
    first [ apply keeps_technical_context | apply keeps_generateRepairGuide
          | apply keeps_findParts ].
Qed.

End Frames.

Section Relations.
Context {W : Type}.


Lemma same_cache_refl (st : State W) : same_cache st st.
Proof. reflexivity. Qed.
Lemma same_cache_trans (st1 st2 st3 : State W) :
  same_cache st1 st2 -> same_cache st2 st3 -> same_cache st1 st3.
Proof. unfold same_cache. congruence. Qed.
Lemma same_cache_call A c (f : W -> A * W) :
  (forall q, c <> Ingest q) -> keeps same_cache (call c f).
Proof. intros _ st. unfold call. destruct (f (world st)). reflexivity. Qed.
Lemma same_cache_clock (f : W -> Z * W) : keeps same_cache (clock f).
Proof. intros st. unfold clock. destruct (f (world st)). reflexivity. Qed.

Lemma quiet_refl (st : State W) : quiet st st.
Proof. exists []. rewrite app_nil_r. split; [reflexivity | constructor]. Qed.
Lemma quiet_trans (st1 st2 st3 : State W) :
  quiet st1 st2 -> quiet st2 st3 -> quiet st1 st3.
Proof.
  intros (tr1 & H1 & F1) (tr2 & H2 & F2). exists (tr1 ++ tr2).
  rewrite H2, H1, app_assoc. split; [reflexivity | apply Forall_app; split; assumption].
Qed.
Lemma quiet_call A c (f : W -> A * W) :
  (forall q, c <> Ingest q) -> keeps quiet (call c f).
Proof.
  intros Hc st. unfold call. destruct (f (world st)). exists [c].
  split; [reflexivity | repeat constructor; exact Hc].
Qed.
Lemma quiet_clock (f : W -> Z * W) : keeps quiet (clock f).
Proof.
  intros st. unfold clock. destruct (f (world st)). exists []. simpl.
  rewrite app_nil_r. split; [reflexivity | constructor].
Qed.
Lemma quiet_cache_set k v : keeps (W := W) quiet (cache_set k v).
Proof.
  intros st. exists []. simpl. rewrite app_nil_r. split; [reflexivity | constructor].
Qed.
Lemma quiet_store_set k v : keeps (W := W) quiet (store_set k v).
Proof.
  intros st. exists []. simpl. rewrite app_nil_r. split; [reflexivity | constructor].
Qed.

End Relations.

Section Indexer.
Context {W : Type} (svc : Services W).
Import Crawler.


Lemma concat_batches_of {A} (fuel n : nat) (l : list A) :
  (0 < n)%nat -> (length l <= fuel)%nat -> concat (batches_of fuel n l) = l.
Proof.
  intros Hn. revert l. induction fuel as [|fuel IH]; intros [|x l] Hlen;
    simpl in *; try reflexivity; [lia|].
  destruct n as [|n]; [lia|]. simpl. f_equal.
  rewrite IH by (rewrite length_drop; lia).
  apply take_drop.
Qed.



End Indexer.

Section Sorting.
Import Crawler.

(** A rounded number is negative only if the sign it was rounded with is. *)
Lemma binary_round_aux_negative (sx : bool) (mx ex : Z) (lx : SpecFloat.location) :
  SFltb (binary_round_aux prec emax sx mx ex lx) (S754_zero false) = true ->
  sx = true.
Proof.
  unfold binary_round_aux.
  destruct (shr_fexp prec emax mx ex lx) as [mrs' e'].
  destruct (shr_fexp prec emax _ e' loc_Exact) as [mrs'' e''].
  destruct (shr_m mrs'') as [|m|m]; [| destruct (_ <=? _) |];
    destruct sx; cbn; congruence.
Qed.

Lemma binary_normalize_negative (m e : Z) :
  SFltb (binary_normalize prec emax m e false) (S754_zero false) = true -> m < 0.
Proof.
  destruct m as [|p|p]; cbn [binary_normalize]; [discriminate| |lia].
  unfold binary_round. destruct (shl_align _ _ _) as [mz ez].
  intros H%binary_round_aux_negative. discriminate.
Qed.

(** Subtraction in specification floats: [x - y] and [y - x] are not both
    negative. *)
Lemma SFsub_asymmetric (x y : spec_float) :
  SFltb (SFsub prec emax x y) (S754_zero false) = true ->
  SFltb (SFsub prec emax y x) (S754_zero false) = false.
Proof.
  destruct x as [sx|sx| |sx mx ex], y as [sy|sy| |sy my ey];
    try (destruct sx); try (destruct sy); cbn; try congruence.
  all: rewrite (Z.min_comm ey ex).
  all: intros H%binary_normalize_negative.
  all: match goal with
       | |- SFltb (binary_normalize _ _ ?m ?e _) _ = false =>
           destruct (SFltb (binary_normalize prec emax m e false)
                       (S754_zero false)) eqn:E; [|reflexivity];
           apply binary_normalize_negative in E
       end.
  all: cbn [cond_Zopp] in *; lia.
Qed.

(** The comparison [(a, b) => b - a] never puts each of two numbers
    strictly before the other. *)
Lemma float_sub_asymmetric (x y : float) :
  (x - y <? 0)%float = true -> (y - x <? 0)%float = false.
Proof.
  rewrite !FloatAxioms.ltb_spec, !FloatAxioms.sub_spec.
  change (Prim2SF 0) with (S754_zero false).
  apply SFsub_asymmetric.
Qed.

Lemma sort_insert_sorted {A} (before : A -> A -> bool) (x : A) (l : list A) :
  (forall a b, before a b = true -> before b a = false) ->
  Sorted (fun a b => before b a = false) l ->
  Sorted (fun a b => before b a = false) (sort_insert before x l).
Proof.
  intros Hasym Hl. induction Hl as [|y l Hl IH Hhd]; simpl.
  - repeat constructor.
  - destruct (before y x) eqn:E.
    + constructor; [exact IH|].
      destruct Hhd as [|z l Hz]; simpl.
      * constructor. apply Hasym, E.
      * destruct (before z x); constructor; [exact Hz | apply Hasym, E].
    + constructor; [constructor; assumption|]. constructor. exact E.
Qed.

(** After [sort], no element is followed by one that the comparison puts
    strictly before it. *)
Lemma sort_by_sorted {A} (before : A -> A -> bool) (l : list A) :
  (forall a b, before a b = true -> before b a = false) ->
  Sorted (fun a b => before b a = false) (sort_by before l).
Proof.
  intros Hasym. unfold sort_by. induction l as [|x l IH]; simpl.
  - constructor.
  - apply sort_insert_sorted; assumption.
Qed.

Lemma Sorted_take {A} (R : A -> A -> Prop) (n : nat) (l : list A) :
  Sorted R l -> Sorted R (take n l).
Proof.
  intros Hl. revert n. induction Hl as [|x l Hl IH Hhd]; intros [|n]; simpl;
    try constructor.
  - apply IH.
  - destruct Hhd as [|y l Hy]; destruct n; simpl; constructor. exact Hy.
Qed.

Lemma Sorted_drop {A} (R : A -> A -> Prop) (n : nat) (l : list A) :
  Sorted R l -> Sorted R (drop n l).
Proof.
  intros Hl. revert n. induction Hl as [|x l Hl IH Hhd]; intros [|n]; simpl;
    try constructor; try assumption.
  apply IH.
Qed.

Lemma Sorted_map {A B} (R : A -> A -> Prop) (S : B -> B -> Prop) (f : A -> B)
    (l : list A) :
  (forall a b, R a b -> S (f a) (f b)) -> Sorted R l -> Sorted S (f <$> l).
Proof.
  intros Hf Hl. induction Hl as [|x l Hl IH Hhd]; simpl; constructor;
    [exact IH|].
  destruct Hhd as [|y l Hy]; simpl; constructor. apply Hf, Hy.
Qed.

(** The results of [queryDocuments] are in descending order of score as
    the comparison function sees it: for consecutive results [r1], [r2] the
    difference [r1.score - r2.score] is not negative. *)
Lemma rank_chunks_sorted (queryEmbedding : list float) (l : list DocumentChunk)
    (topK : Z) :
  Sorted (fun r1 r2 => (qr_score r1 - qr_score r2 <? 0)%float = false)
         (rank_chunks queryEmbedding l topK).
Proof.
  unfold rank_chunks, slice.
  apply (Sorted_map (fun a b => by_score_desc b a = false)); [auto|].
  apply Sorted_take, Sorted_drop.
  apply sort_by_sorted. intros a b. apply float_sub_asymmetric.
Qed.

End Sorting.

Section Retriever.
Context {W : Type} (svc : Services W).
Import Crawler.


Lemma slice_length_le {A} (l : list A) (k : Z) : 0 <= k -> jslen (slice l 0 k) <= k.
Proof.
  intros Hk. unfold slice, jslen, rel_index.
  rewrite length_take.
  destruct (0 <? 0) eqn:E0; [apply Z.ltb_lt in E0; lia|].
  destruct (k <? 0) eqn:Ek; [apply Z.ltb_lt in Ek; lia|].
  lia.
Qed.

Lemma slice_subseteq {A} (l : list A) (from to : Z) (x : A) :
  x ∈ slice l from to -> x ∈ l.
Proof.
  unfold slice. intros H.
  apply list_elem_of_lookup_1 in H as [i Hi].
  apply lookup_take_Some in Hi as [Hi _].
  rewrite lookup_drop in Hi. eapply list_elem_of_lookup_2, Hi.
Qed.

Lemma sort_insert_elem {A} (before : A -> A -> bool) (x y : A) (l : list A) :
  y ∈ sort_insert before x l <-> y = x \/ y ∈ l.
Proof.
  induction l as [|z l IH]; simpl.
  - rewrite list_elem_of_singleton. split; [auto | intros [H|H]; [exact H | inversion H]].
  - destruct (before z x).
    + rewrite !elem_of_cons, IH. tauto.
    + rewrite !elem_of_cons. tauto.
Qed.

Lemma sort_by_elem {A} (before : A -> A -> bool) (y : A) (l : list A) :
  y ∈ sort_by before l <-> y ∈ l.
Proof.
  unfold sort_by. induction l as [|x l IH]; simpl; [reflexivity|].
  rewrite sort_insert_elem, IH, elem_of_cons. reflexivity.
Qed.

(** What [queryDocuments] does guarantee: at most [topK] results, each a
    stored chunk's text and URL with its similarity to the query. *)
Lemma rank_chunks_top_k (queryEmbedding : list float) (l : list DocumentChunk)
    (topK : Z) :
  0 <= topK ->
  jslen (rank_chunks queryEmbedding l topK) <= topK /\
  forall r, r ∈ rank_chunks queryEmbedding l topK ->
            exists c, c ∈ l /\ qr_content r = content c /\
                      qr_source r = documentUrl c /\
                      qr_score r = cosineSimilarity queryEmbedding
                                     (default [] (embedding c)).
Proof.
  intros Hk. unfold rank_chunks. split.
  - unfold jslen. rewrite length_fmap. apply slice_length_le, Hk.
  - intros r Hr. apply list_elem_of_fmap in Hr as (s & -> & Hs).
    apply slice_subseteq, sort_by_elem in Hs.
    apply list_elem_of_fmap in Hs as (c & -> & Hc).
    exists c. repeat split; assumption.
Qed.

(** C1 (violated by the code). [queryDocuments] applies no threshold: a
    chunk orthogonal to the query is returned with score [0], below the
    minimum score [0.5] that [RAGService.searchChunks] enforces with the
    same configuration. *)
Theorem queryDocuments_ignores_minScore :
  (queryDocuments unit_vector_service (js "s") (js "q") 5 one_chunk_state).1
  = Ok [{| qr_content := js "old"; qr_source := js "https://example.com/a";
           qr_score := 0 |}] /\
  (0 <? RAG.minScore crawler_config)%float = true /\
  RAG.searchChunks crawler_config [1; 0]%float
    [{| RAG.id := js "old"; RAG.documentId := js "d"; RAG.content := js "old";
        RAG.embedding := Some [0; 1]%float; RAG.metadata := ∅ |}]
  = Ok [].
Proof. repeat split; vm_compute; reflexivity. Qed.

(** The one call [generateEmbeddings] makes. *)
Lemma generateEmbeddings_calls cfg texts (st : State W) :
  calls (generateEmbeddings svc cfg texts st).2
  = calls st ++ [CBatchEmbed (RAG.embeddingModel cfg)
                   (embed_request cfg RETRIEVAL_DOCUMENT <$> texts)].
Proof.
  unfold generateEmbeddings, mbind, M_bind, call.
  destruct (batchEmbedContents svc _ _ (world st)) as [r w].
  destruct r as [timeout|ok status ctype [embeddings|]]; try destruct ok;
    reflexivity.
Qed.

Lemma document_mode_requests cfg texts :
  Forall (fun r => taskType r = RETRIEVAL_DOCUMENT)
         (embed_request cfg RETRIEVAL_DOCUMENT <$> texts).
Proof. apply Forall_fmap, Forall_forall. intros x _. reflexivity. Qed.

Lemma embed_loop_calls (batches : list (list DocumentChunk))
    (acc : list DocumentChunk) (st : State W) :
  exists tr,
    calls (for_each (fun embeddedChunks batch =>
                       embeddings ← generateEmbeddings svc crawler_config
                                      (content <$> batch);
                       mret (embeddedChunks ++
                             imap (fun j c => with_embedding c (embeddings !! j))
                                  batch))
                    batches acc st).2
    = calls st ++ tr /\ Forall document_mode tr.
Proof.
  revert acc st. induction batches as [|batch batches IH]; intros acc st.
  - exists []. simpl. rewrite app_nil_r. split; [reflexivity | constructor].
  - cbn [for_each]. unfold mbind at 1, M_bind at 1.
    unfold mbind at 1, M_bind at 1.
    pose proof (generateEmbeddings_calls crawler_config (content <$> batch) st) as Hc.
    destruct (generateEmbeddings svc crawler_config (content <$> batch) st)
      as [[embeddings|e] st1]; simpl in Hc.
    + unfold mret at 1, M_ret at 1.
      destruct (IH (acc ++ imap (fun j c => with_embedding c (embeddings !! j)) batch)
                   st1) as (tr & Htr & Hall).
      eexists (_ :: tr). rewrite Htr, Hc, <- app_assoc. simpl.
      split; [reflexivity|]. constructor; [apply document_mode_requests | exact Hall].
    + eexists [_]. simpl. rewrite Hc. split; [reflexivity|].
      repeat constructor. apply document_mode_requests.
Qed.

(** C2 (violated by the code). [queryDocuments] embeds the query through
    [generateEmbeddings], whose requests carry [taskType: RETRIEVAL_DOCUMENT]:
    the one call it makes is a batch holding the query in document mode,
    the mode [embedAndStore] indexes the chunks with.  The query mode of
    [generateQueryEmbedding] is not used. *)
Theorem queryDocuments_embeds_query_in_document_mode
    (storeId query : jsstring) (topK : Z) (st : State W)
    (chunk : DocumentChunk) (l : list DocumentChunk) :
  documentStore st !! storeId = Some (chunk :: l) ->
  calls (queryDocuments svc storeId query topK st).2
  = calls st ++ [CBatchEmbed (RAG.embeddingModel crawler_config)
                   [{| er_model := js "models/text-embedding-004";
                       er_text := query;
                       taskType := RETRIEVAL_DOCUMENT;
                       outputDimensionality := 768 |}]]
  /\ forall chunks target,
       exists tr, calls (embedAndStore svc chunks target st).2 = calls st ++ tr
                  /\ Forall document_mode tr.
Proof.
  intros Hstore. split.
  - unfold queryDocuments. unfold mbind at 1, M_bind at 1. simpl.
    rewrite Hstore. unfold mbind, M_bind.
    pose proof (generateEmbeddings_calls crawler_config [query] st) as Hc.
    destruct (generateEmbeddings svc crawler_config [query] st)
      as [[[|queryEmbedding embeddings]|e] st1]; exact Hc.
  - intros chunks target. unfold embedAndStore. unfold mbind at 1, M_bind at 1.
    destruct (embed_loop_calls (batches_of (length chunks) 10 chunks) [] st)
      as (tr & Htr & Hall).
    exists tr. destruct (for_each _ _ _ st) as [[embedded|e] st1];
      split; solve [exact Htr | exact Hall].
Qed.

(** The sibling path, [RAGService.queryWithCustomRAG], does embed the query
    in query mode. *)
Lemma generateQueryEmbedding_calls cfg query (st : State W) :
  calls (generateQueryEmbedding svc cfg query st).2
  = calls st ++ [CEmbed (RAG.embeddingModel cfg)
                   (embed_request cfg RETRIEVAL_QUERY query)].
Proof.
  unfold generateQueryEmbedding, mbind, M_bind, call.
  destruct (embedContent svc _ _ (world st)) as [r w].
  destruct r as [timeout|ok status ctype [values|]]; try destruct ok;
    reflexivity.
Qed.

End Retriever.

Lemma queryDocuments_embeds_query_in_document_mode_witness :
  calls (queryDocuments unit_vector_service (js "s") (js "q") 5 one_chunk_state).2
  = calls one_chunk_state
    ++ [CBatchEmbed (RAG.embeddingModel crawler_config)
          [{| er_model := js "models/text-embedding-004";
              er_text := js "q";
              taskType := RETRIEVAL_DOCUMENT;
              outputDimensionality := 768 |}]].
Proof.
  exact (proj1 (queryDocuments_embeds_query_in_document_mode
                  unit_vector_service (js "s") (js "q") 5 one_chunk_state
                  (sample_chunk "old" (Some [0; 1]%float)) [] eq_refl)).
Defined.

Section Fetcher.
Context {W : Type} (svc : Services W).
Import Crawler.

#[local] Opaque extractTextFromHtml extractTitle classifyContent split_ws
  Regex.test includes.

(** C6. [crawlUrl] answers from the cache without fetching; otherwise a
    page whose HTML has fewer than 500 code units or whose extracted text has
    fewer than 200 yields [null] and changes neither the cache nor the
    store, whatever the status of the response; and a document that is
    returned was built from a successful response with at least 500 code
    units of HTML and 200 of extracted text, and is the one cached. *)
Theorem crawlUrl_minimum_length (target : CrawlTarget) (st : State W) :
  (forall doc,
      crawlCache st !! ct_url target = Some doc ->
      crawlUrl svc target st = (Ok (Some doc), st)) /\
  (crawlCache st !! ct_url target = None ->
   (forall ok status ctype html w,
       fetch_page svc (ct_url target) (world st)
       = (Response ok status ctype html, w) ->
       jslen html < 500 \/ jslen (extractTextFromHtml html) < 200 ->
       exists st',
         crawlUrl svc target st = (Ok None, st') /\
         crawlCache st' = crawlCache st /\
         documentStore st' = documentStore st) /\
   (forall doc st',
       crawlUrl svc target st = (Ok (Some doc), st') ->
       exists status ctype html w,
         fetch_page svc (ct_url target) (world st)
         = (Response true status ctype html, w) /\
         500 <= jslen html /\
         200 <= jslen (extractTextFromHtml html) /\
         crawlCache st' = <[ct_url target := doc]> (crawlCache st))).
Proof.
  split; [|intros Hmiss; split].
  - intros doc Hhit. unfold crawlUrl. unfold mbind at 1, M_bind at 1.
    cbn [get_cache]. rewrite Hhit. reflexivity.
  - intros ok status ctype html w Hfetch Hshort.
    unfold crawlUrl. unfold mbind at 1, M_bind at 1. cbn [get_cache].
    rewrite Hmiss. unfold mbind at 1, M_bind at 1. unfold call.
    rewrite Hfetch.
    destruct ok; cbn [negb]; [|eexists; repeat split].
    destruct (_ && _); [eexists; repeat split|].
    destruct (jslen html <? 500) eqn:E500; [eexists; repeat split|].
    destruct (jslen (extractTextFromHtml html) <? 200) eqn:E200;
      [eexists; repeat split|].
    apply Z.ltb_ge in E500, E200. lia.
  - intros doc st'.
    unfold crawlUrl. unfold mbind at 1, M_bind at 1. cbn [get_cache].
    rewrite Hmiss. unfold mbind at 1, M_bind at 1. unfold call.
    destruct (fetch_page svc (ct_url target) (world st)) as [r w] eqn:Hfetch.
    destruct r as [timeout|ok status ctype html]; [discriminate|].
    destruct ok; cbn [negb]; [|discriminate].
    destruct (_ && _); [discriminate|].
    destruct (jslen html <? 500) eqn:E500; [discriminate|].
    destruct (jslen (extractTextFromHtml html) <? 200) eqn:E200; [discriminate|].
    apply Z.ltb_ge in E500, E200.
    unfold mbind at 1, M_bind at 1.
    match goal with
    | |- context [cleanContentWithGemini svc ?raw ?title ?s] =>
        pose proof (keeps_cleanContentWithGemini svc same_cache same_cache_refl
                      same_cache_trans same_cache_call same_cache_clock
                      raw title s) as Hclean;
        destruct (cleanContentWithGemini svc raw title s) as [[cleaned|e] st2]
    end; [|discriminate].
    unfold same_cache in Hclean. simpl in Hclean.
    unfold mbind at 1, M_bind at 1. unfold clock.
    destruct (Date_now svc (world st2)) as [now w3].
    unfold mbind, M_bind, cache_set, mret, M_ret. cbn [crawlCache].
    intros H. injection H as <- <-. cbn [crawlCache].
    exists status, ctype, html, w. rewrite Hclean. repeat split; assumption.
Qed.

End Fetcher.

Section Orchestrator.
Context {W : Type} (svc : Services W).
Import Crawler Route.

#[local] Opaque generateSearchQueries chunkDocument.

Lemma ingestions_app (tr1 tr2 : list Call) :
  ingestions (tr1 ++ tr2) = ingestions tr1 ++ ingestions tr2.
Proof.
  induction tr1 as [|c tr1 IH]; simpl; [reflexivity|].
  destruct c; simpl; rewrite IH; reflexivity.
Qed.

Lemma ingestions_quiet (tr : list Call) :
  Forall not_ingest tr -> ingestions tr = [].
Proof.
  induction 1 as [|c tr Hc _ IH]; simpl; [reflexivity|].
  destruct c; try exact IH. exfalso. eapply Hc. reflexivity.
Qed.

Lemma quiet_ingestions (st st' : State W) :
  quiet st st' -> ingestions (calls st') = ingestions (calls st).
Proof.
  intros (tr & -> & Hall). rewrite ingestions_app, (ingestions_quiet tr Hall).
  apply app_nil_r.
Qed.

(** [ingestForEquipment] always returns a result: whatever is thrown
    inside is caught. *)
Lemma ingest_steps_returns (query : EquipmentQuery) (st : State W) :
  exists r st', ingest_steps svc query st = (Ok r, st').
Proof.
  unfold ingest_steps. unfold mbind at 1, M_bind at 1. unfold clock at 1.
  destruct (Date_now svc (world st)) as [startTime w].
  unfold try_catch.
  match goal with
  | |- context [match ?c ?s with _ => _ end] => destruct (c s) as [[r|e] st1]
  end.
  - eauto.
  - unfold mbind, M_bind, clock.
    destruct (Date_now svc (world st1)) as [now w1]. simpl. eauto.
Qed.

(** A run of [ingestForEquipment] records its own entry and no other. *)
Lemma ingestForEquipment_run (query : EquipmentQuery) (st : State W) :
  exists r st',
    ingestForEquipment svc query st = (Ok r, st') /\
    ingestions (calls st') = ingestions (calls st) ++ [query].
Proof.
  unfold ingestForEquipment. unfold mbind at 1, M_bind at 1. unfold mark at 1.
  match goal with
  | |- context [ingest_steps svc query ?s] =>
      destruct (ingest_steps_returns query s) as (r & st' & Hrun);
      pose proof (keeps_ingest_steps svc quiet quiet_refl quiet_trans quiet_call
                    quiet_clock query quiet_cache_set quiet_store_set s) as Hq
  end.
  rewrite Hrun in Hq |- *. exists r, st'. split; [reflexivity|].
  apply quiet_ingestions in Hq. cbn [snd calls] in Hq. rewrite Hq.
  rewrite ingestions_app. reflexivity.
Qed.


(** *** No candidates *)






End Orchestrator.

(* ===================================================================== *)
(** ** Concrete runs *)
(* ===================================================================== *)

(** The type [vehicle] has no entry in [SEARCH_TEMPLATES] (the key there is
    [vehicles]): the generic templates are used. *)
Example honda_queries :
  Crawler.generateSearchQueries honda_query
  = [js "vehicle clicking noise when turning right repair guide";
     js "how to fix vehicle";
     js "Honda Accord troubleshooting";
     js "DIY vehicle repair clicking noise when turning right"].
Proof. vm_compute. reflexivity. Qed.

(** One page found, fetched, kept, chunked and indexed. *)
Example ingest_one_page :
  (ingestForEquipment library_service honda_query empty_state).1
  = Ok {| Crawler.success := true;
          Crawler.documentsFound := 1;
          Crawler.documentsCrawled := 1;
          Crawler.chunksCreated := 1;
          Crawler.storeId := Some (js "equipment-vehicle-Honda-Accord-2019-1700000000000");
          Crawler.errors := [];
          Crawler.processingTime := 0 |}
  /\ (jslen long_page, jslen (Crawler.extractTextFromHtml long_page)) = (1104, 932).
Proof. split; vm_compute; reflexivity. Qed.

Example extract_text :
  Crawler.extractTextFromHtml
    (js "<html><head><title>T</title><script a=1>var x = '<b>';</script></head><body><NAV>menu</nav><p>Hello&amp;bye <b>world</b></p><!-- c --> 5 &lt; 6</body></html>")
  = js "T Hello&bye world 5 < 6".
Proof. vm_compute. reflexivity. Qed.



Example two_paragraphs_chunks :
  chunk_key <$> Crawler.chunkDocument (two_paragraphs "A")
  = [(js "se6lk0-0", 0, replicate 600 97%N);
     (js "se6lk0-1", 1, replicate 600 97%N ++ [LF; LF] ++ replicate 600 98%N)].
Proof. vm_compute. reflexivity. Qed.

Lemma chunkDocument_deterministic_witness :
  chunk_key <$> Crawler.chunkDocument (two_paragraphs "A")
  = chunk_key <$> Crawler.chunkDocument (two_paragraphs "B") /\
  forall (i : nat) (c : Crawler.DocumentChunk),
    Crawler.chunkDocument (two_paragraphs "A") !! i = Some c ->
    Crawler.id c = Crawler.hashString (Crawler.cd_url (two_paragraphs "A"))
                   ++ js "-" ++ int_to_js (Z.of_nat i) /\
    Crawler.chunkIndex c = Z.of_nat i /\
    Crawler.documentUrl c = Crawler.cd_url (two_paragraphs "A").
Proof.
  exact (chunkDocument_deterministic (two_paragraphs "A") (two_paragraphs "B")
           eq_refl eq_refl).
Defined.


Lemma crawlUrl_minimum_length_witness :
  exists st',
    crawlUrl short_page_service example_target empty_state = (Ok None, st') /\
    crawlCache st' = crawlCache empty_state /\
    documentStore st' = documentStore empty_state.
Proof.
  destruct (crawlUrl_minimum_length short_page_service example_target empty_state)
    as [_ Hmiss].
  destruct (Hmiss eq_refl) as [Hshort _].
  apply (Hshort true 200 (Some (js "text/html; charset=utf-8"))
           (js "<html><body><p>Not much here.</p></body></html>") tt eq_refl).
  left. vm_compute. reflexivity.
Defined.



(* ===================================================================== *)
(** ** Further properties *)
(* ===================================================================== *)

(** *** White space in normal form *)

Section Tidy.

Lemma loose_cons (c : N) (s : jsstring) :
  loose (c :: s) <-> (is_ws c = true -> c = SP /\ head_clear s) /\ loose s.
Proof.
  unfold loose, head_clear. split.
  - intros H. split.
    + intros Hc. destruct (H 0%nat c eq_refl Hc) as [-> Hn]. split; [reflexivity|].
      intros d Hd. apply Hn. exact Hd.
    + intros i d Hd Hw. apply (H (S i) d Hd Hw).
  - intros [Hc Hs] [|i] d Hd Hw.
    + injection Hd as <-. destruct (Hc Hw) as [-> Hh]. split; [reflexivity|].
      intros e He. apply Hh. exact He.
    + apply (Hs i d Hd Hw).
Qed.

Lemma collapse_loose (inws : bool) (s : jsstring) :
  loose (collapse_ws_from inws s) /\
  (inws = true -> head_clear (collapse_ws_from inws s)).
Proof.
  revert inws. induction s as [|c s IH]; intros inws; simpl.
  - split; [intros i c Hc; destruct i; discriminate | intros _ c Hc; discriminate].
  - destruct (is_ws c) eqn:E.
    + destruct inws.
      * apply IH.
      * split; [|discriminate]. apply loose_cons. split; [|apply IH].
        intros _. split; [reflexivity|]. apply IH. reflexivity.
    + split.
      * apply loose_cons. split; [congruence | apply IH].
      * intros _ d Hd. injection Hd as <-. exact E.
Qed.

Lemma trimStart_spec (s : jsstring) :
  exists r, s = r ++ trimStart s /\ Forall (fun c => is_ws c = true) r /\
            head_clear (trimStart s).
Proof.
  induction s as [|c s (r & Hr & Hws & Hh)]; simpl.
  - exists []. repeat split; [constructor | intros c Hc; discriminate].
  - destruct (is_ws c) eqn:E.
    + exists (c :: r). split; [simpl; congruence|]. split; [constructor; assumption|assumption].
    + exists []. split; [reflexivity|]. split; [constructor|].
      intros d Hd. injection Hd as <-. exact E.
Qed.

Lemma loose_app_r (r s : jsstring) : loose (r ++ s) -> loose s.
Proof.
  induction r as [|c r IH]; [exact (fun H => H)|].
  simpl. intros H%loose_cons. apply IH, H.
Qed.

Lemma loose_app_l (s r : jsstring) : loose (s ++ r) -> loose s.
Proof.
  unfold loose. intros H i c Hc Hw.
  destruct (H i c) as [-> Hn]; [apply lookup_app_l_Some; exact Hc | exact Hw |].
  split; [reflexivity|]. intros d Hd. apply Hn. apply lookup_app_l_Some. exact Hd.
Qed.

(** What [trimEnd] cuts off is white space, and what it leaves does not end
    with white space. *)
Lemma trimEnd_spec (s : jsstring) :
  exists r, s = trimEnd s ++ r /\ Forall (fun c => is_ws c = true) r /\
            forall c, last (trimEnd s) = Some c -> is_ws c = false.
Proof.
  unfold trimEnd.
  destruct (trimStart_spec (reverse s)) as (r & Hr & Hws & Hh).
  exists (reverse r). split; [|split].
  - rewrite <- reverse_app, <- Hr, reverse_involutive. reflexivity.
  - apply Forall_reverse. exact Hws.
  - intros c Hc. rewrite last_reverse in Hc. apply Hh.
    destruct (trimStart (reverse s)); [discriminate | exact Hc].
Qed.

Lemma single_spaced_spec (s : jsstring) :
  loose s -> (forall c, last s = Some c -> is_ws c = false) ->
  single_spaced s = true.
Proof.
  induction s as [|c s IH]; intros Hl Hlast; [reflexivity|].
  apply loose_cons in Hl as [Hc Hl].
  cbn [single_spaced]. apply andb_true_iff. split.
  - destruct (is_ws c) eqn:E; [|reflexivity].
    destruct (Hc eq_refl) as [-> Hh]. apply andb_true_iff. split; [reflexivity|].
    destruct s as [|d s].
    + specialize (Hlast SP eq_refl). discriminate.
    + rewrite (Hh d eq_refl). reflexivity.
  - apply IH; [exact Hl|]. intros d Hd. apply Hlast.
    destruct s; [discriminate | exact Hd].
Qed.

(** The normal form [trim (collapse_ws s)] of the query builder and of the
    text extractor. *)
Lemma tidy_trim_collapse (s : jsstring) : tidy (trim (collapse_ws s)) = true.
Proof.
  unfold trim, collapse_ws.
  destruct (collapse_loose false s) as [Hl _].
  destruct (trimStart_spec (collapse_ws_from false s)) as (r & Hr & _ & Hh).
  rewrite Hr in Hl. apply loose_app_r in Hl.
  destruct (trimEnd_spec (trimStart (collapse_ws_from false s))) as (r' & Hr' & _ & Hlast).
  set (t := trimStart (collapse_ws_from false s)) in *.
  rewrite Hr' in Hl. apply loose_app_l in Hl.
  unfold tidy. apply andb_true_iff. split.
  - destruct (trimEnd t) as [|c u] eqn:E; [reflexivity|].
    rewrite (Hh c); [reflexivity|]. rewrite Hr'. reflexivity.
  - apply single_spaced_spec; assumption.
Qed.

End Tidy.

(** *** The query synthesizer, every category *)

Section Queries.
Import Crawler.






(** X3. The text [extractTextFromHtml] returns never starts or ends with
    white space, and its only white space is a single space between two
    words, whatever the page. *)
Theorem extractTextFromHtml_tidy (html : jsstring) :
  tidy (extractTextFromHtml html) = true.
Proof. unfold extractTextFromHtml. apply tidy_trim_collapse. Qed.

End Queries.

Section DeclaredTypes.
Import Crawler Route.

(** X29. The request names its equipment type in the singular ([vehicle],
    [appliance], ...) while the crawler's tables are keyed in the plural:
    for every declared type but [hvac] the crawler finds no entry of its
    own, so the queries are the filled general templates and the scores
    are adjusted by the general trusted sources only. *)
Theorem declared_types_use_general_tables (body : RequestBody) :
  eq_type (equipment body) ∈ declared_types ->
  eq_type (equipment body) <> js "hvac" ->
  table_get SEARCH_TEMPLATES (type (crawlQuery body)) = None /\
  table_get TRUSTED_SOURCES (type (crawlQuery body)) = None /\
  generateSearchQueries (crawlQuery body)
  = dedupe (filter (fun s => 10 < jslen s)
              (fill_template (crawlQuery body) <$> general_templates)) /\
  forall target,
    adjustScoreBySource target (type (crawlQuery body))
    = match List.find (fun s => includes (ct_source target) (domain s))
                      (default [] (table_get TRUSTED_SOURCES (js "general"))) with
      | Some source => (relevanceScore target * weight source + 0.3)%float
      | None => (relevanceScore target * 0.7)%float
      end.
Proof.
  intros Hin Hne. cbn [crawlQuery type].
  assert (H : table_get SEARCH_TEMPLATES (eq_type (equipment body)) = None /\
              table_get TRUSTED_SOURCES (eq_type (equipment body)) = None).
  { unfold declared_types in Hin.
    repeat (apply elem_of_cons in Hin as [E|Hin];
            [try contradiction; rewrite E; split; reflexivity|]).
    inversion Hin. }
  destruct H as [H1 H2]. split; [exact H1|]. split; [exact H2|]. split.
  - unfold generateSearchQueries, templates_for. cbn [crawlQuery type].
    rewrite H1. reflexivity.
  - intros target. unfold adjustScoreBySource. rewrite H2. reflexivity.
Qed.

End DeclaredTypes.

(** *** Pages without markup *)

Section PlainText.
Import Crawler Regex.

(** A pattern that must begin with a unit the input does not have at [i]
    does not match there. *)
Lemma m_leading_unit (r : regex) (p : N -> bool) (inp : jsstring) :
  leading_unit r = Some p ->
  forall (fuel i : nat) cap k,
    (forall c, inp !! i = Some c -> p c = false) ->
    m fuel inp r i cap k = None.
Proof.
  induction r as [|q|r1 IH1 r2 _| | | | |]; intros Hl fuel i cap k Hi;
    try discriminate.
  - injection Hl as ->. destruct fuel; simpl;
      (destruct (inp !! i) as [c|] eqn:E; [rewrite (Hi c eq_refl)|]; reflexivity).
  - cbn [leading_unit] in Hl. destruct fuel.
    + change (m 0 inp (Seq r1 r2) i cap k)
        with (m 0 inp r1 i cap (fun i' cap' => m 0 inp r2 i' cap' k)).
      apply IH1; assumption.
    + change (m (S fuel) inp (Seq r1 r2) i cap k)
        with (m (S fuel) inp r1 i cap (fun i' cap' => m (S fuel) inp r2 i' cap' k)).
      apply IH1; assumption.
Qed.

Lemma search_from_leading_unit (r : regex) (p : N -> bool) (inp : jsstring) :
  leading_unit r = Some p ->
  (forall c, c ∈ inp -> p c = false) ->
  forall fuel i, search_from fuel r inp i = None.
Proof.
  intros Hl Hp. induction fuel as [|fuel IH]; intros i; cbn [search_from];
    unfold match_at; rewrite (m_leading_unit r p inp Hl);
    try (intros c Hc; apply Hp; apply list_elem_of_lookup_2 in Hc; exact Hc);
    [reflexivity | apply IH].
Qed.

Lemma replace_all_leading_unit (r : regex) (p : N -> bool) (repl inp : jsstring) :
  leading_unit r = Some p ->
  (forall c, c ∈ inp -> p c = false) ->
  replace_all r repl inp = inp.
Proof.
  intros Hl Hp. unfold replace_all. cbn [replace_all_from].
  replace (length inp <? 0)%nat with false by (symmetry; apply Nat.ltb_ge; lia).
  unfold search. rewrite (search_from_leading_unit r p inp Hl Hp). apply drop_0.
Qed.

Lemma upper_60 (c : N) : (upper c =? upper 60)%N = true -> c = 60%N.
Proof.
  unfold upper. change ((97 <=? 60) && (60 <=? 122))%N with false. cbn iota.
  destruct ((97 <=? c) && (c <=? 122))%N eqn:E.
  - apply andb_true_iff in E as [E1 E2]. apply N.leb_le in E1, E2.
    intros H%N.eqb_eq. lia.
  - intros H%N.eqb_eq. exact H.
Qed.

(** X2. A page without [<] and without [&] goes through
    [extractTextFromHtml] unchanged but for its white space: every run
    becomes one space and the ends are trimmed. *)
Theorem extractTextFromHtml_plain_text (html : jsstring) :
  60%N ∉ html -> 38%N ∉ html ->
  extractTextFromHtml html = trim (collapse_ws html).
Proof.
  intros Hlt Hamp. unfold extractTextFromHtml.
  assert (Hi : forall c, c ∈ html -> (upper c =? upper 60)%N = false).
  { intros c Hc. destruct (upper c =? upper 60)%N eqn:E; [|reflexivity].
    apply upper_60 in E. subst c. contradiction. }
  assert (Hc : forall c, c ∈ html -> (c =? 60)%N = false).
  { intros c Hc. apply N.eqb_neq. intros ->. contradiction. }
  assert (Ha : forall c, c ∈ html -> (c =? 38)%N = false).
  { intros c Hc'. apply N.eqb_neq. intros ->. contradiction. }
  rewrite (replace_all_leading_unit (element_re "script") _ [] html eq_refl Hi).
  rewrite (replace_all_leading_unit (element_re "style") _ [] html eq_refl Hi).
  rewrite (replace_all_leading_unit (element_re "nav") _ [] html eq_refl Hi).
  rewrite (replace_all_leading_unit (element_re "footer") _ [] html eq_refl Hi).
  rewrite (replace_all_leading_unit (element_re "header") _ [] html eq_refl Hi).
  rewrite (replace_all_leading_unit (element_re "aside") _ [] html eq_refl Hi).
  rewrite (replace_all_leading_unit comment_re _ [] html eq_refl Hc).
  rewrite (replace_all_leading_unit tag_re _ [SP] html eq_refl Hc).
  rewrite (replace_all_leading_unit (lit (js "&nbsp;")) _ [SP] html eq_refl Ha).
  rewrite (replace_all_leading_unit (lit (js "&amp;")) _ (js "&") html eq_refl Ha).
  rewrite (replace_all_leading_unit (lit (js "&lt;")) _ (js "<") html eq_refl Ha).
  rewrite (replace_all_leading_unit (lit (js "&gt;")) _ (js ">") html eq_refl Ha).
  rewrite (replace_all_leading_unit (lit (js "&quot;")) _ [34%N] html eq_refl Ha).
  rewrite (replace_all_leading_unit (lit (js "&#39;")) _ (js "'") html eq_refl Ha).
  reflexivity.
Qed.

End PlainText.

(** *** Documents of one paragraph *)

Section OneParagraph.
Import Crawler.

Lemma blank_free_tail (c : N) (s : jsstring) : blank_free (c :: s) = true -> blank_free s = true.
Proof.
  destruct s as [|d s]; [reflexivity|]. cbn [blank_free].
  intros [_ H]%andb_true_iff. exact H.
Qed.

Lemma split_paragraphs_from_blank_free (s : jsstring) (pend : nat) (cur : jsstring) :
  (pend <= 1)%nat -> blank_free (replicate pend LF ++ s) = true ->
  split_paragraphs_from pend cur s = [reverse cur ++ replicate pend LF ++ s].
Proof.
  revert pend cur. induction s as [|c s IH]; intros pend cur Hp Hb.
  - cbn [split_paragraphs_from].
    replace (2 <=? pend)%nat with false by (symmetry; apply Nat.leb_gt; lia).
    rewrite reverse_app, reverse_replicate, app_nil_r. reflexivity.
  - cbn [split_paragraphs_from]. destruct (c =? LF)%N eqn:E.
    + apply N.eqb_eq in E. subst c.
      destruct pend as [|[|pend]]; [|discriminate Hb|lia].
      rewrite (IH 1%nat cur); [reflexivity|lia|exact Hb].
    + replace (2 <=? pend)%nat with false by (symmetry; apply Nat.leb_gt; lia).
      rewrite (IH 0%nat).
      * cbn [replicate app]. rewrite reverse_cons, reverse_app, reverse_replicate.
        rewrite <- !app_assoc. reflexivity.
      * lia.
      * cbn [replicate app]. destruct pend as [|[|pend]]; [| |lia].
        -- apply (blank_free_tail c). exact Hb.
        -- apply (blank_free_tail c), (blank_free_tail LF). exact Hb.
Qed.

(** X4. A document whose content has no blank line is never split,
    however long it is: the crawler's [chunkDocument] returns one chunk
    made of the whole content when that is longer than 50 code units once
    trimmed, and no chunk otherwise. *)
Theorem chunkDocument_one_paragraph (doc : CrawledDocument) :
  blank_free (cd_content doc) = true ->
  chunkDocument doc
  = if 50 <? jslen (trim (cd_content doc))
    then [new_chunk doc (cd_content doc) 0] else [].
Proof.
  intros Hb. unfold chunkDocument, split_paragraphs.
  rewrite (split_paragraphs_from_blank_free _ 0 []) by (try exact Hb; lia).
  cbn [reverse rev_append replicate app foldl]. unfold chunk_step.
  cbn [currentChunk chunks next_index]. change (jslen []) with 0.
  rewrite Z.ltb_irrefl, andb_false_r. cbn [currentChunk chunks next_index app].
  reflexivity.
Qed.

End OneParagraph.

(** *** Printing numbers *)

Section Digits.

Lemma digit_value_char (d : Z) : 0 <= d < 36 -> digit_value (digit_char d) = d.
Proof.
  intros Hd. unfold digit_value, digit_char.
  destruct (d <? 10) eqn:E.
  - apply Z.ltb_lt in E.
    replace (Z.to_N (48 + d) <? 58)%N with true by (symmetry; apply N.ltb_lt; lia).
    lia.
  - apply Z.ltb_ge in E.
    replace (Z.to_N (97 + (d - 10)) <? 58)%N with false
      by (symmetry; apply N.ltb_ge; lia).
    lia.
Qed.

Lemma digit_char_base36 (d : Z) : 0 <= d < 36 -> is_base36 (digit_char d) = true.
Proof.
  intros Hd. unfold is_base36, digit_char.
  destruct (d <? 10) eqn:E.
  - apply Z.ltb_lt in E. apply orb_true_iff. left.
    apply andb_true_iff. split; apply N.leb_le; lia.
  - apply Z.ltb_ge in E. apply orb_true_iff. right.
    apply andb_true_iff. split; apply N.leb_le; lia.
Qed.

Lemma digit_char_decimal (d : Z) : 0 <= d < 10 -> is_decimal (digit_char d) = true.
Proof.
  intros Hd. unfold is_decimal, digit_char.
  replace (d <? 10) with true by (symmetry; apply Z.ltb_lt; lia).
  apply andb_true_iff. split; apply N.leb_le; lia.
Qed.

(** The digits [to_digits] puts in front of [acc] read back as [n]. *)
Lemma to_digits_spec (radix : Z) (fuel : nat) (n : Z) (acc : jsstring) :
  2 <= radix <= 36 -> 0 <= n < 2 ^ Z.of_nat fuel ->
  exists ds,
    to_digits fuel radix n acc = ds ++ acc /\
    (fuel <> O -> ds <> []) /\
    Forall (fun c => exists d, 0 <= d < radix /\ c = digit_char d) ds /\
    forall v, foldl (fun v c => v * radix + digit_value c) v ds
              = v * radix ^ Z.of_nat (length ds) + n.
Proof.
  intros Hr. revert n acc. induction fuel as [|fuel IH]; intros n acc Hn.
  - exists []. simpl in *. split; [reflexivity|]. split; [congruence|].
    split; [constructor|]. intros v. lia.
  - cbn [to_digits].
    assert (Hmod : 0 <= n mod radix < radix) by (apply Z.mod_pos_bound; lia).
    destruct (n / radix =? 0) eqn:E.
    + apply Z.eqb_eq in E.
      exists [digit_char (n mod radix)]. split; [reflexivity|].
      split; [congruence|]. split.
      * constructor; [|constructor]. exists (n mod radix). split; [lia|reflexivity].
      * intros v. simpl. rewrite digit_value_char by lia.
        pose proof (Z.div_mod n radix ltac:(lia)). nia.
    + destruct (IH (n / radix) (digit_char (n mod radix) :: acc))
        as (ds & Hds & _ & Hall & Hval).
      { split; [apply Z.div_pos; lia|].
        apply Z.div_lt_upper_bound; [lia|].
        rewrite Nat2Z.inj_succ, Z.pow_succ_r in Hn by lia.
        assert (0 < 2 ^ Z.of_nat fuel) by (apply Z.pow_pos_nonneg; lia). nia. }
      exists (ds ++ [digit_char (n mod radix)]).
      split; [rewrite Hds, <- app_assoc; reflexivity|].
      split; [intros _ H; apply app_eq_nil in H as [_ H]; discriminate|].
      split.
      * apply Forall_app. split; [exact Hall|].
        constructor; [|constructor]. exists (n mod radix). split; [lia|reflexivity].
      * intros v. rewrite foldl_app, Hval. simpl.
        rewrite digit_value_char by lia.
        rewrite length_app. simpl length.
        rewrite Nat2Z.inj_add. change (Z.of_nat 1) with 1.
        rewrite Z.pow_add_r by lia. rewrite Z.pow_1_r.
        pose proof (Z.div_mod n radix ltac:(lia)). nia.
Qed.

Lemma nat_toString_spec (radix n : Z) :
  2 <= radix <= 36 -> 0 <= n ->
  nat_toString radix n <> [] /\
  Forall (fun c => exists d, 0 <= d < radix /\ c = digit_char d) (nat_toString radix n) /\
  parse_digits radix (nat_toString radix n) = n.
Proof.
  intros Hr Hn. unfold nat_toString.
  destruct (to_digits_spec radix (S (Z.to_nat (Z.log2 n))) n [] Hr)
    as (ds & Hds & Hne & Hall & Hval).
  { split; [exact Hn|].
    rewrite Nat2Z.inj_succ, Z2Nat.id by apply Z.log2_nonneg.
    destruct (Z.eq_dec n 0) as [->|Hnz]; [reflexivity|].
    apply Z.log2_spec. lia. }
  rewrite Hds, app_nil_r. split; [apply Hne; congruence|]. split; [exact Hall|].
  unfold parse_digits. rewrite Hval. lia.
Qed.

(** Printing in base ten loses nothing. *)
Lemma int_to_js_inj (a b : Z) : 0 <= a -> 0 <= b -> int_to_js a = int_to_js b -> a = b.
Proof.
  intros Ha Hb. unfold int_to_js, int_toString.
  replace (a <? 0) with false by (symmetry; apply Z.ltb_ge; lia).
  replace (b <? 0) with false by (symmetry; apply Z.ltb_ge; lia).
  intros H.
  destruct (nat_toString_spec 10 a ltac:(lia) Ha) as (_ & _ & <-).
  destruct (nat_toString_spec 10 b ltac:(lia) Hb) as (_ & _ & <-).
  rewrite H. reflexivity.
Qed.

Lemma int_to_js_decimal (n : Z) :
  0 <= n -> int_to_js n <> [] /\ Forall (fun c => is_decimal c = true) (int_to_js n).
Proof.
  intros Hn. unfold int_to_js, int_toString.
  replace (n <? 0) with false by (symmetry; apply Z.ltb_ge; lia).
  destruct (nat_toString_spec 10 n ltac:(lia) Hn) as (Hne & Hall & _).
  split; [exact Hne|]. eapply Forall_impl; [exact Hall|].
  intros c (d & Hd & ->). apply digit_char_decimal. exact Hd.
Qed.

End Digits.

(** *** Chunk ids and store ids *)

Section Ids.
Import Crawler.

Lemma hashString_base36 (s : jsstring) :
  hashString s <> [] /\ Forall (fun c => is_base36 c = true) (hashString s).
Proof.
  unfold hashString, int_toString.
  replace (Z.abs (foldl hash_step 0 s) <? 0) with false
    by (symmetry; apply Z.ltb_ge; lia).
  destruct (nat_toString_spec 36 (Z.abs (foldl hash_step 0 s)) ltac:(lia) ltac:(lia))
    as (Hne & Hall & _).
  split; [exact Hne|]. eapply Forall_impl; [exact Hall|].
  intros c (d & Hd & ->). apply digit_char_base36. exact Hd.
Qed.

(** A separator that occurs in neither front part splits in one way. *)
Lemma split_first_unique {A} (c : A) (l1 l2 r1 r2 : list A) :
  c ∉ l1 -> c ∉ l2 -> l1 ++ c :: r1 = l2 ++ c :: r2 -> l1 = l2 /\ r1 = r2.
Proof.
  revert l2. induction l1 as [|x l1 IH]; intros [|y l2] H1 H2 H; simpl in H.
  - injection H as ->. split; reflexivity.
  - injection H as <- _. exfalso. apply H2. left.
  - injection H as -> _. exfalso. apply H1. left.
  - injection H as -> H. destruct (IH l2) as [-> ->]; [| |exact H|split; reflexivity].
    + intros Hc. apply H1. right. exact Hc.
    + intros Hc. apply H2. right. exact Hc.
Qed.

Lemma split_last_unique {A} (c : A) (l1 l2 r1 r2 : list A) :
  c ∉ r1 -> c ∉ r2 -> l1 ++ c :: r1 = l2 ++ c :: r2 -> l1 = l2 /\ r1 = r2.
Proof.
  intros H1 H2 H. apply (f_equal reverse) in H.
  rewrite !reverse_app, !reverse_cons, <- !app_assoc in H. simpl in H.
  apply split_first_unique in H as [Hr Hl].
  - apply (inj reverse) in Hr, Hl. split; assumption.
  - rewrite elem_of_reverse. exact H1.
  - rewrite elem_of_reverse. exact H2.
Qed.

Lemma base36_no_dash (s : jsstring) :
  Forall (fun c => is_base36 c = true) s -> 45%N ∉ s.
Proof.
  intros H Hin. rewrite Forall_forall in H. specialize (H _ Hin). discriminate.
Qed.

(** X5. Two chunks that [chunkDocument] produced have the same id exactly
    when the URLs of their documents have the same hash and the chunks
    have the same ordinal; in particular the ids within one document are
    pairwise different. *)
Theorem chunk_id_identifies (doc1 doc2 : CrawledDocument) (i j : nat)
    (c1 c2 : DocumentChunk) :
  chunkDocument doc1 !! i = Some c1 ->
  chunkDocument doc2 !! j = Some c2 ->
  (id c1 = id c2 <->
   hashString (cd_url doc1) = hashString (cd_url doc2) /\ i = j).
Proof.
  intros H1 H2.
  destruct (chunkDocument_numbered doc1 i c1 H1) as (-> & _ & _).
  destruct (chunkDocument_numbered doc2 j c2 H2) as (-> & _ & _).
  split.
  - intros H. change (js "-") with [45%N] in H. simpl in H.
    apply split_first_unique in H as [Hh Hi].
    + split; [exact Hh|]. apply int_to_js_inj in Hi; lia.
    + apply base36_no_dash, hashString_base36.
    + apply base36_no_dash, hashString_base36.
  - intros [-> ->]. reflexivity.
Qed.

Lemma to_int32_shift (z k : Z) : to_int32 (z + k * 2 ^ 32) = to_int32 z.
Proof.
  unfold to_int32. replace (z + k * 2 ^ 32 + 2 ^ 31) with (z + 2 ^ 31 + k * 2 ^ 32) by lia.
  rewrite Z_mod_plus_full. reflexivity.
Qed.

Lemma to_int32_wraps (z : Z) : exists k, to_int32 z = z + k * 2 ^ 32.
Proof.
  unfold to_int32. exists (- ((z + 2 ^ 31) / 2 ^ 32)).
  pose proof (Z.div_mod (z + 2 ^ 31) (2 ^ 32) ltac:(lia)). lia.
Qed.

(** One step of the hash is [31 * hash + char], wrapped to 32 bits. *)
Lemma hash_step_spec (hash : Z) (char : N) :
  hash_step hash char = to_int32 (31 * hash + Z.of_N char).
Proof.
  unfold hash_step. rewrite Z.shiftl_mul_pow2 by lia.
  destruct (to_int32_wraps (hash * 2 ^ 5)) as [k ->].
  replace (hash * 2 ^ 5 + k * 2 ^ 32 - hash + Z.of_N char)
    with (31 * hash + Z.of_N char + k * 2 ^ 32) by lia.
  apply to_int32_shift.
Qed.

Lemma hash_Aa_BB (hash : Z) :
  foldl hash_step hash (js "Aa") = foldl hash_step hash (js "BB").
Proof.
  change (js "Aa") with [65%N; 97%N]. change (js "BB") with [66%N; 66%N].
  cbn [foldl]. rewrite !hash_step_spec.
  destruct (to_int32_wraps (31 * hash + Z.of_N 65)) as [k ->].
  destruct (to_int32_wraps (31 * hash + Z.of_N 66)) as [k' ->].
  replace (31 * (31 * hash + Z.of_N 65 + k * 2 ^ 32) + Z.of_N 97)
    with (961 * hash + 2112 + (31 * k) * 2 ^ 32) by lia.
  replace (31 * (31 * hash + Z.of_N 66 + k' * 2 ^ 32) + Z.of_N 66)
    with (961 * hash + 2112 + (31 * k') * 2 ^ 32) by lia.
  rewrite !to_int32_shift. reflexivity.
Qed.

Lemma hashString_Aa_BB (p s : jsstring) :
  hashString (p ++ js "Aa" ++ s) = hashString (p ++ js "BB" ++ s).
Proof.
  unfold hashString. rewrite !foldl_app, hash_Aa_BB. reflexivity.
Qed.

(** X6. [hashString] is not injective: two URLs that differ only in
    having [Aa] where the other has [BB] hash alike, so chunks of the same
    ordinal of two such documents get the same id although their document
    URLs differ. *)
Theorem chunk_ids_collide (p s : jsstring) (doc1 doc2 : CrawledDocument)
    (i : nat) (c1 c2 : DocumentChunk) :
  cd_url doc1 = p ++ js "Aa" ++ s ->
  cd_url doc2 = p ++ js "BB" ++ s ->
  chunkDocument doc1 !! i = Some c1 ->
  chunkDocument doc2 !! i = Some c2 ->
  id c1 = id c2 /\ documentUrl c1 <> documentUrl c2.
Proof.
  intros Hu1 Hu2 H1 H2.
  destruct (chunkDocument_numbered doc1 i c1 H1) as (-> & _ & ->).
  destruct (chunkDocument_numbered doc2 i c2 H2) as (-> & _ & ->).
  rewrite Hu1, Hu2, hashString_Aa_BB. split; [reflexivity|].
  intros H. apply app_inv_head in H. discriminate.
Qed.

End Ids.

Section StoreIds.
Context {W : Type} (svc : Services W).
Import Crawler.

Lemma decimal_no_dash (s : jsstring) :
  Forall (fun c => is_decimal c = true) s -> 45%N ∉ s.
Proof.
  intros H Hin. rewrite Forall_forall in H. specialize (H _ Hin). discriminate.
Qed.

Lemma generateStoreId_value (q : EquipmentQuery) (st : State W) :
  exists parts,
    (generateStoreId svc q st).1
    = Ok (js "equipment-" ++ parts ++ js "-"
          ++ int_to_js (Date_now svc (world st)).1).
Proof.
  unfold generateStoreId, mbind, M_bind, clock, mret, M_ret.
  destruct (Date_now svc (world st)) as [t w]. eexists. reflexivity.
Qed.

(** X7. A store id starts with [equipment-] and determines the clock
    reading it was made at: ids generated at two different (non-negative)
    readings differ, whatever the two equipment queries are. *)
Theorem generateStoreId_timestamp (q1 q2 : EquipmentQuery) (st1 st2 : State W) :
  0 <= (Date_now svc (world st1)).1 ->
  0 <= (Date_now svc (world st2)).1 ->
  (Date_now svc (world st1)).1 <> (Date_now svc (world st2)).1 ->
  exists id1 id2,
    (generateStoreId svc q1 st1).1 = Ok id1 /\
    (generateStoreId svc q2 st2).1 = Ok id2 /\
    starts_with (js "equipment-") id1 = true /\
    id1 <> id2.
Proof.
  intros H1 H2 Hne.
  destruct (generateStoreId_value q1 st1) as [p1 E1].
  destruct (generateStoreId_value q2 st2) as [p2 E2].
  eexists _, _. split; [exact E1|]. split; [exact E2|]. split.
  - apply starts_with_prefix. eexists. reflexivity.
  - intros H. apply app_inv_head in H.
    change (js "-") with [45%N] in H.
    change (?p ++ [45%N] ++ ?d) with (p ++ 45%N :: d) in H.
    apply split_last_unique in H as [_ H].
    + apply int_to_js_inj in H; [contradiction| |]; assumption.
    + apply decimal_no_dash, int_to_js_decimal. exact H1.
    + apply decimal_no_dash, int_to_js_decimal. exact H2.
Qed.

End StoreIds.

(** *** Source discovery *)

Section Discovery.
Context {W : Type} (svc : Services W).
Import Crawler.

(** A search never throws; it makes one grounded request and touches
    neither map. *)
Lemma searchForUrls_run (query : jsstring) (st : State W) :
  exists ts st',
    searchForUrls svc query st = (Ok ts, st') /\
    calls st' = calls st ++ [CGenerate (SearchUrls query)] /\
    documentStore st' = documentStore st /\
    crawlCache st' = crawlCache st.
Proof.
  unfold searchForUrls, mbind, M_bind, call.
  destruct (generateContent svc (SearchUrls query) (world st)) as [r w].
  destruct r as [timeout|ok status ctype candidate]; [|destruct ok]; cbn [negb];
    eexists _, _; (split; [reflexivity|]); repeat split.
Qed.

Lemma search_loop_run (queries : list jsstring) (acc : list (list CrawlTarget))
    (st : State W) :
  exists res st',
    for_each (fun acc q => ts ← searchForUrls svc q; mret (acc ++ [ts]))
             queries acc st = (Ok (acc ++ res), st') /\
    calls st' = calls st ++ ((fun q => CGenerate (SearchUrls q)) <$> queries) /\
    documentStore st' = documentStore st /\
    crawlCache st' = crawlCache st.
Proof.
  revert acc st. induction queries as [|q queries IH]; intros acc st.
  - exists [], st. cbn [for_each fmap list_fmap]. rewrite !app_nil_r.
    repeat split.
  - cbn [for_each]. unfold mbind at 1, M_bind at 1.
    unfold mbind at 1, M_bind at 1.
    destruct (searchForUrls_run q st) as (ts & st1 & -> & Hc & Hs & Hk).
    cbn [mret M_ret].
    destruct (IH (acc ++ [ts]) st1) as (res & st' & -> & Hc' & Hs' & Hk').
    exists (ts :: res), st'. split; [rewrite <- app_assoc; reflexivity|].
    rewrite Hc', Hc, Hs', Hs, Hk', Hk, <- app_assoc. repeat split.
Qed.







Lemma collect_targets_from (t : jsstring) (l : list CrawlTarget)
    (seenUrls : gset jsstring) (allTargets : list CrawlTarget) :
  (forall u, u ∈ seenUrls <-> u ∈ ct_url <$> allTargets) ->
  NoDup (ct_url <$> allTargets) ->
  NoDup (ct_url <$>
         snd (foldl (fun '(seenUrls, allTargets) target =>
                       if bool_decide (ct_url target ∈ (seenUrls : gset jsstring))
                       then (seenUrls, allTargets)
                       else ({[ ct_url target ]} ∪ seenUrls,
                             allTargets ++
                             [with_score target (adjustScoreBySource target t)]))
                    (seenUrls, allTargets) l)).
Proof.
  revert seenUrls allTargets.
  induction l as [|x l IH]; intros seen all Hseen Hnd; [exact Hnd|].
  cbn [foldl]. case_bool_decide as Hx; [apply IH; assumption|].
  apply IH.
  - intros u. rewrite elem_of_union, elem_of_singleton, fmap_app, elem_of_app.
    cbn [fmap list_fmap with_score ct_url]. rewrite list_elem_of_singleton, Hseen. tauto.
  - rewrite fmap_app. apply NoDup_app. split; [exact Hnd|]. split.
    + intros u Hu Hu'. cbn [fmap list_fmap with_score ct_url] in Hu'.
      apply list_elem_of_singleton in Hu'. subst u. apply Hx, Hseen, Hu.
    + apply NoDup_singleton.
Qed.

Lemma collect_targets_NoDup (t : jsstring) (results : list (list CrawlTarget)) :
  NoDup (ct_url <$> collect_targets t results).
Proof.
  unfold collect_targets. apply collect_targets_from.
  - intros u. split; [intros H; apply not_elem_of_empty in H; contradiction|].
    intros H. inversion H.
  - apply NoDup_nil_2.
Qed.

Lemma sort_insert_perm {A} (before : A -> A -> bool) (x : A) (l : list A) :
  sort_insert before x l ≡ₚ x :: l.
Proof.
  induction l as [|y l IH]; simpl; [reflexivity|].
  destruct (before y x); [|reflexivity].
  rewrite IH. apply perm_swap.
Qed.

(** Sorting rearranges. *)
Lemma sort_by_perm {A} (before : A -> A -> bool) (l : list A) :
  sort_by before l ≡ₚ l.
Proof.
  unfold sort_by. induction l as [|x l IH]; simpl; [reflexivity|].
  rewrite sort_insert_perm, IH. reflexivity.
Qed.


(** X8. [findRelevantUrls] never throws.  It returns at most 15 targets,
    no two with the same URL, in descending order of adjusted score; it
    sends exactly one grounded-search request per query, in the order of
    the queries, and changes neither the store nor the crawl cache. *)
Theorem findRelevantUrls_candidates (queries : list jsstring)
    (equipmentType : jsstring) (st : State W) :
  exists targets st',
    findRelevantUrls svc queries equipmentType st = (Ok targets, st') /\
    jslen targets <= 15 /\
    NoDup (ct_url <$> targets) /\
    Sorted (fun a b => (relevanceScore a - relevanceScore b <? 0)%float = false)
           targets /\
    calls st' = calls st ++ ((fun q => CGenerate (SearchUrls q)) <$> queries) /\
    documentStore st' = documentStore st /\
    crawlCache st' = crawlCache st.
Proof.
  unfold findRelevantUrls. unfold mbind at 1, M_bind at 1.
  destruct (search_loop_run queries [] st) as (res & st' & -> & Hc & Hs & Hk).
  cbn [mret M_ret app]. eexists _, st'. split; [reflexivity|].
  split; [apply slice_length_le; lia|]. split; [|split; [|auto]].
  - unfold slice. rewrite fmap_take, fmap_drop.
    eapply sublist_NoDup; [|apply sublist_take].
    eapply sublist_NoDup; [|apply sublist_drop].
    rewrite sort_by_perm. apply collect_targets_NoDup.
  - unfold slice. apply Sorted_take, Sorted_drop.
    apply (sort_by_sorted by_relevance_desc).
    intros a b. unfold by_relevance_desc. apply float_sub_asymmetric.
Qed.


End Discovery.

Section Candidates.
Context {W : Type} (svc : Services W).
Import Crawler.

Lemma apply_support_keeps {B} (f : CrawlTarget -> B) (targets : list CrawlTarget)
    (support : GroundingSupport) :
  (forall s t, f (raise_score s t) = f t) ->
  f <$> apply_support targets support = f <$> targets.
Proof.
  intros Hf. unfold apply_support.
  destruct (confidenceScores support) as [scores|]; [|reflexivity].
  generalize (imap (fun (i : nat) (idx : Z) => (i, idx)) (groundingChunkIndices support)).
  intros l. revert targets. induction l as [|[i idx] l IH]; intros targets; [reflexivity|].
  cbn [foldl]. rewrite IH. destruct (0 <=? idx); [|reflexivity].
  rewrite (list_fmap_alter f _ (fun u : B => u))
    by (apply Forall_forall; intros t _; apply Hf).
  apply list_alter_id. reflexivity.
Qed.

Lemma supports_keep {B} (f : CrawlTarget -> B) (supports : list GroundingSupport)
    (targets : list CrawlTarget) :
  (forall s t, f (raise_score s t) = f t) ->
  f <$> foldl apply_support targets supports = f <$> targets.
Proof.
  intros Hf. revert targets. induction supports as [|s l IH]; intros targets;
    [reflexivity|].
  cbn [foldl]. rewrite IH. apply apply_support_keeps, Hf.
Qed.

Lemma Forall_via_fmap {A B} (f : A -> B) (P : B -> Prop) (l1 l2 : list A) :
  f <$> l1 = f <$> l2 ->
  Forall (fun t => P (f t)) l2 -> Forall (fun t => P (f t)) l1.
Proof.
  intros E H. rewrite Forall_lookup in H |- *. intros i t Ht.
  assert (Hi : (f <$> l2) !! i = Some (f t))
    by (rewrite <- E, list_lookup_fmap, Ht; reflexivity).
  apply list_lookup_fmap_Some in Hi as (t2 & -> & H2). apply (H i t2 H2).
Qed.

Lemma targets_of_chunks_identity (l : list GroundingChunk) :
  identity <$> targets_of_chunks svc l = omap (candidate_of_chunk svc) l /\
  Forall (fun t => ct_snippet t = []) (targets_of_chunks svc l).
Proof.
  unfold targets_of_chunks.
  assert (H : forall acc,
             Forall (fun t => ct_snippet t = []) acc ->
             let r := foldl (fun targets chunk =>
                         if truthy (web_uri chunk) then
                           match hostname svc (or_empty (web_uri chunk)) with
                           | Some host =>
                               targets ++ [{| ct_url := or_empty (web_uri chunk);
                                              ct_title := or_empty (web_title chunk);
                                              ct_snippet := [];
                                              ct_source := host;
                                              relevanceScore := 0.5 |}]
                           | None => targets
                           end
                         else targets)
                      acc l in
             identity <$> r = (identity <$> acc) ++ omap (candidate_of_chunk svc) l /\
             Forall (fun t => ct_snippet t = []) r).
  { induction l as [|chunk l IH]; intros acc Hacc.
    - cbn [foldl omap list_omap]. rewrite app_nil_r. split; [reflexivity | exact Hacc].
    - cbn [foldl]. cbn zeta in IH |- *. unfold omap at 1. cbn [list_omap].
      unfold candidate_of_chunk at 1.
      destruct (truthy (web_uri chunk)); [|apply IH; exact Hacc].
      destruct (hostname svc (or_empty (web_uri chunk))) as [host|];
        [|apply IH; exact Hacc].
      destruct (IH (acc ++ [{| ct_url := or_empty (web_uri chunk);
                               ct_title := or_empty (web_title chunk);
                               ct_snippet := [];
                               ct_source := host;
                               relevanceScore := 0.5 |}])) as [-> H2].
      { apply Forall_app. split; [exact Hacc|]. constructor; [reflexivity|constructor]. }
      split; [|exact H2]. rewrite fmap_app, <- app_assoc. reflexivity. }
  destruct (H [] (Forall_nil_2 _)) as [H1 H2]. split; [exact H1 | exact H2].
Qed.

(** X28. A grounded search that is answered gives one candidate per
    grounding chunk that has a URI which is a well-formed URL, in the order
    of the chunks, with the URI, the chunk's title, the host name as source
    and an empty snippet: the grounding supports change scores only.  A
    search that fails or is refused gives no candidate. *)
Theorem searchForUrls_candidates (query : jsstring) (st : State W) :
  match (generateContent svc (SearchUrls query) (world st)).1 with
  | Response true _ _ candidate =>
      exists targets,
        (searchForUrls svc query st).1 = Ok targets /\
        identity <$> targets
        = omap (candidate_of_chunk svc) (groundingChunks candidate) /\
        Forall (fun t => ct_snippet t = []) targets
  | _ => (searchForUrls svc query st).1 = Ok []
  end.
Proof.
  unfold searchForUrls, mbind, M_bind, call.
  destruct (generateContent svc (SearchUrls query) (world st)) as [r w].
  destruct r as [timeout|ok status ctype candidate]; [reflexivity|].
  destruct ok; cbn [negb fst]; [|reflexivity].
  eexists. split; [reflexivity|].
  destruct (targets_of_chunks_identity (groundingChunks candidate)) as [H1 H2].
  split.
  - rewrite supports_keep by reflexivity. exact H1.
  - apply (Forall_via_fmap ct_snippet (fun x => x = []) _
             (targets_of_chunks svc (groundingChunks candidate))); [|exact H2].
    apply supports_keep. reflexivity.
Qed.

End Candidates.

(** *** The fetcher, every outcome *)

Section FetcherMore.
Context {W : Type} (svc : Services W).
Import Crawler.

#[local] Opaque extractTextFromHtml extractTitle classifyContent split_ws
  Regex.test includes.

Lemma slice_prefix_length {A} (l : list A) (k : Z) :
  0 <= k -> jslen (slice l 0 k) = Z.min k (jslen l).
Proof.
  intros Hk. unfold slice, rel_index, jslen.
  replace (0 <? 0) with false by reflexivity.
  replace (k <? 0) with false by (symmetry; apply Z.ltb_ge; lia).
  rewrite length_take, length_drop. lia.
Qed.

(** Distillation never throws: one request, with at most 30000 code units
    of the page, and [None] for every failure. *)
Lemma cleanContentWithGemini_run (rawText title : jsstring) (st : State W) :
  exists r st',
    cleanContentWithGemini svc rawText title st = (Ok r, st') /\
    calls st' = calls st ++ [CGenerate (CleanContent title (slice rawText 0 30000))] /\
    documentStore st' = documentStore st /\
    crawlCache st' = crawlCache st.
Proof.
  unfold cleanContentWithGemini, mbind, M_bind, call.
  destruct (generateContent svc _ (world st)) as [r w].
  destruct r as [timeout|ok status ctype candidate]; [|destruct ok]; cbn [negb];
    try destruct (includes _ _);
    eexists _, _; (split; [reflexivity|]); repeat split.
Qed.

Lemma crawlUrl_run (target : CrawlTarget) (st : State W) :
  exists r st',
    crawlUrl svc target st = (Ok r, st') /\
    documentStore st' = documentStore st /\
    match crawlCache st !! ct_url target with
    | Some doc => r = Some doc /\ st' = st
    | None =>
        (exists tr, calls st' = calls st ++ tr /\ crawl_trace target tr) /\
        match r with
        | None => crawlCache st' = crawlCache st
        | Some doc =>
            crawlCache st' = <[ct_url target := doc]> (crawlCache st) /\
            cd_url doc = ct_url target /\
            dm_source (cd_metadata doc) = ct_source target /\
            1 <= jslen (cd_content doc)
        end
    end.
Proof.
  unfold crawlUrl. unfold mbind at 1, M_bind at 1. cbn [get_cache].
  destruct (crawlCache st !! ct_url target) as [doc|] eqn:Hc.
  { exists (Some doc), st. repeat split. }
  unfold mbind at 1, M_bind at 1. unfold call.
  destruct (fetch_page svc (ct_url target) (world st)) as [r w].
  assert (Hfail : forall st1 : State W,
             documentStore st1 = documentStore st -> crawlCache st1 = crawlCache st ->
             calls st1 = calls st ++ [CFetch (ct_url target)] ->
             exists (r : option CrawledDocument) st',
               (mret None : M W _) st1 = (Ok r, st') /\
               documentStore st' = documentStore st /\
               (exists tr, calls st' = calls st ++ tr /\ crawl_trace target tr) /\
               match r with
               | None => crawlCache st' = crawlCache st
               | Some doc =>
                   crawlCache st' = <[ct_url target := doc]> (crawlCache st) /\
                   cd_url doc = ct_url target /\
                   dm_source (cd_metadata doc) = ct_source target /\
                   1 <= jslen (cd_content doc)
               end).
  { intros st1 Hs Hk Htr. exists None, st1. split; [reflexivity|].
    split; [exact Hs|]. split; [|exact Hk].
    exists [CFetch (ct_url target)]. split; [exact Htr | left; reflexivity]. }
  destruct r as [timeout|ok status ctype html]; [apply Hfail; reflexivity|].
  destruct ok; cbn [negb]; [|apply Hfail; reflexivity].
  destruct (_ && _); [apply Hfail; reflexivity|].
  destruct (jslen html <? 500); [apply Hfail; reflexivity|].
  destruct (jslen (extractTextFromHtml html) <? 200) eqn:E200;
    [apply Hfail; reflexivity|].
  apply Z.ltb_ge in E200. clear Hfail.
  unfold mbind at 1, M_bind at 1.
  match goal with
  | |- context [cleanContentWithGemini svc ?raw ?title ?s] =>
      destruct (cleanContentWithGemini_run raw title s)
        as (cleaned & st2 & -> & Htr & Hs & Hk)
  end.
  cbn [calls documentStore crawlCache] in Htr, Hs, Hk.
  unfold mbind at 1, M_bind at 1. unfold clock.
  destruct (Date_now svc (world st2)) as [now w3].
  unfold mbind, M_bind, cache_set, mret, M_ret.
  eexists _, _. split; [reflexivity|]. cbn [documentStore crawlCache calls].
  split; [exact Hs|]. split.
  - eexists. rewrite Htr, <- app_assoc. split; [reflexivity|]. right.
    eexists. split; [|reflexivity]. apply slice_length_le. lia.
  - rewrite Hk. split; [reflexivity|]. cbn [cd_url cd_metadata dm_source cd_content].
    split; [reflexivity|]. split; [reflexivity|].
    destruct cleaned as [[|c t]|]; cbn [truthy or_empty default].
    + rewrite slice_prefix_length by lia. lia.
    + unfold jslen. simpl. lia.
    + rewrite slice_prefix_length by lia. lia.
Qed.

(** X9. [crawlUrl] never throws and never touches the document store.  A
    crawl that yields nothing leaves the cache as it was; a cache hit
    changes nothing at all; a miss makes one fetch of the target's URL,
    followed by at most one distillation request that carries at most
    30000 code units of the page. *)
Theorem crawlUrl_never_throws (target : CrawlTarget) (st : State W) :
  exists r st',
    crawlUrl svc target st = (Ok r, st') /\
    documentStore st' = documentStore st /\
    (r = None -> crawlCache st' = crawlCache st) /\
    (is_Some (crawlCache st !! ct_url target) -> st' = st) /\
    (crawlCache st !! ct_url target = None ->
     exists tr, calls st' = calls st ++ tr /\
       (tr = [CFetch (ct_url target)] \/
        exists text, jslen text <= 30000 /\
          tr = [CFetch (ct_url target);
                CGenerate (CleanContent (ct_title target) text)])).
Proof.
  destruct (crawlUrl_run target st) as (r & st' & Hrun & Hs & H).
  exists r, st'. split; [exact Hrun|]. split; [exact Hs|].
  destruct (crawlCache st !! ct_url target) as [doc|].
  - destruct H as [-> ->]. split; [discriminate|]. split; [reflexivity|discriminate].
  - destruct H as [Htr H]. split; [intros ->; exact H|].
    split; [intros [? ?]; discriminate|]. intros _. exact Htr.
Qed.

(** X10. Once [crawlUrl] has returned a document, any later crawl of the
    same URL returns that same document from the cache without changing
    the state; and a document that was not served from the cache carries
    the target's URL and source and a content that is not empty. *)
Theorem crawlUrl_round_trip (target : CrawlTarget) (st st' : State W)
    (doc : CrawledDocument) :
  crawlUrl svc target st = (Ok (Some doc), st') ->
  (forall again, ct_url again = ct_url target ->
                 crawlUrl svc again st' = (Ok (Some doc), st')) /\
  (crawlCache st !! ct_url target = None ->
   cd_url doc = ct_url target /\
   dm_source (cd_metadata doc) = ct_source target /\
   1 <= jslen (cd_content doc)).
Proof.
  intros Hrun.
  destruct (crawlUrl_run target st) as (r & st1 & Hrun' & _ & H).
  rewrite Hrun in Hrun'. injection Hrun' as <- <-.
  assert (Hhit : crawlCache st' !! ct_url target = Some doc).
  { destruct (crawlCache st !! ct_url target) as [d|] eqn:E.
    - destruct H as [H ->]. congruence.
    - destruct H as [_ [-> _]]. apply lookup_insert_eq. }
  split.
  - intros again Hurl.
    destruct (crawlUrl_run again st') as (r2 & st2 & -> & _ & H2).
    rewrite Hurl, Hhit in H2. destruct H2 as [-> ->]. reflexivity.
  - intros Hmiss. rewrite Hmiss in H. destruct H as [_ (_ & H1 & H2 & H3)].
    repeat split; assumption.
Qed.

End FetcherMore.

(** *** The indexer and the retriever *)

Section IndexerMore.
Context {W : Type} (svc : Services W).
Import Crawler.

(** One call of [generateEmbeddings]: the request it records, and the
    answer it returns exactly when the service gives vectors. *)
Lemma generateEmbeddings_run (cfg : RAG.RAGConfig) (texts : list jsstring)
    (st : State W) :
  exists r st',
    generateEmbeddings svc cfg texts st = (r, st') /\
    calls st' = calls st ++ [batch_call cfg texts] /\
    documentStore st' = documentStore st /\
    crawlCache st' = crawlCache st.
Proof.
  unfold generateEmbeddings, mbind, M_bind, call, batch_call.
  destruct (batchEmbedContents svc _ _ (world st)) as [r w].
  destruct r as [timeout|ok status ctype body]; [|destruct ok; [destruct body|]];
    cbn [negb]; eexists _, _; (split; [reflexivity|]); repeat split.
Qed.

Lemma batches_of_bounds {A} (fuel n : nat) (l : list A) :
  (0 < n)%nat ->
  Forall (fun b => (0 < length b <= n)%nat) (batches_of fuel n l).
Proof.
  intros Hn. revert l. induction fuel as [|fuel IH]; intros l; [constructor|].
  destruct l as [|x l]; [constructor|]. cbn [batches_of]. constructor; [|apply IH].
  rewrite length_take. simpl length. lia.
Qed.

(** The embedding loop of [embedAndStore]: the batches are sent in order
    until one fails. *)
Lemma embed_loop_trace (batches : list (list DocumentChunk))
    (acc : list DocumentChunk) (st : State W) :
  exists r st' k,
    for_each (fun embeddedChunks batch =>
                embeddings ← generateEmbeddings svc crawler_config (content <$> batch);
                mret (embeddedChunks ++
                      imap (fun j c => with_embedding c (embeddings !! j)) batch))
             batches acc st = (r, st') /\
    calls st'
    = calls st ++ ((fun b => batch_call crawler_config (content <$> b))
                   <$> take k batches) /\
    documentStore st' = documentStore st /\
    crawlCache st' = crawlCache st /\
    match r with
    | Ok acc' => take k batches = batches /\
                 length acc' = (length acc + length (concat batches))%nat
    | Throw _ => True
    end.
Proof.
  revert acc st. induction batches as [|b batches IH]; intros acc st.
  - exists (Ok acc), st, 0%nat. cbn [for_each take fmap list_fmap concat length].
    rewrite app_nil_r, Nat.add_0_r. repeat split.
  - cbn [for_each]. unfold mbind at 1, M_bind at 1.
    unfold mbind at 1, M_bind at 1.
    destruct (generateEmbeddings_run crawler_config (content <$> b) st)
      as (r & st1 & -> & Hc & Hs & Hk).
    destruct r as [embeddings|e].
    + cbn [mret M_ret].
      destruct (IH (acc ++ imap (fun j c => with_embedding c (embeddings !! j)) b) st1)
        as (r & st' & k & -> & Hc' & Hs' & Hk' & Hr).
      exists r, st', (S k). split; [reflexivity|].
      rewrite Hc', Hc, Hs', Hs, Hk', Hk, <- app_assoc.
      split; [reflexivity|]. split; [reflexivity|]. split; [reflexivity|].
      destruct r as [acc'|]; [|exact I]. destruct Hr as [Ht Hl].
      cbn [take concat]. rewrite Ht. split; [reflexivity|].
      rewrite Hl, !length_app, length_imap. lia.
    + exists (Throw e), st1, 1%nat. split; [reflexivity|].
      cbn [take fmap list_fmap]. rewrite take_0. repeat split; assumption.
Qed.

(** X11. [embedAndStore] cuts the chunks into consecutive batches of one
    to ten and sends the texts of the batches in order, one request per
    batch; it stops at the first batch that fails, and when it returns
    normally every batch has been sent. *)
Theorem embedAndStore_batches (chunks : list DocumentChunk) (storeId : jsstring)
    (st : State W) :
  let batches := batches_of (length chunks) 10 chunks in
  concat batches = chunks /\
  Forall (fun b => (0 < length b <= 10)%nat) batches /\
  exists k,
    calls (embedAndStore svc chunks storeId st).2
    = calls st ++ ((fun b => batch_call crawler_config (content <$> b))
                   <$> take k batches) /\
    ((embedAndStore svc chunks storeId st).1 = Ok tt -> take k batches = batches).
Proof.
  intros batches. split; [apply concat_batches_of; lia|].
  split; [apply batches_of_bounds; lia|].
  unfold embedAndStore. unfold mbind at 1 3, M_bind at 1 3.
  destruct (embed_loop_trace batches [] st) as (r & st' & k & Hrun & Hc & _ & _ & Hr).
  fold batches. rewrite Hrun. exists k. destruct r as [acc'|e]; cbn [fst snd].
  - split; [exact Hc|]. intros _. apply Hr.
  - split; [exact Hc|]. discriminate.
Qed.

(** What a successful [embedAndStore] leaves: the store [storeId] with one
    entry per chunk. *)
Lemma embedAndStore_run (chunks : list DocumentChunk) (storeId : jsstring)
    (st : State W) :
  exists r st',
    embedAndStore svc chunks storeId st = (r, st') /\
    crawlCache st' = crawlCache st /\
    match r with
    | Ok _ => exists embedded,
        documentStore st' = <[storeId := embedded]> (documentStore st) /\
        length embedded = length chunks
    | Throw _ => documentStore st' = documentStore st
    end.
Proof.
  unfold embedAndStore. unfold mbind at 1, M_bind at 1.
  destruct (embed_loop_trace (batches_of (length chunks) 10 chunks) [] st)
    as (r & st' & k & -> & _ & Hs & Hk & Hr).
  destruct r as [acc'|e].
  - unfold store_set. eexists _, _. split; [reflexivity|].
    cbn [crawlCache documentStore]. split; [exact Hk|].
    exists acc'. rewrite Hs. split; [reflexivity|].
    destruct Hr as [_ ->]. rewrite concat_batches_of by lia. reflexivity.
  - eexists _, _. split; [reflexivity|]. split; assumption.
Qed.

Lemma sort_by_length {A} (before : A -> A -> bool) (l : list A) :
  length (sort_by before l) = length l.
Proof.
  unfold sort_by. induction l as [|x l IH]; [reflexivity|]. simpl.
  rewrite <- IH. generalize (foldr (sort_insert before) [] l). intros s.
  induction s as [|y s IHs]; [reflexivity|]. simpl.
  destruct (before y x); simpl; [rewrite IHs|]; reflexivity.
Qed.

(** The ranking drops nothing but what exceeds [topK]. *)
Lemma rank_chunks_length (queryEmbedding : list float) (l : list DocumentChunk)
    (topK : Z) :
  0 <= topK -> jslen (rank_chunks queryEmbedding l topK) = Z.min topK (jslen l).
Proof.
  intros Hk. unfold rank_chunks.
  unfold jslen at 1. rewrite length_fmap. fold (jslen (A := Scored)).
  change (Z.of_nat (length ?x)) with (jslen x).
  rewrite slice_prefix_length by exact Hk.
  unfold jslen. rewrite sort_by_length, length_fmap. reflexivity.
Qed.

(** X13. On a non-empty store, once the query is embedded,
    [queryDocuments] returns exactly [min topK n] results for a store of
    [n] chunks: no chunk is dropped for a low score.  Every result is the
    text and URL of a stored chunk, and a chunk stored without embedding
    is ranked with score [0]. *)
Theorem queryDocuments_count (storeId query : jsstring) (topK : Z)
    (st st1 : State W) (chunks : list DocumentChunk)
    (queryEmbedding : list float) (rest : list (list float)) :
  documentStore st !! storeId = Some chunks ->
  chunks <> [] ->
  generateEmbeddings svc crawler_config [query] st
  = (Ok (queryEmbedding :: rest), st1) ->
  0 <= topK ->
  exists results,
    queryDocuments svc storeId query topK st = (Ok results, st1) /\
    jslen results = Z.min topK (jslen chunks) /\
    forall r, r ∈ results ->
      exists c, c ∈ chunks /\ qr_content r = content c /\
                qr_source r = documentUrl c /\
                (embedding c = None -> qr_score r = 0%float).
Proof.
  intros Hstore Hne Hembed Hk.
  unfold queryDocuments. unfold mbind at 1, M_bind at 1. cbn [get_store].
  rewrite Hstore. destruct chunks as [|c0 chunks]; [congruence|].
  unfold mbind, M_bind. rewrite Hembed. cbn [mret M_ret].
  eexists. split; [reflexivity|].
  split; [apply rank_chunks_length; exact Hk|].
  intros r Hr.
  destruct (rank_chunks_top_k queryEmbedding (c0 :: chunks) topK Hk) as [_ H].
  destruct (H r Hr) as (c & Hc & H1 & H2 & H3).
  exists c. split; [exact Hc|]. split; [exact H1|]. split; [exact H2|].
  intros He. rewrite H3, He. cbn [default].
  apply cosine_zero_guard. right. right. left. reflexivity.
Qed.

(** X14. For a store id that [hasDocuments] rejects (missing, or holding
    no chunk), [queryDocuments] returns no result and
    [getContextForDiagnosis] the empty string, both without calling any
    service or changing the state. *)
Theorem empty_store_is_silent (storeId : jsstring) (st : State W) :
  hasDocuments storeId st = (Ok false, st) ->
  (forall query topK, queryDocuments svc storeId query topK st = (Ok [], st)) /\
  (forall diagnosis, getContextForDiagnosis svc storeId diagnosis st = (Ok [], st)).
Proof.
  unfold hasDocuments, mbind, M_bind, get_store, mret, M_ret. intros H.
  assert (Hq : forall query topK,
             queryDocuments svc storeId query topK st = (Ok [], st)).
  { intros query topK. unfold queryDocuments, mbind, M_bind, get_store, mret, M_ret.
    destruct (documentStore st !! storeId) as [[|c l]|]; [reflexivity| |reflexivity].
    discriminate. }
  split; [exact Hq|]. intros diagnosis.
  unfold getContextForDiagnosis. unfold mbind, M_bind. rewrite Hq. reflexivity.
Qed.

(** X12. After [embedAndStore] has returned normally, [hasDocuments] of
    the same store id tells whether the list of chunks was non-empty, and
    its answer for every other store id is what it was before. *)
Theorem embedAndStore_then_hasDocuments (chunks : list DocumentChunk)
    (storeId : jsstring) (st st' : State W) :
  embedAndStore svc chunks storeId st = (Ok tt, st') ->
  hasDocuments storeId st' = (Ok (negb (bool_decide (chunks = []))), st') /\
  forall other, other <> storeId ->
                (hasDocuments other st').1 = (hasDocuments other st).1.
Proof.
  intros Hrun.
  destruct (embedAndStore_run chunks storeId st) as (r & st1 & Hrun' & _ & H).
  rewrite Hrun in Hrun'. injection Hrun' as <- <-.
  destruct H as (embedded & Hs & Hlen).
  unfold hasDocuments, mbind, M_bind, get_store, mret, M_ret. rewrite Hs. split.
  - rewrite lookup_insert_eq. do 2 f_equal.
    destruct embedded, chunks; try discriminate; reflexivity.
  - intros other Hne. cbn [fst]. rewrite lookup_insert_ne by congruence. reflexivity.
Qed.

End IndexerMore.

(** *** The result of an ingestion *)

Section OrchestratorMore.
Context {W : Type} (svc : Services W).
Import Crawler.

#[local] Opaque generateSearchQueries chunkDocument.

Lemma findRelevantUrls_run (queries : list jsstring) (equipmentType : jsstring)
    (st : State W) :
  exists targets st',
    findRelevantUrls svc queries equipmentType st = (Ok targets, st') /\
    jslen targets <= 15 /\
    documentStore st' = documentStore st /\
    crawlCache st' = crawlCache st.
Proof.
  unfold findRelevantUrls. unfold mbind at 1, M_bind at 1.
  destruct (search_loop_run svc queries [] st) as (res & st' & -> & _ & Hs & Hk).
  cbn [mret M_ret app]. eexists _, st'. split; [reflexivity|].
  split; [apply slice_length_le; lia|]. split; assumption.
Qed.

(** The crawl loop of [ingestForEquipment]: no crawl throws, so [errors]
    stays as it is. *)
Lemma crawl_loop_run (targets : list CrawlTarget) (docs : list CrawledDocument)
    (errors : list jsstring) (st : State W) :
  exists more st',
    for_each (fun '(crawledDocs, errors) target =>
                try_catch
                  (doc ← crawlUrl svc target;
                   mret (match doc with
                         | Some d => (crawledDocs ++ [d], errors)
                         | None => (crawledDocs, errors)
                         end))
                  (fun err =>
                     mret (crawledDocs,
                           errors ++ [js "Failed to crawl "
                                      ++ ct_url target ++ js ": " ++ err])))
             targets (docs, errors) st
    = (Ok (docs ++ more, errors), st') /\
    (length more <= length targets)%nat /\
    documentStore st' = documentStore st.
Proof.
  revert docs st. induction targets as [|t targets IH]; intros docs st.
  - exists [], st. rewrite app_nil_r. repeat split. simpl. lia.
  - cbn [for_each]. unfold mbind at 1, M_bind at 1. unfold try_catch at 1.
    unfold mbind at 1, M_bind at 1.
    destruct (crawlUrl_run svc t st) as (r & st1 & -> & Hs & _).
    cbn [mret M_ret].
    destruct r as [d|].
    + destruct (IH (docs ++ [d]) st1) as (more & st' & -> & Hlen & Hs').
      exists (d :: more), st'. rewrite <- app_assoc. split; [reflexivity|].
      split; [simpl; lia | congruence].
    + destruct (IH docs st1) as (more & st' & -> & Hlen & Hs').
      exists more, st'. split; [reflexivity|]. split; [simpl; lia | congruence].
Qed.

Lemma generateStoreId_run (q : EquipmentQuery) (st : State W) :
  exists sid st',
    generateStoreId svc q st = (Ok sid, st') /\
    starts_with (js "equipment-") sid = true /\
    documentStore st' = documentStore st /\
    crawlCache st' = crawlCache st.
Proof.
  unfold generateStoreId, mbind, M_bind, clock, mret, M_ret.
  destruct (Date_now svc (world st)) as [t w]. eexists _, _.
  split; [reflexivity|]. split; [|split; reflexivity].
  apply starts_with_prefix. eexists. reflexivity.
Qed.

Lemma ingest_steps_shape (query : EquipmentQuery) (st : State W) :
  exists r st', ingest_steps svc query st = (Ok r, st') /\ ingest_shape st st' r.
Proof.
  unfold ingest_steps. unfold mbind at 1, M_bind at 1. unfold clock at 1.
  destruct (Date_now svc (world st)) as [startTime w].
  set (st0 := {| world := w; documentStore := documentStore st;
                 crawlCache := crawlCache st; calls := calls st |}).
  unfold try_catch at 1. unfold mbind at 1, M_bind at 1.
  destruct (findRelevantUrls_run (generateSearchQueries query) (type query) st0)
    as (targets & st1 & -> & H15 & Hs1 & _).
  destruct targets as [|t targets].
  { unfold mbind, M_bind, clock, mret, M_ret.
    destruct (Date_now svc (world st1)) as [now w1].
    eexists _, _. split; [reflexivity|]. unfold ingest_shape. cbn.
    repeat split. exact Hs1. }
  unfold mbind at 1, M_bind at 1.
  destruct (crawl_loop_run (slice (t :: targets) 0 10) [] [] st1)
    as (docs & st2 & -> & Hlen & Hs2).
  cbn [app]. unfold mbind at 1, M_bind at 1.
  destruct (generateStoreId_run query st2) as (sid & st3 & -> & Hsid & Hs3 & _).
  unfold mbind at 1, M_bind at 1.
  destruct (embedAndStore_run svc (concat (chunkDocument <$> docs)) sid st3)
    as (r & st4 & -> & _ & Hr).
  destruct r as [[]|e].
  - destruct Hr as (embedded & Hs4 & Hlen4).
    unfold mbind, M_bind, clock, mret, M_ret.
    destruct (Date_now svc (world st4)) as [now w4].
    eexists _, _. split; [reflexivity|]. unfold ingest_shape.
    cbn [success errors documentsFound documentsCrawled chunksCreated storeId
         documentStore].
    split; [reflexivity|].
    assert (Hpos : 1 <= jslen (t :: targets)) by (unfold jslen; simpl; lia).
    split; [lia|]. split.
    + pose proof (slice_prefix_length (t :: targets) 10 ltac:(lia)) as Hsl.
      unfold jslen in *. lia.
    + exists sid, embedded. split; [reflexivity|]. split; [exact Hsid|].
      split; [rewrite Hs4, Hs3, Hs2, Hs1; reflexivity|]. unfold jslen. congruence.
  - unfold mbind, M_bind, clock, mret, M_ret.
    destruct (Date_now svc (world st4)) as [now w4].
    eexists _, _. split; [reflexivity|]. unfold ingest_shape. cbn.
    repeat split. rewrite Hr, Hs3, Hs2, Hs1. reflexivity.
Qed.

(** X15. [ingestForEquipment] never throws, and its result is of one of
    two shapes.  With [success]: no error is reported, between 1 and 15
    documents were found, at most 10 of them (and at most as many as were
    found) crawled, and the store named by [storeId], which starts with
    [equipment-], now holds exactly [chunksCreated] chunks.  Without
    [success]: there is no [storeId], all three counts are [0], exactly
    one error is reported and the store collection is unchanged. *)
Theorem ingestForEquipment_result (query : EquipmentQuery) (st : State W) :
  exists r st',
    ingestForEquipment svc query st = (Ok r, st') /\
    if success r then
      errors r = [] /\
      1 <= documentsFound r <= 15 /\
      0 <= documentsCrawled r <= Z.min 10 (documentsFound r) /\
      exists sid l,
        storeId r = Some sid /\
        starts_with (js "equipment-") sid = true /\
        documentStore st' = <[sid := l]> (documentStore st) /\
        jslen l = chunksCreated r
    else
      storeId r = None /\
      documentsFound r = 0 /\ documentsCrawled r = 0 /\ chunksCreated r = 0 /\
      length (errors r) = 1%nat /\
      documentStore st' = documentStore st.
Proof.
  unfold ingestForEquipment. unfold mbind at 1, M_bind at 1. unfold mark at 1.
  match goal with
  | |- context [ingest_steps svc query ?s] =>
      destruct (ingest_steps_shape query s) as (r & st' & Hrun & Hshape)
  end.
  exists r, st'. split; [exact Hrun|]. exact Hshape.
Qed.

End OrchestratorMore.

Section StoreAfterIngestion.
Context {W : Type} (svc : Services W).
Import Crawler Route.

#[local] Opaque generateSearchQueries chunkDocument.

(** X16. After an ingestion that returned a store id, [hasDocuments] of
    that id holds exactly when [chunksCreated] is positive: an ingestion
    can succeed and leave an empty store. *)
Theorem ingested_store_has_documents (query : EquipmentQuery) (st st' : State W)
    (r : IngestionResult) (sid : jsstring) :
  ingestForEquipment svc query st = (Ok r, st') ->
  storeId r = Some sid ->
  hasDocuments sid st' = (Ok (0 <? chunksCreated r), st').
Proof.
  intros Hrun Hsid.
  unfold ingestForEquipment in Hrun. unfold mbind at 1, M_bind at 1 in Hrun.
  unfold mark at 1 in Hrun.
  match type of Hrun with
  | context [ingest_steps svc query ?s] =>
      destruct (ingest_steps_shape svc query s) as (r' & st1 & Hrun' & Hshape)
  end.
  rewrite Hrun' in Hrun. injection Hrun as -> ->.
  unfold ingest_shape in Hshape. destruct (success r).
  - destruct Hshape as (_ & _ & _ & sid' & l & Hs & _ & Hstore & Hlen).
    rewrite Hsid in Hs. injection Hs as <-.
    unfold hasDocuments, mbind, M_bind, get_store, mret, M_ret.
    rewrite Hstore. cbn [documentStore]. rewrite lookup_insert_eq.
    rewrite <- Hlen. destruct l; reflexivity.
  - destruct Hshape as (Hnone & _). congruence.
Qed.

End StoreAfterIngestion.

(** *** The calls of an ingestion *)

Section Protocol.
Context {W : Type} (svc : Services W).
Import Crawler.

#[local] Opaque generateSearchQueries chunkDocument.





End Protocol.

(** *** [rag-service.ts]: similarity and search *)

Section CosineMore.

Lemma SFmul_comm (x y : spec_float) : SFmul prec emax x y = SFmul prec emax y x.
Proof.
  destruct x as [sx|sx| |sx mx ex], y as [sy|sy| |sy my ey]; simpl;
    try reflexivity; try (rewrite xorb_comm; reflexivity).
  rewrite xorb_comm, Pos.mul_comm, Z.add_comm. reflexivity.
Qed.

(** Binary64 multiplication commutes. *)
Lemma float_mul_comm (x y : float) : (x * y = y * x)%float.
Proof.
  apply Prim2SF_inj. rewrite !FloatAxioms.mul_spec. apply SFmul_comm.
Qed.

Lemma dot_from_comm (a b : list float) (d : float) :
  foldl (fun acc '(x, y) => n_add acc (n_mul x y)) d (zip a b)
  = foldl (fun acc '(x, y) => n_add acc (n_mul x y)) d (zip b a).
Proof.
  revert b d. induction a as [|x a IH]; intros [|y b] d; try reflexivity.
  simpl. rewrite (float_mul_comm x y). apply IH.
Qed.

(** X18. Both [cosineSimilarity] functions are symmetric in binary64
    arithmetic: swapping the two vectors gives the same number, or the
    same exception. *)
Theorem cosineSimilarity_symmetric (a b : list float) :
  Crawler.cosineSimilarity a b = Crawler.cosineSimilarity b a /\
  RAG.cosineSimilarity a b = RAG.cosineSimilarity b a.
Proof.
  unfold Crawler.cosineSimilarity, RAG.cosineSimilarity.
  destruct (decide (length a = length b)) as [Hlen|Hne].
  - rewrite !(bool_decide_eq_true_2 (length a = length b) Hlen).
    rewrite !(bool_decide_eq_true_2 (length b = length a) (eq_sym Hlen)).
    rewrite (dot_and_norms_eq a b Hlen), (dot_and_norms_eq b a (eq_sym Hlen)).
    unfold dot. rewrite (dot_from_comm a b).
    pose proof (float_mul_comm (n_sqrt (norm2 a)) (n_sqrt (norm2 b))) as Hm.
    change PrimFloat.mul with (n_mul (T := float)) in Hm.
    rewrite Hm, Hlen. split; reflexivity.
  - rewrite !(bool_decide_eq_false_2 (length a = length b) Hne).
    rewrite !(bool_decide_eq_false_2 (length b = length a)) by congruence.
    split; reflexivity.
Qed.

End CosineMore.

Section SearchChunks.
Import RAG.

(** What the loop of [searchChunks] adds to [results]. *)
Lemma score_chunks_spec (cfg : RAGConfig) (q : list float)
    (chunks : list ChunkedDocument) (results : list SearchResult) :
  match score_chunks cfg q chunks results with
  | Ok results' =>
      exists more,
        results' = results ++ more /\
        (length more <= length chunks)%nat /\
        (forall c e, c ∈ chunks -> embedding c = Some e -> length e = length q) /\
        forall r, r ∈ more ->
          document r ∈ chunks /\
          (minScore cfg <=? score r)%float = true /\
          exists e, embedding (document r) = Some e /\
                    cosineSimilarity q e = Ok (score r)
  | Throw msg =>
      msg = js "Vectors must have same length" /\
      exists c e, c ∈ chunks /\ embedding c = Some e /\ length e <> length q
  end.
Proof.
  revert results. induction chunks as [|c chunks IH]; intros results; cbn [score_chunks].
  - exists []. rewrite app_nil_r. split; [reflexivity|]. split; [simpl; lia|].
    split; [intros c e Hc; inversion Hc | intros r Hr; inversion Hr].
  - destruct (embedding c) as [e|] eqn:Ee.
    + destruct (cosineSimilarity q e) as [sc|msg] eqn:Ec.
      * assert (Hlen : length e = length q).
        { unfold cosineSimilarity in Ec. case_bool_decide; [congruence|discriminate]. }
        specialize (IH (if (minScore cfg <=? sc)%float
                        then results ++ [{| document := c; score := sc |}]
                        else results)).
        destruct (score_chunks cfg q chunks _) as [results'|msg].
        -- destruct IH as (more & -> & Hn & Hall & Hmore).
           destruct (minScore cfg <=? sc)%float eqn:Em.
           ++ exists ({| document := c; score := sc |} :: more).
              split; [rewrite <- app_assoc; reflexivity|].
              split; [simpl; lia|]. split.
              ** intros c' e' [->|Hc']%elem_of_cons He'; [congruence|].
                 apply (Hall c' e' Hc' He').
              ** intros r [->|Hr]%elem_of_cons.
                 --- simpl. split; [left|]. split; [exact Em|].
                     exists e. split; assumption.
                 --- destruct (Hmore r Hr) as (H1 & H2 & H3).
                     split; [right; exact H1|]. split; assumption.
           ++ exists more. split; [reflexivity|]. split; [simpl; lia|]. split.
              ** intros c' e' [->|Hc']%elem_of_cons He'; [congruence|].
                 apply (Hall c' e' Hc' He').
              ** intros r Hr. destruct (Hmore r Hr) as (H1 & H2 & H3).
                 split; [right; exact H1|]. split; assumption.
        -- destruct IH as (-> & c' & e' & Hc' & He' & Hne).
           split; [reflexivity|]. exists c', e'. split; [right; exact Hc'|].
           split; assumption.
      * unfold cosineSimilarity in Ec. case_bool_decide as Hl.
        -- destruct (dot_and_norms q e) as [[? ?] ?]. discriminate.
        -- injection Ec as <-. split; [reflexivity|].
           exists c, e. split; [left|]. split; [exact Ee | congruence].
    + specialize (IH results).
      destruct (score_chunks cfg q chunks results) as [results'|msg].
      * destruct IH as (more & -> & Hn & Hall & Hmore).
        exists more. split; [reflexivity|]. split; [simpl; lia|]. split.
        -- intros c' e' [->|Hc']%elem_of_cons He'; [congruence|].
           apply (Hall c' e' Hc' He').
        -- intros r Hr. destruct (Hmore r Hr) as (H1 & H2 & H3).
           split; [right; exact H1|]. split; assumption.
      * destruct IH as (-> & c' & e' & Hc' & He' & Hne).
        split; [reflexivity|]. exists c', e'. split; [right; exact Hc'|].
        split; assumption.
Qed.

(** X19. [RAGService.searchChunks] returns at most [topK] results in
    descending order of score, each of them a chunk that has an embedding
    and whose similarity to the query is at least [minScore]; it throws
    exactly because some chunk has an embedding of another length than
    the query's, and then no chunk is returned at all. *)
Theorem searchChunks_threshold (cfg : RAGConfig) (q : list float)
    (chunks : list ChunkedDocument) :
  0 <= topK cfg ->
  match searchChunks cfg q chunks with
  | Ok results =>
      jslen results <= topK cfg /\
      (forall c e, c ∈ chunks -> embedding c = Some e -> length e = length q) /\
      Sorted (fun r1 r2 => (score r1 - score r2 <? 0)%float = false) results /\
      forall r, r ∈ results ->
        document r ∈ chunks /\
        (minScore cfg <=? score r)%float = true /\
        exists e, embedding (document r) = Some e /\
                  cosineSimilarity q e = Ok (score r)
  | Throw msg =>
      msg = js "Vectors must have same length" /\
      exists c e, c ∈ chunks /\ embedding c = Some e /\ length e <> length q
  end.
Proof.
  intros Hk. unfold searchChunks.
  pose proof (score_chunks_spec cfg q chunks []) as H.
  destruct (score_chunks cfg q chunks []) as [results|msg]; [|exact H].
  destruct H as (more & -> & _ & Hall & Hmore). simpl.
  split; [apply slice_length_le; exact Hk|]. split; [exact Hall|]. split.
  - unfold slice. apply Sorted_take, Sorted_drop.
    apply (sort_by_sorted by_score_desc).
    intros a b. unfold by_score_desc. apply float_sub_asymmetric.
  - intros r Hr. apply slice_subseteq, sort_by_elem in Hr. apply Hmore, Hr.
Qed.

End SearchChunks.

Section CustomRAG.
Context {W : Type} (svc : Services W).

(** X20. When no chunk reaches the threshold, [queryWithCustomRAG] answers
    with its fixed sentence and no source, and the only call it has made
    is the embedding of the query, in query mode: the model is not asked
    to generate. *)
Theorem queryWithCustomRAG_without_results (cfg : RAG.RAGConfig) (query : jsstring)
    (chunks : list RAG.ChunkedDocument) (model : option jsstring)
    (st st1 : State W) (queryEmbedding : list float) :
  generateQueryEmbedding svc cfg query st = (Ok queryEmbedding, st1) ->
  RAG.searchChunks cfg queryEmbedding chunks = Ok [] ->
  queryWithCustomRAG svc cfg query chunks model st
  = (Ok (js "No relevant information found in the documents.", []), st1) /\
  calls st1 = calls st ++ [CEmbed (RAG.embeddingModel cfg)
                             (embed_request cfg RETRIEVAL_QUERY query)].
Proof.
  intros Hq Hs. split.
  - unfold queryWithCustomRAG. unfold mbind at 1, M_bind at 1. rewrite Hq, Hs.
    reflexivity.
  - pose proof (generateQueryEmbedding_calls svc cfg query st) as H.
    rewrite Hq in H. exact H.
Qed.

End CustomRAG.

(** *** [rag-service.ts]: the chunker without overlap, [processDocuments] *)

Section RAGChunkerMore.
Import RAG.





End RAGChunkerMore.

Section ProcessDocumentsFacts.
Context {W : Type} (svc : Services W).
Import RAG.

(** Once a document keeps [chunkDocument] busy, nothing follows. *)
Lemma processDocuments_stuck (fuel : nat) (cfg : RAGConfig)
    (documents : list Document) (st : State W) :
  for_each (fun allChunks doc =>
              match allChunks with
              | None => mret None
              | Some allChunks =>
                  match chunkDocument fuel cfg doc with
                  | None => mret None
                  | Some chunks =>
                      embedded ← embed_chunks svc cfg chunks;
                      mret (Some (allChunks ++ embedded))
                  end
              end)
           documents None st
  = (Ok None, st).
Proof.
  induction documents as [|doc documents IH]; [reflexivity|].
  cbn [for_each]. unfold mbind at 1, M_bind at 1. cbn [mret M_ret]. exact IH.
Qed.

Lemma processDocuments_from (cfg : RAGConfig) (documents : list Document)
    (fuel : nat) (allChunks : list ChunkedDocument) (st : State W) :
  0 < chunkOverlap cfg ->
  for_each (fun allChunks doc =>
              match allChunks with
              | None => mret None
              | Some allChunks =>
                  match chunkDocument (S fuel) cfg doc with
                  | None => mret None
                  | Some chunks =>
                      embedded ← embed_chunks svc cfg chunks;
                      mret (Some (allChunks ++ embedded))
                  end
              end)
           documents (Some allChunks) st
  = (Ok (if bool_decide (Forall (fun doc => doc_content doc = []) documents)
         then Some allChunks else None), st).
Proof.
  intros Hov. induction documents as [|doc documents IH]; [reflexivity|].
  cbn [for_each]. unfold mbind at 1, M_bind at 1.
  destruct (doc_content doc) as [|c text] eqn:E.
  - rewrite (chunkDocument_empty cfg doc fuel E).
    unfold embed_chunks. cbn [length batches_of for_each].
    unfold mbind at 1, M_bind at 1. cbn [mret M_ret]. rewrite app_nil_r.
    etransitivity; [apply IH|]. do 2 f_equal.
    repeat case_bool_decide; try reflexivity.
    + exfalso. apply H0. constructor; assumption.
    + exfalso. apply H. inversion H0. assumption.
  - assert (Hne : doc_content doc <> []) by congruence.
    unfold chunkDocument.
    rewrite (chunk_loop_diverges cfg doc Hne Hov)
      by (rewrite E; unfold jslen; simpl; lia).
    cbn [mret M_ret].
    pose proof (processDocuments_stuck (S fuel) cfg documents st) as Hs.
    unfold chunkDocument in Hs. rewrite Hs.
    rewrite bool_decide_eq_false_2; [reflexivity|].
    intros H. inversion H. congruence.
Qed.

(** X22. With a positive [chunkOverlap] (the default is 200),
    [RAGService.processDocuments] never calls the embedding service: it
    returns no chunk when every document is empty, and otherwise it is
    still running in [chunkDocument] after any number of iterations. *)
Theorem processDocuments_embeds_nothing (cfg : RAGConfig) (documents : list Document)
    (fuel : nat) (st : State W) :
  0 < chunkOverlap cfg ->
  processDocuments svc (S fuel) cfg documents st
  = (Ok (if bool_decide (Forall (fun doc => doc_content doc = []) documents)
         then Some [] else None), st).
Proof. intros Hov. apply processDocuments_from. exact Hov. Qed.

End ProcessDocumentsFacts.

Section Singleton.

(** X23. [getRAGService] is a singleton: the first call creates the
    service with its key and its configuration spread over the defaults;
    a later call returns that same service whatever key and configuration
    it is given, and still throws when neither an argument nor the
    environment provides a key. *)
Theorem getRAGService_keeps_first (env : option jsstring) (key1 key2 : jsstring)
    (config1 config2 : option ConfigOverrides) :
  key1 <> [] -> key2 <> [] ->
  exists service,
    getRAGService env (Some key1) config1 None = (Ok service, Some service) /\
    rs_apiKey service = key1 /\
    rs_config service = match config1 with
                        | Some c => spread_config c
                        | None => RAG.DEFAULT_CONFIG
                        end /\
    getRAGService env (Some key2) config2 (Some service) = (Ok service, Some service) /\
    (truthy env = false ->
     getRAGService env None config2 (Some service)
     = (Throw (js "GEMINI_API_KEY required"), Some service)).
Proof.
  intros H1 H2. destruct key1 as [|c1 k1]; [congruence|].
  destruct key2 as [|c2 k2]; [congruence|].
  eexists. split; [reflexivity|]. split; [reflexivity|]. split; [reflexivity|].
  split; [reflexivity|]. intros He. unfold getRAGService. cbn [truthy].
  rewrite He. reflexivity.
Qed.

End Singleton.

(** *** [route.ts]: parts, context and answers *)

Section RouteMore.
Context {W : Type} (svc : Services W).
Import Crawler Route.

#[local] Opaque generateSearchQueries chunkDocument.

Lemma slice_0_take {A} (l : list A) (k : Z) :
  0 <= k -> slice l 0 k = take (Z.to_nat k) l.
Proof.
  intros Hk. unfold slice.
  assert (H0 : rel_index (jslen l) 0 = 0) by (unfold rel_index, jslen; simpl; lia).
  assert (Hk' : rel_index (jslen l) k = Z.min k (jslen l)).
  { unfold rel_index. destruct (k <? 0) eqn:E; [apply Z.ltb_lt in E; lia|reflexivity]. }
  rewrite H0, Hk'. change (Z.to_nat 0) with 0%nat. rewrite drop_0. unfold jslen.
  destruct (decide (k <= Z.of_nat (length l))).
  - replace (Z.to_nat (Z.min k (Z.of_nat (length l)) - 0)) with (Z.to_nat k) by lia.
    reflexivity.
  - rewrite !take_ge by lia. reflexivity.
Qed.

Lemma slice_from_drop {A} (l : list A) (k : Z) :
  0 <= k -> slice_from l k = drop (Z.to_nat k) l.
Proof.
  intros Hk. unfold slice_from, slice.
  assert (Hl : rel_index (jslen l) (jslen l) = jslen l).
  { unfold rel_index, jslen.
    destruct (Z.of_nat (length l) <? 0) eqn:E; [apply Z.ltb_lt in E; lia|lia]. }
  assert (Hk' : rel_index (jslen l) k = Z.min k (jslen l)).
  { unfold rel_index. destruct (k <? 0) eqn:E; [apply Z.ltb_lt in E; lia|reflexivity]. }
  rewrite Hl, Hk'. unfold jslen.
  destruct (decide (k <= Z.of_nat (length l))).
  - rewrite Z.min_l by lia. apply take_ge. rewrite length_drop. lia.
  - rewrite !drop_ge by lia. apply take_nil.
Qed.

(** One search for the sources of a part: it may throw, after exactly one
    request. *)
Lemma searchPartSources_run (part : Part) (e : EquipmentInfo) (location : jsstring)
    (st : State W) :
  exists r st' query,
    searchPartSources svc part e location st = (r, st') /\
    calls st' = calls st ++ [CGenerate (PartSources query)] /\
    documentStore st' = documentStore st /\
    crawlCache st' = crawlCache st.
Proof.
  unfold searchPartSources, mbind, M_bind, call.
  destruct (generateContent svc _ (world st)) as [r w].
  destruct r as [timeout|ok status ctype candidate];
    [|destruct ok; [destruct (text candidate) as [[|c t]|];
                    [| destruct (parse_sources svc (c :: t)) as [[?|]|] |]|]];
    cbn [negb]; eexists _, _, _; (split; [reflexivity|]); repeat split.
Qed.

Lemma part_loop_run (e : EquipmentInfo) (locationStr : jsstring) (parts acc : list Part)
    (st : State W) :
  exists res st' tr,
    for_each (fun acc part =>
                sources ← try_catch (searchPartSources svc part e locationStr)
                            (fun _ => mret (getDefaultSources (eq_type e)));
                mret (acc ++ [with_sources part sources]))
             parts acc st
    = (Ok (acc ++ res), st') /\
    Forall2 (fun p r => exists l, r = with_sources p l) parts res /\
    calls st' = calls st ++ tr /\
    length tr = length parts /\
    Forall is_part_search tr /\
    documentStore st' = documentStore st /\
    crawlCache st' = crawlCache st.
Proof.
  revert acc st. induction parts as [|p parts IH]; intros acc st.
  - exists [], st, []. cbn [for_each]. rewrite !app_nil_r.
    repeat split; constructor.
  - cbn [for_each]. unfold mbind at 1, M_bind at 1.
    unfold mbind at 1, M_bind at 1. unfold try_catch at 1.
    destruct (searchPartSources_run p e locationStr st)
      as (r & st1 & query & -> & Hc & Hs & Hk).
    assert (Hstep : exists sources,
               (match r with
                | Ok a => (Ok a, st1)
                | Throw e0 => (mret (getDefaultSources (eq_type e)) : M W _) st1
                end) = (Ok sources, st1)).
    { destruct r; eexists; reflexivity. }
    destruct Hstep as [sources ->]. cbn [mret M_ret].
    destruct (IH (acc ++ [with_sources p sources]) st1)
      as (res & st' & tr & -> & Hall & Hc' & Hlen & Htr & Hs' & Hk').
    exists (with_sources p sources :: res), st', (CGenerate (PartSources query) :: tr).
    split; [rewrite <- app_assoc; reflexivity|].
    split; [constructor; [eexists; reflexivity | exact Hall]|].
    split; [rewrite Hc', Hc, <- app_assoc; reflexivity|].
    split; [simpl; lia|].
    split; [constructor; [eexists; reflexivity | exact Htr]|].
    split; congruence.
Qed.

(** X24. [findParts] never throws and returns the parts it was given, in
    order, with nothing but [whereToFind] changed; it makes one search per
    part for the first five parts and none beyond, and every part after
    the fifth gets the default sources of the equipment type. *)
Theorem findParts_keeps_parts (parts : list Part) (e : EquipmentInfo)
    (location : option Location) (st : State W) :
  exists res st' tr,
    findParts svc parts e location st = (Ok res, st') /\
    Forall2 (fun p r => exists l, r = with_sources p l) parts res /\
    (forall (i : nat) r, (5 <= i)%nat -> res !! i = Some r ->
                         whereToFind r = getDefaultSources (eq_type e)) /\
    calls st' = calls st ++ tr /\
    length tr = Nat.min 5 (length parts) /\
    Forall (fun c => exists query, c = CGenerate (PartSources query)) tr /\
    documentStore st' = documentStore st /\
    crawlCache st' = crawlCache st.
Proof.
  unfold findParts. destruct parts as [|p0 parts0] eqn:Hparts.
  { exists [], st, []. rewrite app_nil_r. repeat split; try constructor.
    intros i r _ Hr. destruct i; discriminate. }
  rewrite <- Hparts. clear Hparts. clear p0 parts0.
  unfold mbind at 1, M_bind at 1.
  match goal with
  | |- context [for_each _ _ _ st] =>
      match goal with
      | |- context [searchPartSources svc _ e ?loc] =>
          destruct (part_loop_run e loc (slice parts 0 5) [] st)
            as (res & st' & tr & Hrun & Hall & Hc & Hlen & Htr & Hs & Hk)
      end
  end.
  cbn [app] in Hrun. rewrite Hrun. cbn [mret M_ret].
  rewrite slice_0_take in Hall, Hlen by lia. rewrite slice_from_drop by lia.
  change (Z.to_nat 5) with 5%nat in *.
  pose proof (Forall2_length _ _ _ Hall) as Hres. rewrite length_take in Hres.
  eexists _, st', tr. split; [reflexivity|]. split; [|split; [|split; [exact Hc|]]].
  - rewrite <- (take_drop 5 parts) at 1. apply Forall2_app; [exact Hall|].
    apply Forall2_fmap_r, Forall_Forall2_diag, Forall_forall.
    intros x _. eexists. reflexivity.
  - intros i r Hi Hr. rewrite lookup_app_r in Hr by lia.
    apply list_lookup_fmap_Some in Hr as (x & -> & _). reflexivity.
  - rewrite Hlen, length_take. split; [reflexivity|]. split; [exact Htr|].
    split; assumption.
Qed.

End RouteMore.

Section ContextMore.
Context {W : Type} (svc : Services W).
Import Crawler Route.

#[local] Opaque getContextForDiagnosis searchTechnicalDocs.

(** X25. When the store has documents, the context retrieved from it is
    kept: if it has 500 code units or more it is the technical context
    and no web search is made; if it is shorter, the technical context
    starts with it and ends with the result of the web search. *)
Theorem technical_context_supplements (body : RequestBody) (d : Diagnosis)
    (sid : jsstring) (st st1 : State W) (retrieved : jsstring) :
  sid <> [] ->
  hasDocuments sid st = (Ok true, st) ->
  getContextForDiagnosis svc sid
    (primaryDiagnosis d ++ [SP] ++ join [SP] (symptoms d) ++ js " repair guide") st
  = (Ok retrieved, st1) ->
  (500 <= jslen retrieved ->
   technical_context svc body d (Some sid) st = (Ok retrieved, st1)) /\
  (jslen retrieved < 500 ->
   forall searched st2,
     searchTechnicalDocs svc (equipment body) d st1 = (Ok searched, st2) ->
     exists context,
       technical_context svc body d (Some sid) st = (Ok context, st2) /\
       retrieved `prefix_of` context /\
       searched `suffix_of` context).
Proof.
  intros Hsid Hhas Hctx.
  destruct sid as [|c0 sid0] eqn:Esid; [congruence|]. rewrite <- Esid in *.
  assert (Htruthy : truthy (Some sid) = true) by (rewrite Esid; reflexivity).
  clear Esid c0 sid0 Hsid.
  split.
  - intros Hlen. unfold technical_context. rewrite Htruthy.
    cbn [or_empty default from_option]. unfold Datatypes.id.
    unfold mbind at 1, M_bind at 1. rewrite Hhas.
    unfold mbind at 1, M_bind at 1. rewrite Hctx. cbv beta iota.
    rewrite (proj2 (Z.ltb_ge _ _) Hlen). reflexivity.
  - intros Hlen searched st2 Hsearch. unfold technical_context. rewrite Htruthy.
    cbn [or_empty default from_option]. unfold Datatypes.id.
    unfold mbind at 1, M_bind at 1. rewrite Hhas.
    unfold mbind at 1, M_bind at 1. rewrite Hctx. cbv beta iota.
    rewrite (proj2 (Z.ltb_lt _ _) Hlen).
    unfold mbind at 1, M_bind at 1. rewrite Hsearch.
    destruct retrieved as [|c retrieved]; cbn [mret M_ret].
    + eexists. split; [reflexivity|]. split; [apply prefix_nil | reflexivity].
    + eexists. split; [reflexivity|]. split.
      * eexists. reflexivity.
      * exists ((c :: retrieved) ++ [LF; LF] ++ js "---" ++ [LF; LF]
                ++ js "ADDITIONAL WEB SEARCH RESULTS:" ++ [LF]).
        rewrite <- !app_assoc. reflexivity.
Qed.

End ContextMore.

Section RouteAnswers.
Context {W : Type} (svc : Services W).
Import Crawler Route.

#[local] Opaque generateSearchQueries chunkDocument ingestForEquipment
  performDiagnosis technical_context generateRepairGuide findParts.

Lemma ingest_and_diagnose_inv (body : RequestBody) (st st2 : State W)
    (d : Diagnosis) (crawlResult : IngestionResult) (storeId : option jsstring) :
  ingest_and_diagnose svc body st = (Ok (d, crawlResult, storeId), st2) ->
  exists st1 st1',
    ingestForEquipment svc (crawlQuery body) st = (Ok crawlResult, st1) /\
    performDiagnosis svc body st1 = (Ok d, st1').
Proof.
  unfold ingest_and_diagnose. unfold mbind at 1, M_bind at 1.
  destruct (ingestForEquipment svc (crawlQuery body) st) as [[cr|e] st1] eqn:Hi;
    [|discriminate].
  unfold mbind at 1, M_bind at 1.
  destruct (performDiagnosis svc body st1) as [[d'|e] st1'] eqn:Hd; [|discriminate].
  destruct (_ && _).
  - unfold mbind, M_bind.
    destruct (ingestForEquipment svc (targetedQuery body d') st1') as [[tc|e] st3];
      [|discriminate].
    cbn [mret M_ret]. intros H. inversion H; subst. eauto.
  - cbn [mret M_ret]. intros H. inversion H; subst. eauto.
Qed.

Lemma respond_inv (body : RequestBody) (d : Diagnosis) (crawlResult : IngestionResult)
    (storeId : option jsstring) (st st' : State W) (resp : HttpResponse) :
  respond svc body d crawlResult storeId st = (Ok resp, st') ->
  exists g,
    resp = Json200 g (documentsCrawled crawlResult) (chunksCreated crawlResult)
                     (processingTime crawlResult) /\
    guide_diagnosis g = Some d /\
    confidenceScore g = Some (confidence d) /\
    disclaimers g = getDisclaimers (eq_type (equipment body)) /\
    (references g = [] <-> documentsCrawled crawlResult <= 0).
Proof.
  unfold respond. unfold mbind at 1, M_bind at 1.
  destruct (technical_context svc body d storeId st) as [[tc|e] st1]; [|discriminate].
  unfold mbind at 1, M_bind at 1.
  destruct (generateRepairGuide svc d tc _ _ st1) as [[[fields parts]|e] st2];
    [|discriminate].
  unfold mbind at 1, M_bind at 1.
  destruct (findParts svc parts _ _ st2) as [[ps|e] st3]; [|discriminate].
  cbn [mret M_ret]. intros H. injection H as <- _.
  eexists. split; [reflexivity|]. cbn [guide_diagnosis confidenceScore disclaimers references].
  repeat split.
  - destruct (0 <? documentsCrawled crawlResult) eqn:E; [discriminate|].
    intros _. apply Z.ltb_ge in E. exact E.
  - intros H. replace (0 <? documentsCrawled crawlResult) with false; [reflexivity|].
    symmetry. apply Z.ltb_ge. exact H.
Qed.

(** X26. A 200 answer of [POST] reports the first ingestion pass: the
    numbers of documents and chunks and the processing time are those of
    the ingestion for the request's own query, also when a targeted pass
    ran afterwards; the guide carries the diagnosis and its confidence,
    the disclaimers of the equipment type, and a reference exactly when
    that first pass crawled a document. *)
Theorem POST_reports_first_pass (GEMINI_API_KEY : option jsstring)
    (body : RequestBody) (st st' : State W) (guide : Guide)
    (documentsIngested chunks time : Z) :
  POST svc GEMINI_API_KEY body st
  = (Ok (Json200 guide documentsIngested chunks time), st') ->
  exists crawlResult st1 d st2,
    ingestForEquipment svc (crawlQuery body) st = (Ok crawlResult, st1) /\
    performDiagnosis svc body st1 = (Ok d, st2) /\
    documentsIngested = documentsCrawled crawlResult /\
    chunks = chunksCreated crawlResult /\
    time = processingTime crawlResult /\
    guide_diagnosis guide = Some d /\
    confidenceScore guide = Some (confidence d) /\
    disclaimers guide = getDisclaimers (eq_type (equipment body)) /\
    (references guide = [] <-> documentsCrawled crawlResult <= 0).
Proof.
  unfold POST. destruct (truthy GEMINI_API_KEY); cbn [negb]; [|discriminate].
  unfold try_catch. unfold mbind at 1, M_bind at 1.
  destruct (ingest_and_diagnose svc body st) as [[[[d cr] sid]|e] st2] eqn:Hid;
    [|discriminate].
  destruct (respond svc body d cr sid st2) as [[resp|e] st3] eqn:Hr; [|discriminate].
  intros H. injection H as -> <-.
  apply ingest_and_diagnose_inv in Hid as (st1 & st1' & Hi & Hd).
  apply respond_inv in Hr as (g & Hg & H1 & H2 & H3 & H4).
  injection Hg as -> -> -> ->.
  exists cr, st1, d, st1'. repeat split; try assumption; apply H4.
Qed.

Lemma diagnosis_failure_stops (body : RequestBody) (st st1 st2 : State W)
    (crawlResult : IngestionResult) (message : jsstring) :
  ingestForEquipment svc (crawlQuery body) st = (Ok crawlResult, st1) ->
  performDiagnosis svc body st1 = (Throw message, st2) ->
  ('(d, crawlResult, storeId) ← ingest_and_diagnose svc body;
   respond svc body d crawlResult storeId) st
  = (Throw message, st2).
Proof.
  intros Hi Hd. unfold mbind at 1, M_bind at 1.
  unfold ingest_and_diagnose. unfold mbind at 1, M_bind at 1. rewrite Hi.
  unfold mbind at 1, M_bind at 1. rewrite Hd. reflexivity.
Qed.

(** X27. [POST] never throws.  Without an API key it answers 500 and
    does nothing else; when the diagnosis throws it answers 500 with the
    message of the diagnosis and stops there. *)
Theorem POST_never_throws (GEMINI_API_KEY : option jsstring) (body : RequestBody)
    (st : State W) :
  exists resp st',
    POST svc GEMINI_API_KEY body st = (Ok resp, st') /\
    (truthy GEMINI_API_KEY = false ->
     resp = Json500 (js "GEMINI_API_KEY not configured") /\ st' = st) /\
    (truthy GEMINI_API_KEY = true ->
     forall crawlResult st1 message st2,
       ingestForEquipment svc (crawlQuery body) st = (Ok crawlResult, st1) ->
       performDiagnosis svc body st1 = (Throw message, st2) ->
       resp = Json500 message /\ st' = st2).
Proof.
  unfold POST. destruct (truthy GEMINI_API_KEY); cbn [negb].
  - unfold try_catch.
    destruct (('(d, crawlResult, storeId) ← ingest_and_diagnose svc body;
               respond svc body d crawlResult storeId) st)
      as [[resp|e] st3] eqn:Hin.
    + exists resp, st3. split; [reflexivity|]. split; [discriminate|].
      intros _ cr st1 msg st2 Hi Hd.
      rewrite (diagnosis_failure_stops body st st1 st2 cr msg Hi Hd) in Hin.
      discriminate.
    + exists (Json500 e), st3. split; [reflexivity|]. split; [discriminate|].
      intros _ cr st1 msg st2 Hi Hd.
      rewrite (diagnosis_failure_stops body st st1 st2 cr msg Hi Hd) in Hin.
      injection Hin as -> ->. split; reflexivity.
  - eexists _, _. split; [reflexivity|]. split; [split; reflexivity|discriminate].
Qed.

End RouteAnswers.

Section Passes.
Context {W : Type} (svc : Services W).
Import Crawler Route.

#[local] Opaque ingestForEquipment performDiagnosis respond.

Lemma ingest_and_diagnose_passes (body : RequestBody) (st : State W) :
  exists passes,
    ingestions (calls (ingest_and_diagnose svc body st).2)
    = ingestions (calls st) ++ passes /\
    (passes = [crawlQuery body] \/
     exists d, primaryDiagnosis d <> [] /\
               passes = [crawlQuery body; targetedQuery body d]).
Proof.
  unfold ingest_and_diagnose. unfold mbind at 1, M_bind at 1.
  destruct (ingestForEquipment_run svc (crawlQuery body) st)
    as (crawlResult & st1 & -> & Htrace1).
  unfold mbind at 1, M_bind at 1.
  pose proof (keeps_performDiagnosis svc quiet quiet_refl quiet_trans quiet_call
                quiet_clock body st1) as Hq.
  destruct (performDiagnosis svc body st1) as [[d|e] st2];
    apply quiet_ingestions in Hq; cbn [snd] in Hq.
  - destruct (chunksCreated crawlResult <? 5); cbn [andb].
    + case_bool_decide as Hfault; cbn [negb].
      * exists [crawlQuery body]. cbn [mret M_ret snd].
        rewrite Hq, Htrace1. split; [reflexivity | left; reflexivity].
      * unfold mbind, M_bind.
        destruct (ingestForEquipment_run svc (targetedQuery body d) st2)
          as (targetedCrawl & st3 & -> & Htrace3).
        exists [crawlQuery body; targetedQuery body d]. cbn [mret M_ret snd].
        rewrite Htrace3, Hq, Htrace1, <- app_assoc. split; [reflexivity|].
        right. exists d. split; [exact Hfault | reflexivity].
    + exists [crawlQuery body]. cbn [mret M_ret snd].
      rewrite Hq, Htrace1. split; [reflexivity | left; reflexivity].
  - exists [crawlQuery body]. cbn [snd].
    rewrite Hq, Htrace1. split; [reflexivity | left; reflexivity].
Qed.

(** X30. A request enters [ingestForEquipment] at most twice, whatever the
    services answer: not at all without an API key; otherwise once for the
    request's own query and at most once more, for the targeted query of a
    diagnosis that names a fault. *)
Theorem POST_ingestion_passes (GEMINI_API_KEY : option jsstring) (body : RequestBody)
    (st : State W) :
  exists passes,
    ingestions (calls (POST svc GEMINI_API_KEY body st).2)
    = ingestions (calls st) ++ passes /\
    if truthy GEMINI_API_KEY then
      passes = [crawlQuery body] \/
      exists d, primaryDiagnosis d <> [] /\
                passes = [crawlQuery body; targetedQuery body d]
    else passes = [].
Proof.
  unfold POST. destruct (truthy GEMINI_API_KEY); cbn [negb].
  - destruct (ingest_and_diagnose_passes body st) as (passes & Htrace & Hpasses).
    exists passes. split; [|exact Hpasses].
    unfold try_catch. unfold mbind at 1, M_bind at 1.
    destruct (ingest_and_diagnose svc body st) as [[[[d crawlResult] storeId]|e] st2];
      cbn [snd] in Htrace.
    + pose proof (keeps_respond svc quiet quiet_refl quiet_trans quiet_call
                    quiet_clock body d crawlResult storeId st2) as Hq.
      destruct (respond svc body d crawlResult storeId st2) as [[resp|e] st3];
        apply quiet_ingestions in Hq; cbn [snd] in Hq; cbn [mret M_ret snd];
        rewrite Hq; exact Htrace.
    + cbn [mret M_ret snd]. exact Htrace.
  - exists []. cbn [mret M_ret snd]. rewrite app_nil_r. split; reflexivity.
Qed.

End Passes.

(** *** Concrete runs of the further statements *)

Lemma extractTextFromHtml_plain_text_witness :
  Crawler.extractTextFromHtml (js "  Check   the fuse 	first  ")
  = js "Check the fuse first".
Proof.
  rewrite extractTextFromHtml_plain_text.
  - reflexivity.
  - apply (bool_decide_unpack _). vm_compute. exact I.
  - apply (bool_decide_unpack _). vm_compute. exact I.
Defined.

Lemma chunkDocument_one_paragraph_witness :
  blank_free (Crawler.cd_content (one_paragraph "https://example.com/a" 5000)) = true /\
  exists c,
    Crawler.chunkDocument (one_paragraph "https://example.com/a" 5000) = [c] /\
    jslen (Crawler.content c) = 5000.
Proof.
  assert (H : blank_free (Crawler.cd_content (one_paragraph "https://example.com/a" 5000))
              = true) by (vm_compute; reflexivity).
  split; [exact H|].
  rewrite (chunkDocument_one_paragraph _ H).
  eexists. split; [vm_compute; reflexivity | vm_compute; reflexivity].
Defined.

Lemma chunk_id_identifies_witness :
  exists c1 c2,
    Crawler.chunkDocument (two_paragraphs "A") !! 0%nat = Some c1 /\
    Crawler.chunkDocument (two_paragraphs "B") !! 1%nat = Some c2 /\
    (Crawler.id c1 = Crawler.id c2 <->
     Crawler.hashString (Crawler.cd_url (two_paragraphs "A"))
     = Crawler.hashString (Crawler.cd_url (two_paragraphs "B")) /\ 0%nat = 1%nat).
Proof.
  eexists _, _.
  assert (H1 : Crawler.chunkDocument (two_paragraphs "A") !! 0%nat = Some _)
    by (vm_compute; reflexivity).
  assert (H2 : Crawler.chunkDocument (two_paragraphs "B") !! 1%nat = Some _)
    by (vm_compute; reflexivity).
  split; [exact H1|]. split; [exact H2|].
  exact (chunk_id_identifies _ _ _ _ _ _ H1 H2).
Defined.

Lemma chunk_ids_collide_witness :
  exists c1 c2,
    Crawler.chunkDocument (one_paragraph "https://example.com/Aa" 60) !! 0%nat = Some c1 /\
    Crawler.chunkDocument (one_paragraph "https://example.com/BB" 60) !! 0%nat = Some c2 /\
    Crawler.id c1 = Crawler.id c2 /\
    Crawler.documentUrl c1 <> Crawler.documentUrl c2.
Proof.
  eexists _, _.
  assert (H1 : Crawler.chunkDocument (one_paragraph "https://example.com/Aa" 60) !! 0%nat
               = Some _) by (vm_compute; reflexivity).
  assert (H2 : Crawler.chunkDocument (one_paragraph "https://example.com/BB" 60) !! 0%nat
               = Some _) by (vm_compute; reflexivity).
  split; [exact H1|]. split; [exact H2|].
  assert (U1 : Crawler.cd_url (one_paragraph "https://example.com/Aa" 60)
               = js "https://example.com/" ++ js "Aa" ++ []) by reflexivity.
  assert (U2 : Crawler.cd_url (one_paragraph "https://example.com/BB" 60)
               = js "https://example.com/" ++ js "BB" ++ []) by reflexivity.
  exact (chunk_ids_collide (js "https://example.com/") [] _ _ _ _ _ U1 U2 H1 H2).
Defined.

Lemma generateStoreId_timestamp_witness :
  exists id1 id2,
    (generateStoreId ticking_service honda_query (state_at 1700000000000)).1 = Ok id1 /\
    (generateStoreId ticking_service honda_query (state_at 1700000000001)).1 = Ok id2 /\
    starts_with (js "equipment-") id1 = true /\
    id1 <> id2.
Proof.
  apply (generateStoreId_timestamp ticking_service honda_query honda_query
           (state_at 1700000000000) (state_at 1700000000001));
    simpl; lia.
Defined.


Lemma processDocuments_embeds_nothing_witness :
  processDocuments unit_vector_service 1000 RAG.DEFAULT_CONFIG [one_letter_doc]
    empty_state
  = (Ok None, empty_state).
Proof.
  rewrite (processDocuments_embeds_nothing unit_vector_service RAG.DEFAULT_CONFIG
             [one_letter_doc] 999 empty_state); [|reflexivity].
  rewrite bool_decide_eq_false_2; [reflexivity|].
  intros H. inversion H. discriminate.
Defined.

Lemma searchChunks_threshold_witness :
  match RAG.searchChunks RAG.DEFAULT_CONFIG [1; 0]%float
          [embedded_chunk "far" [0; 1]%float; embedded_chunk "near" [1; 0]%float]
  with
  | Ok results =>
      jslen results <= 5 /\
      forall r, r ∈ results -> (0.5 <=? RAG.score r)%float = true
  | Throw _ => False
  end.
Proof.
  pose proof (searchChunks_threshold RAG.DEFAULT_CONFIG [1; 0]%float
                [embedded_chunk "far" [0; 1]%float; embedded_chunk "near" [1; 0]%float])
    as H.
  destruct (RAG.searchChunks _ _ _) as [results|msg] eqn:E.
  - destruct H as (H1 & _ & _ & H4); [vm_compute; discriminate|].
    split; [exact H1|]. intros r Hr. apply (H4 r Hr).
  - vm_compute in E. discriminate.
Defined.

Lemma queryDocuments_count_witness :
  exists results st1,
    queryDocuments unit_vector_service (js "s") (js "q") 5 one_chunk_state
    = (Ok results, st1) /\
    jslen results = 1.
Proof.
  pose (st1 := (generateEmbeddings unit_vector_service crawler_config [js "q"]
                  one_chunk_state).2).
  assert (H : generateEmbeddings unit_vector_service crawler_config [js "q"]
                one_chunk_state = (Ok ([1; 0]%float :: []), st1))
    by (vm_compute; reflexivity).
  destruct (queryDocuments_count unit_vector_service (js "s") (js "q") 5
              one_chunk_state st1 [sample_chunk "old" (Some [0; 1]%float)]
              [1; 0]%float [])
    as (results & Hrun & Hlen & _);
    [vm_compute; reflexivity | discriminate | exact H | lia |].
  exists results, st1. split; [exact Hrun | exact Hlen].
Defined.

Lemma empty_store_is_silent_witness :
  queryDocuments unit_vector_service (js "s") (js "q") 5 empty_state
  = (Ok [], empty_state) /\
  getContextForDiagnosis unit_vector_service (js "s") (js "worn CV joint") empty_state
  = (Ok [], empty_state).
Proof.
  destruct (empty_store_is_silent unit_vector_service (js "s") empty_state eq_refl)
    as [H1 H2].
  split; [apply H1 | apply H2].
Defined.

Lemma embedAndStore_then_hasDocuments_witness :
  exists st',
    embedAndStore unit_vector_service [sample_chunk "new" None] (js "s") one_chunk_state
    = (Ok tt, st') /\
    hasDocuments (js "s") st' = (Ok true, st').
Proof.
  eexists.
  assert (H : embedAndStore unit_vector_service [sample_chunk "new" None] (js "s")
                one_chunk_state = (Ok tt, _)) by (vm_compute; reflexivity).
  split; [exact H|].
  apply (embedAndStore_then_hasDocuments unit_vector_service _ _ _ _ H).
Defined.

Lemma getRAGService_keeps_first_witness :
  exists service,
    getRAGService None (Some (js "key-1")) None None = (Ok service, Some service) /\
    rs_config service = RAG.DEFAULT_CONFIG /\
    getRAGService None (Some (js "key-2"))
      (Some {| o_chunkSize := Some 500; o_chunkOverlap := Some 0;
               o_embeddingModel := None; o_embeddingDimensions := None;
               o_topK := Some 3; o_minScore := None |})
      (Some service)
    = (Ok service, Some service).
Proof.
  destruct (getRAGService_keeps_first None (js "key-1") (js "key-2") None
              (Some {| o_chunkSize := Some 500; o_chunkOverlap := Some 0;
                       o_embeddingModel := None; o_embeddingDimensions := None;
                       o_topK := Some 3; o_minScore := None |}))
    as (service & H1 & _ & H3 & H4 & _); [discriminate | discriminate |].
  exists service. split; [exact H1|]. split; [exact H3 | exact H4].
Defined.

Lemma queryWithCustomRAG_without_results_witness :
  exists st1,
    queryWithCustomRAG unit_vector_service RAG.DEFAULT_CONFIG (js "q")
      [embedded_chunk "far" [0; 1]%float] None empty_state
    = (Ok (js "No relevant information found in the documents.", []), st1) /\
    calls st1 = [CEmbed (js "text-embedding-004")
                   (embed_request RAG.DEFAULT_CONFIG RETRIEVAL_QUERY (js "q"))].
Proof.
  eexists.
  assert (H : generateQueryEmbedding unit_vector_service RAG.DEFAULT_CONFIG (js "q")
                empty_state = (Ok [1; 0]%float, _)) by (vm_compute; reflexivity).
  apply (queryWithCustomRAG_without_results unit_vector_service RAG.DEFAULT_CONFIG
           (js "q") [embedded_chunk "far" [0; 1]%float] None empty_state _ _ H).
  vm_compute. reflexivity.
Defined.

Lemma crawlUrl_round_trip_witness :
  match crawlUrl library_service example_target empty_state with
  | (Ok (Some doc), st') =>
      crawlUrl library_service example_target st' = (Ok (Some doc), st') /\
      1 <= jslen (Crawler.cd_content doc)
  | _ => False
  end.
Proof.
  assert (H : exists doc st',
             crawlUrl library_service example_target empty_state
             = (Ok (Some doc), st'))
    by (eexists _, _; vm_compute; reflexivity).
  destruct H as (doc & st' & H). rewrite H.
  destruct (crawlUrl_round_trip library_service example_target empty_state st' doc H)
    as [H1 H2].
  split; [apply H1; reflexivity|]. apply H2. reflexivity.
Defined.

Lemma ingested_store_has_documents_witness :
  match ingestForEquipment library_service honda_query empty_state with
  | (Ok r, st') =>
      match Crawler.storeId r with
      | Some sid => hasDocuments sid st' = (Ok true, st')
      | None => False
      end
  | _ => False
  end.
Proof.
  assert (H : exists r st' sid,
             ingestForEquipment library_service honda_query empty_state = (Ok r, st')
             /\ Crawler.storeId r = Some sid
             /\ (0 <? Crawler.chunksCreated r) = true).
  { eexists _, _, _. split; [vm_compute; reflexivity|]. split; reflexivity. }
  destruct H as (r & st' & sid & H & Hsid & Hpos). rewrite H, Hsid.
  rewrite (ingested_store_has_documents library_service honda_query empty_state
             st' r sid H Hsid).
  rewrite Hpos. reflexivity.
Defined.

Lemma POST_reports_first_pass_witness :
  match Route.POST complete_service (Some (js "key")) honda_request empty_state with
  | (Ok (Route.Json200 guide documentsIngested chunks _), _) =>
      documentsIngested = 0 /\ chunks = 0 /\
      guide_diagnosis guide = Some cv_joint /\
      references guide = []
  | _ => False
  end.
Proof.
  assert (H : exists guide documentsIngested chunks time st',
             Route.POST complete_service (Some (js "key")) honda_request empty_state
             = (Ok (Route.Json200 guide documentsIngested chunks time), st'))
    by (eexists _, _, _, _, _; vm_compute; reflexivity).
  destruct H as (guide & documentsIngested & chunks & time & st' & H). rewrite H.
  destruct (POST_reports_first_pass complete_service _ _ _ _ _ _ _ _ H)
    as (crawlResult & st1 & d & st2 & Hi & Hd & -> & -> & _ & Hg & _ & _ & Hr).
  assert (Hi' : exists t st,
             ingestForEquipment complete_service (Route.crawlQuery honda_request)
               empty_state
             = (Ok (failed [js "No relevant documents found"] t), st))
    by (eexists _, _; vm_compute; reflexivity).
  destruct Hi' as (t & st & Hi'). rewrite Hi' in Hi. injection Hi as <- <-.
  assert (Hd' : exists st0,
             Route.performDiagnosis complete_service honda_request st
             = (Ok cv_joint, st0)).
  { unfold Route.performDiagnosis, mbind, M_bind, call. cbn. eexists. reflexivity. }
  destruct Hd' as (st0 & Hd'). rewrite Hd' in Hd. injection Hd as <- <-.
  split; [reflexivity|]. split; [reflexivity|]. split; [exact Hg|].
  apply Hr. cbn. lia.
Defined.

Lemma technical_context_supplements_witness :
  exists retrieved st1 context st2,
    getContextForDiagnosis diagnosing_service (js "s")
      (primaryDiagnosis cv_joint ++ [SP] ++ join [SP] (symptoms cv_joint)
       ++ js " repair guide") one_chunk_state
    = (Ok retrieved, st1) /\
    Route.technical_context diagnosing_service honda_request cv_joint (Some (js "s"))
      one_chunk_state
    = (Ok context, st2) /\
    retrieved `prefix_of` context /\
    js "Replace the outer CV joint." `suffix_of` context.
Proof.
  pose (run := getContextForDiagnosis diagnosing_service (js "s")
                 (primaryDiagnosis cv_joint ++ [SP] ++ join [SP] (symptoms cv_joint)
                  ++ js " repair guide") one_chunk_state).
  assert (Hrun : exists retrieved st1,
             run = (Ok retrieved, st1) /\ jslen retrieved < 500 /\
             exists st2,
               Route.searchTechnicalDocs diagnosing_service (equipment honda_request)
                 cv_joint st1
               = (Ok (js "Replace the outer CV joint."), st2)).
  { eexists _, _. split; [vm_compute; reflexivity|].
    split; [vm_compute; reflexivity|]. eexists. vm_compute. reflexivity. }
  destruct Hrun as (retrieved & st1 & Hrun & Hlen & st2 & Hsearch).
  destruct (technical_context_supplements diagnosing_service honda_request cv_joint
              (js "s") one_chunk_state st1 retrieved)
    as [_ H]; [discriminate | reflexivity | exact Hrun |].
  destruct (H Hlen _ _ Hsearch) as (context & Hc & Hp & Hs).
  exists retrieved, st1, context, st2. repeat split; assumption.
Defined.


Lemma declared_types_use_general_tables_witness :
  Crawler.generateSearchQueries (Route.crawlQuery honda_request)
  = dedupe (filter (fun s => 10 < jslen s)
              (Crawler.fill_template (Route.crawlQuery honda_request) <$> Crawler.general_templates)).
Proof.
  apply (declared_types_use_general_tables honda_request).
  - left.
  - discriminate.
Defined.
